(** * TeaPie.Extensions: the execution-result correlation engine

    A shallow embedding of

      - [src/modules/HttpRequestTypes.ts]      (the result model),
      - [src/modules/StructuredJsonParser.ts]  (retry-aware JSONL ingestion),
      - [src/modules/XmlTestParser.ts]         (test attribution, report waiter),
      - [src/modules/TeaPieExecutor.ts]        (aggregation, error taxonomy),
      - [src/constants/httpResults.ts]         (status and error constants),
      - [src/HttpRequestRunner.ts]             (the results view: escaping, the block of other tests),

    followed by the properties of the specification that concern them.

    Conventions.  A JavaScript [number] that holds a count or a status code
    is a [Z] (or a [nat] for a count).  A number that is printed or added
    is a [Js.number], the double with its rounding, its infinities and its
    [NaN]; [DurationMs], which the source rounds, is a [Js.operand]: a
    rational, an infinity or no number.  An optional field ([f?: T], or a field the source
    probes with [?.] or [||]) is an [option].  A [Map] that the source only
    reads with [get] and writes with [set] is a [gmap]; the [Map] of retry
    groups, whose iteration order decides the order of the output, is an
    association list in insertion order. *)

From Stdlib Require Import ZArith QArith Qround String Ascii List Bool Lia DecimalString DecimalPos.
From stdpp Require Import base option list strings gmap.

Local Open Scope string_scope.
Local Open Scope Z_scope.

(** ** Built-ins of the JavaScript platform *)

Module Js.

(** [x || d] on an optional string: the empty string is falsy. *)
Definition or_string (x : option string) (d : string) : string :=
  match x with
  | Some s => if String.eqb s "" then d else s
  | None => d
  end.

(** Truthiness of an optional string. *)
Definition truthy_string (x : option string) : bool :=
  match x with
  | Some s => negb (String.eqb s "")
  | None => false
  end.

(** Truthiness of an optional number: [0] and [undefined] are falsy. *)
Definition truthy_num (x : option Z) : bool :=
  match x with
  | Some z => negb (z =? 0)
  | None => false
  end.

(** [x || 0] on an optional number. *)
Definition or_num (x : option Z) (d : Z) : Z :=
  match x with
  | Some z => if z =? 0 then d else z
  | None => d
  end.

(** [s.includes(sub)] *)
Fixpoint includes (s sub : string) : bool :=
  String.prefix sub s ||
  match s with
  | EmptyString => false
  | String _ s' => includes s' sub
  end.

(** [s.replace(pat, rep)] with a string pattern: the first occurrence only. *)
Fixpoint replace (s pat rep : string) : string :=
  if String.prefix pat s
  then rep ++ String.substring (String.length pat) (String.length s) s
  else match s with
       | EmptyString => EmptyString
       | String c s' => String c (replace s' pat rep)
       end.

(** White space as [String.prototype.trim] strips it, on the code units
    below 256: TAB, LF, VT, FF, CR, SP and NBSP. *)
Definition is_space (c : ascii) : bool :=
  let n := nat_of_ascii c in
  ((9 <=? n)%nat && (n <=? 13)%nat) || (n =? 32)%nat || (n =? 160)%nat.

Fixpoint trim_start (s : string) : string :=
  match s with
  | String c s' => if is_space c then trim_start s' else s
  | EmptyString => EmptyString
  end.

(** [trim_end] keeps a character when it is not white space or when
    something is kept after it. *)
Fixpoint trim_end (s : string) : string :=
  match s with
  | EmptyString => EmptyString
  | String c s' =>
      match trim_end s' with
      | EmptyString => if is_space c then EmptyString else String c EmptyString
      | t => String c t
      end
  end.

Definition trim (s : string) : string := trim_end (trim_start s).

(** [s.split('\n')]: never the empty list; the pieces hold no line feed. *)
Fixpoint split_lines (s : string) : list string :=
  match s with
  | EmptyString => [EmptyString]
  | String c s' =>
      if Ascii.eqb c "010"%char
      then EmptyString :: split_lines s'
      else match split_lines s' with
           | l :: ls => String c l :: ls
           | [] => [String c EmptyString]
           end
  end.

(** *** Numbers

    A number of the engine is a double.  The numbers that this code
    prints and adds (a rounded duration, what [parseInt] reads, a sum of
    these, a position in a list, a time in milliseconds) have an integer
    value, or are an infinity or [NaN]: [number] holds these.  Negative
    zero is not told from zero: both print as ["0"], both are falsy and
    both add like zero. *)
Inductive number : Type :=
| Int (z : Z)
| Infinity (negative : bool)
| NaN.

(** The decimal numeral of an integer. *)
Definition decimal (z : Z) : string := NilZero.string_of_int (Z.to_int z).

(** The number nearest to the integer [z]: [z] itself up to [2^53], and
    beyond the integer of 53 significant bits nearest to it, the even one
    of two that are as near; an infinity from [2^1024 - 2^970] on. *)
Definition nearest (z : Z) : number :=
  let a := Z.abs z in
  if a <=? 2 ^ 53 then Int z
  else
    let e := Z.log2 a - 52 in
    let m := Z.shiftr a e in
    let r := a - Z.shiftl m e in
    let half := 2 ^ (e - 1) in
    let m' := if (half <? r) || ((r =? half) && Z.odd m) then m + 1 else m in
    let v := Z.shiftl m' e in
    if 2 ^ 1024 <=? v then Infinity (z <? 0) else Int (Z.sgn z * v).

(** [x + y] *)
Definition add (x y : number) : number :=
  match x, y with
  | NaN, _ | _, NaN => NaN
  | Infinity a, Infinity b => if Bool.eqb a b then Infinity a else NaN
  | Infinity a, Int _ | Int _, Infinity a => Infinity a
  | Int a, Int b => nearest (a + b)
  end.

(** [x || d]: zero and [NaN] are falsy. *)
Definition or_number (x d : number) : number :=
  match x with
  | NaN => d
  | Int z => if z =? 0 then d else x
  | Infinity _ => x
  end.

(** The integer [w] is read as the number [v]. *)
Definition reads_as (w v : Z) : bool :=
  match nearest w with
  | Int v' => v' =? v
  | _ => false
  end.

(** [Number::toString] picks, for a number [v], the numeral of the fewest
    significant digits that is read as [v], and the one nearest to [v]
    among several of as few digits (the one of even last digit among two
    that are as near).  [shortest_from] tries [k] digits, then [k + 1];
    [n] is the number of digits of [v]. *)
Fixpoint shortest_from (fuel : nat) (k n v : Z) : Z :=
  match fuel with
  | O => v
  | S fuel' =>
      let scale := 10 ^ (n - k) in
      let lo := v / scale in
      let below := lo * scale in
      let above := (lo + 1) * scale in
      match reads_as below v, reads_as above v with
      | true, true =>
          if v - below <? above - v then below
          else if above - v <? v - below then above
          else if Z.even lo then below else above
      | true, false => below
      | false, true => above
      | false, false => shortest_from fuel' (k + 1) n v
      end
  end.

Definition shortest (v : Z) : Z :=
  let n := String.length (decimal v) in
  shortest_from n 1 (Z.of_nat n) v.

(** A numeral without the zeros at its end. *)
Fixpoint strip_zeros (s : string) : string :=
  match s with
  | EmptyString => EmptyString
  | String c s' =>
      match strip_zeros s' with
      | EmptyString => if Ascii.eqb c "0" then EmptyString else String c EmptyString
      | t => String c t
      end
  end.

(** The form [d.ddde+x] of a numeral of more than 21 digits. *)
Definition exponent_form (numeral : string) : string :=
  let exponent := decimal (Z.of_nat (String.length numeral) - 1) in
  match strip_zeros numeral with
  | EmptyString => EmptyString
  | String d EmptyString => String d ("e+" ++ exponent)
  | String d digits => String d ("." ++ digits ++ "e+" ++ exponent)
  end.

(** The numeral of a positive number of integer value. *)
Definition numeral_of (v : Z) : string :=
  let numeral := decimal (shortest v) in
  if (String.length numeral <=? 21)%nat then numeral else exponent_form numeral.

(** [Number::toString], as a template literal and [+ 'ms'] apply it.  A
    number below [2^53] in size is an integer that is held exactly, and
    its numeral is the decimal numeral of the integer. *)
Definition Number_toString (x : number) : string :=
  match x with
  | NaN => "NaN"
  | Infinity false => "Infinity"
  | Infinity true => "-Infinity"
  | Int z =>
      if Z.abs z <? 2 ^ 53 then decimal z
      else if z <? 0 then "-" ++ numeral_of (Z.abs z)
      else numeral_of z
  end.

(** A number of integer value, printed: the integer [z] stands for the
    number nearest to it. *)
Definition string_of_number (z : Z) : string := Number_toString (nearest z).

(** What [Math.round] is applied to, once made a number: a finite number,
    an infinity (JSON.parse reads a literal beyond the doubles, such as
    [1e999], as one), or [NaN] (a field that is absent). *)
Inductive operand : Type :=
| Finite (q : Q)
| Infinite (negative : bool)
| NoNumber.

(** [Math.round]: the nearest integer, halves towards +infinity. *)
Definition Math_round (x : operand) : number :=
  match x with
  | Finite q => nearest (Qfloor (q + (1 # 2))%Q)
  | Infinite negative => Infinity negative
  | NoNumber => NaN
  end.

Definition digit_of (radix : Z) (c : ascii) : option Z :=
  let n := Z.of_nat (nat_of_ascii c) in
  let d :=
    if (48 <=? n) && (n <=? 57) then Some (n - 48)
    else if (97 <=? n) && (n <=? 122) then Some (n - 87)
    else if (65 <=? n) && (n <=? 90) then Some (n - 55)
    else None in
  match d with
  | Some v => if v <? radix then Some v else None
  | None => None
  end.

(** The longest prefix of digits, read in [radix]; [None] when the
    prefix is empty. *)
Fixpoint digits (radix : Z) (acc : option Z) (s : string) : option Z :=
  match s with
  | EmptyString => acc
  | String c s' =>
      match digit_of radix c with
      | Some d => digits radix (Some (radix * default 0 acc + d)) s'
      | None => acc
      end
  end.

Definition strip_hex_prefix (s : string) : option string :=
  match s with
  | String "0"%char (String x s') =>
      if Ascii.eqb x "x"%char || Ascii.eqb x "X"%char then Some s' else None
  | _ => None
  end.

(** [parseInt(s)] without a radix argument; [None] is [NaN]. *)
Definition parseInt (s : string) : option Z :=
  let s0 := trim_start s in
  let '(sign, s1) :=
    match s0 with
    | String "-"%char r => (-1, r)
    | String "+"%char r => (1, r)
    | _ => (1, s0)
    end in
  let magnitude :=
    match strip_hex_prefix s1 with
    | Some h => digits 16 None h
    | None => digits 10 None s1
    end in
  (fun m => sign * m) <$> magnitude.

(** The number that [parseInt(s)] answers: the number nearest to the
    value of the digits ([parseInt] above), [NaN] without a digit. *)
Definition parseInt_number (s : string) : number :=
  match parseInt s with
  | Some z => nearest z
  | None => NaN
  end.

End Js.

(** ** [src/constants/httpResults.ts] *)

Definition STATUS_PASSED : string := "Passed".
Definition STATUS_FAILED : string := "Failed".
Definition STATUS_TESTS_FAILED : string := "TestsFailed".

Definition ERROR_CONNECTION_REFUSED : string :=
  "Connection refused - please ensure the server is running and accessible".
Definition ERROR_HOST_NOT_FOUND : string :=
  "Host not found - please check the URL in your HTTP request".
Definition ERROR_TIMEOUT : string :=
  "Request timed out - server may be unresponsive".
Definition ERROR_EXECUTION_FAILED : string := "HTTP request execution failed".
Definition ERROR_NO_HTTP_FOUND : string := "No HTTP requests were found in this file.".

(** ** [src/modules/HttpRequestTypes.ts] *)

(** [{ [key: string]: string }]: the engine only carries headers along. *)
Definition HeaderMap : Type := list (string * string).

(** [Source?: 'inline' | 'csx'] *)
Inductive TestSource : Type := inline | csx.

Record HttpTestResult : Type := mkHttpTestResult {
  Test_Name : string;
  Passed : bool;
  Message : option string;
  Source : option TestSource
}.

Record RetryAttempt : Type := mkRetryAttempt {
  attemptNumber : Z;
  timestamp : string;
  success : bool;
  statusCode : option Z;
  statusText : option string;
  attempt_duration : string;
  reason : string
}.

Record RetryInfo : Type := mkRetryInfo {
  strategyName : option string;
  actualAttempts : Z;
  wasRetried : bool;
  attempts : list RetryAttempt
}.

Record InternalRequest : Type := mkInternalRequest {
  method : string;
  url : string;
  requestHeaders : HeaderMap;
  responseHeaders : HeaderMap;
  uniqueKey : option string;
  title : option string;
  name : option string;
  templateUrl : option string;
  requestBody : option string;
  responseStatus : option Z;
  responseStatusText : option string;
  responseBody : option string;
  duration : option string;
  ErrorMessage : option string;
  retryInfo : option RetryInfo
}.

Record CliParseResult : Type := mkCliParseResult {
  requests : list InternalRequest;
  connectionError : option string;
  foundHttpRequest : bool
}.

Record ResultRequest : Type := mkResultRequest {
  Req_Method : string;
  Req_Url : string;
  Req_TemplateUrl : option string;
  Req_Headers : HeaderMap;
  Req_Body : option string
}.

Record ResultResponse : Type := mkResultResponse {
  Resp_StatusCode : Z;
  Resp_StatusText : string;
  Resp_Headers : HeaderMap;
  Resp_Body : option string;
  Resp_Duration : string
}.

Record HttpRequestResult : Type := mkHttpRequestResult {
  Name : string;
  Status : string;
  Duration : string;
  Request : option ResultRequest;
  Response : option ResultResponse;
  Result_ErrorMessage : option string;
  Tests : option (list HttpTestResult);
  Result_RetryInfo : option RetryInfo
}.

Record HttpRequestGroup : Type := mkHttpRequestGroup {
  Group_Name : string;
  Group_FilePath : string;
  Group_Requests : list HttpRequestResult;
  Group_Status : string;
  Group_Duration : string
}.

(** [{ RequestGroups: { RequestGroup: HttpRequestGroup[] } }] *)
Record HttpRequestResults : Type := mkHttpRequestResults {
  RequestGroup : list HttpRequestGroup
}.

(** [{ name?, title?, method, url, hasTestDirectives?, testDirectiveCount? }]:
    what [HttpFileParser.parseHttpFileForNames] answers for one request of
    the [.http] file.  The count is a number of directives, hence a [nat]. *)
Record HttpFileRequest : Type := mkHttpFileRequest {
  file_name : option string;
  file_title : option string;
  file_method : string;
  file_url : string;
  hasTestDirectives : option bool;
  testDirectiveCount : option nat
}.

(** ** Results of code that may throw *)

Inductive outcome (A : Type) : Type :=
| Returned (a : A)
| Thrown (e : string).
Arguments Returned {A} a.
Arguments Thrown {A} e.

Definition bind {A B : Type} (m : outcome A) (k : A -> outcome B) : outcome B :=
  match m with
  | Returned a => k a
  | Thrown e => Thrown e
  end.

(** [try { m } catch (e) { h e }] *)
Definition try_catch {A : Type} (m : outcome A) (h : string -> outcome A) : outcome A :=
  match m with
  | Returned a => Returned a
  | Thrown e => h e
  end.

Declare Scope outcome_scope.
Delimit Scope outcome_scope with outcome.
Notation "x <- m ;; k" := (bind m (fun x => k))
  (at level 100, m at next level, right associativity) : outcome_scope.

(** ** [src/modules/StructuredJsonParser.ts] *)

Module StructuredJsonParser.

Record LogRequest : Type := mkLogRequest {
  Request_Name : string;
  Request_Method : string;
  Request_Uri : string;
  Request_Headers : option HeaderMap;
  Request_FilePath : string;
  Request_Body : option string
}.

Record LogResponse : Type := mkLogResponse {
  Response_StatusCode : option Z;
  Response_ReasonPhrase : option string;
  Response_Headers : option HeaderMap;
  Response_Body : option string
}.

Record LogMetadata : Type := mkLogMetadata {
  hasResiliencePipeline : option bool
}.

(** [interface StructuredLogEntry].  [Log_Request] and [Log_Response] are
    options because the parser checks them; [Errors] absent behaves as
    [Errors] empty, since [flatMap] then yields one [undefined] that the
    [filter] after it drops.  [DurationMs] is the field as [Math.round]
    takes it: [Js.NoNumber] when the entry has no such field. *)
Record StructuredLogEntry : Type := mkStructuredLogEntry {
  RequestId : string;
  StartTime : string;
  EndTime : string;
  DurationMs : Js.operand;
  Log_Request : option LogRequest;
  Log_Response : option LogResponse;
  Errors : list string;
  Metadata : option LogMetadata
}.

(** [interface LogEntry { Properties: { RequestLogFileEntry } }], both
    levels optional: the parser reads [Properties?.RequestLogFileEntry]. *)
Record LogProperties : Type := mkLogProperties {
  RequestLogFileEntry : option StructuredLogEntry
}.

Record LogEntry : Type := mkLogEntry {
  Properties : option LogProperties
}.

(** What [JSON.parse(line)] followed by the read of [.Properties] can do:
    [JSON.parse] throws, or it answers [null] and the property read
    throws, or it answers a value seen through [LogEntry]. *)
Inductive JsonParsed : Type :=
| JsonSyntaxError (e : string)
| JsonNull
| JsonValue (v : LogEntry).

(** The log file as [fs.access] and [fs.readFile] find it. *)
Inductive FileState : Type :=
| Missing
| Unreadable (e : string)
| Content (fileContent : string).

(** One value of [requestMap]. *)
Record Group : Type := mkGroup {
  firstEntry : StructuredLogEntry;
  allEntries : list StructuredLogEntry
}.

(** [Map<string, Group>], in insertion order. *)
Definition RequestMap : Type := list (string * Group).

Fixpoint Map_get (m : RequestMap) (k : string) : option Group :=
  match m with
  | [] => None
  | (k', g) :: m' => if String.eqb k' k then Some g else Map_get m' k
  end.

Definition Map_has (m : RequestMap) (k : string) : bool :=
  match Map_get m k with Some _ => true | None => false end.

(** [set] keeps the place of a key that is present and appends a new one. *)
Fixpoint Map_set (m : RequestMap) (k : string) (g : Group) : RequestMap :=
  match m with
  | [] => [(k, g)]
  | (k', g') :: m' =>
      if String.eqb k' k then (k', g) :: m' else (k', g') :: Map_set m' k g
  end.

(** [requestMap.get(k)!.allEntries.push(e)]: the group is changed in place. *)
Definition Map_push (m : RequestMap) (k : string) (e : StructuredLogEntry) : RequestMap :=
  match Map_get m k with
  | Some g => Map_set m k (mkGroup (firstEntry g) (allEntries g ++ [e])%list)
  | None => m
  end.

(** The [if (!requestMap.has(requestKey)) ... else ...] of the first loop. *)
Definition group_entry (m : RequestMap) (requestKey : string)
    (structuredLog : StructuredLogEntry) : RequestMap :=
  if negb (Map_has m requestKey)
  then Map_set m requestKey (mkGroup structuredLog [structuredLog])
  else Map_push m requestKey structuredLog.

Record PassState : Type := mkPassState {
  requestMap : RequestMap;
  found : bool
}.

(** [fileContent.trim().split('\n').filter(line => line.trim())] *)
Definition jsonl_lines (fileContent : string) : list string :=
  filter (fun line => Js.trim line ≠ "") (Js.split_lines (Js.trim fileContent)).

Definition statusCode_of (entry : StructuredLogEntry) : option Z :=
  r ← Log_Response entry; Response_StatusCode r.

Definition attempt_success (entry : StructuredLogEntry) : bool :=
  match statusCode_of entry with
  | Some c => if Js.truthy_num (Some c) then (200 <=? c) && (c <? 300) else false
  | None => false
  end.

(** [`${Math.round(entry.DurationMs)}ms`] *)
Definition duration_string (entry : StructuredLogEntry) : string :=
  Js.Number_toString (Js.Math_round (DurationMs entry)) ++ "ms".

(** The callback of [allEntries.map((entry, index) => ...)]. *)
Definition retryAttempt (index : nat) (entry : StructuredLogEntry) : RetryAttempt :=
  {| attemptNumber := Z.of_nat index + 1;
     timestamp := StartTime entry;
     success := attempt_success entry;
     statusCode := statusCode_of entry;
     statusText := r ← Log_Response entry; Response_ReasonPhrase r;
     attempt_duration := duration_string entry;
     reason := if (index =? 0)%nat then "Initial attempt" else "Retry" |}.

(** [allEntries.flatMap(entry => entry.Errors).filter(err => err)] *)
Definition group_errors (entries : list StructuredLogEntry) : list string :=
  filter (fun err => err ≠ "") (concat (map Errors entries)).

(** The object literal [request] of the second loop, with its
    [ErrorMessage] when the group has errors. *)
Definition internalRequest (g : Group) (firstRequest : LogRequest)
    (lastEntry : StructuredLogEntry) (errorMessage : option string) : InternalRequest :=
  let entriesCount := Z.of_nat (length (allEntries g)) in
  let retryAttempts := imap retryAttempt (allEntries g) in
  let requestName := Request_Name firstRequest in
  {| method := Request_Method firstRequest;
     url := Request_Uri firstRequest;
     requestHeaders := default [] (Request_Headers firstRequest);
     requestBody := Request_Body firstRequest;
     responseStatus := Some (Js.or_num (statusCode_of lastEntry) 0);
     responseStatusText :=
       Some (Js.or_string (r ← Log_Response lastEntry; Response_ReasonPhrase r)
               "No Response");
     responseHeaders := default [] (r ← Log_Response lastEntry; Response_Headers r);
     responseBody := r ← Log_Response lastEntry; Response_Body r;
     duration := Some (duration_string lastEntry);
     uniqueKey := Some (RequestId (firstEntry g));
     title := Some requestName;
     name := Some requestName;
     templateUrl := Some (Request_Uri firstRequest);
     ErrorMessage := errorMessage;
     retryInfo :=
       Some {| strategyName :=
                 match m ← Metadata (firstEntry g); hasResiliencePipeline m with
                 | Some true => Some "Resilience Pipeline"
                 | _ => None
                 end;
               actualAttempts := entriesCount;
               wasRetried := 1 <? entriesCount;
               attempts := retryAttempts |} |}.

Section WithJson.

Variable JSON_parse : string -> JsonParsed.

(** The body of the first loop; [Thrown] is caught by the [catch] of
    the same iteration, see [first_pass_step]. *)
Definition first_pass_body (st : PassState) (line : string) : outcome PassState :=
  (logEntry <- match JSON_parse line with
               | JsonSyntaxError e => Thrown e
               | JsonNull => Thrown "TypeError: Cannot read properties of null"
               | JsonValue v => Returned v
               end ;;
   match p ← Properties logEntry; RequestLogFileEntry p with
   | None => Returned st
   | Some structuredLog =>
       match Log_Request structuredLog, Log_Response structuredLog with
       | Some request, Some _ =>
           let requestKey := Request_Name request in
           Returned
             {| requestMap := group_entry (requestMap st) requestKey structuredLog;
                found := true |}
       | _, _ => Returned st
       end
   end)%outcome.

(** One iteration: [try { body } catch (parseError) { continue; }] *)
Definition first_pass_step (st : PassState) (line : string) : PassState :=
  match try_catch (first_pass_body st line) (fun _ => Returned st) with
  | Returned st' => st'
  | Thrown _ => st
  end.

Definition first_pass (lines : list string) : PassState :=
  fold_left first_pass_step lines (mkPassState [] false).

(** The body of the second loop, for one group of the map. *)
Definition second_pass_body (acc : list InternalRequest * option string) (g : Group)
  : outcome (list InternalRequest * option string) :=
  let '(requests, connectionError) := acc in
  (lastEntry <- match last (allEntries g) with
                | Some e => Returned e
                | None => Thrown "TypeError: Cannot read properties of undefined"
                end ;;
   firstRequest <- match Log_Request (firstEntry g) with
                   | Some r => Returned r
                   | None => Thrown "TypeError: Cannot read properties of undefined"
                   end ;;
   let request := internalRequest g firstRequest lastEntry in
   let errors := group_errors (allEntries g) in
   match errors with
   | first_error :: _ =>
       Returned
         ((requests ++ [request (Some (String.concat "; " errors))])%list,
          if negb (Js.truthy_string connectionError)
          then Some first_error else connectionError)
   | [] => Returned ((requests ++ [request None])%list, connectionError)
   end)%outcome.

Fixpoint second_pass (groups : list Group) (acc : list InternalRequest * option string)
  : outcome (list InternalRequest * option string) :=
  match groups with
  | [] => Returned acc
  | g :: groups' =>
      (acc' <- second_pass_body acc g ;; second_pass groups' acc')%outcome
  end.

(** Everything after the file was read and found to hold a line. *)
Definition processLines (lines : list string) : outcome CliParseResult :=
  let st := first_pass lines in
  (res <- second_pass (map snd (requestMap st)) ([], None) ;;
   Returned {| requests := fst res;
               connectionError := snd res;
               foundHttpRequest := found st |})%outcome.

(** [parseStructuredJsonRequests(requestsFilePath)], on the state of the
    file at that path.  The outer [catch] logs and throws again. *)
Definition parseStructuredJsonRequests (file : FileState) : outcome CliParseResult :=
  match file with
  | Missing =>
      Returned
        {| requests := [];
           connectionError :=
             Some "Structured requests file not found - TeaPie might not support --requests-log-file parameter";
           foundHttpRequest := false |}
  | Unreadable e => Thrown e
  | Content fileContent =>
      let lines := jsonl_lines fileContent in
      if (length lines =? 0)%nat
      then Returned {| requests := [];
                       connectionError := Some "Empty JSONL file";
                       foundHttpRequest := false |}
      else processLines lines
  end.

End WithJson.

End StructuredJsonParser.

(** ** [src/modules/XmlTestParser.ts] *)

Module XmlTestParser.

(** The key of the global bucket. *)
Definition CUSTOM_CSX_TESTS : string := "_CUSTOM_CSX_TESTS".

(** [l.slice(start, end)] for indices that are not negative. *)
Definition slice {A : Type} (l : list A) (start end_ : nat) : list A :=
  take (end_ - start) (drop start l).

(** [req.name || req.title || `${req.method} ${req.url}`] *)
Definition requestName_of (req : HttpFileRequest) : string :=
  Js.or_string (file_name req)
    (Js.or_string (file_title req) (file_method req ++ " " ++ file_url req)).

(** [req.testDirectiveCount || 0] *)
Definition count_of (req : HttpFileRequest) : nat :=
  default 0%nat (testDirectiveCount req).

(** [httpFileRequests.reduce((sum, req) => sum + (req.testDirectiveCount || 0), 0)] *)
Definition totalInlineTests (httpFileRequests : list HttpFileRequest) : nat :=
  fold_left (fun sum req => (sum + count_of req)%nat) httpFileRequests 0%nat.

(** [test => test.Source = 'csx'] *)
Definition mark_csx (t : HttpTestResult) : HttpTestResult :=
  {| Test_Name := Test_Name t; Passed := Passed t;
     Message := Message t; Source := Some csx |}.

(** The loop that hands the inline tests to the requests, in file order. *)
Fixpoint distribute (httpFileRequests : list HttpFileRequest)
    (inlineTests : list HttpTestResult) (testIndex : nat)
    (allTestsByRequest : gmap string (list HttpTestResult))
  : gmap string (list HttpTestResult) :=
  match httpFileRequests with
  | [] => allTestsByRequest
  | req :: rest =>
      match testDirectiveCount req with
      | Some (S _ as count) =>
          let requestName := requestName_of req in
          let requestTests := slice inlineTests testIndex (testIndex + count) in
          distribute rest inlineTests (testIndex + count)
            (if (0 <? length requestTests)%nat
             then <[requestName := requestTests]> allTestsByRequest
             else allTestsByRequest)
      | _ => distribute rest inlineTests testIndex allTestsByRequest
      end
  end.

(** [allTestsByRequest.set(KEY, [...(allTestsByRequest.get(KEY) || []), ...tests])] *)
Definition append_custom (tests : list HttpTestResult)
    (allTestsByRequest : gmap string (list HttpTestResult))
  : gmap string (list HttpTestResult) :=
  <[CUSTOM_CSX_TESTS :=
      (default [] (allTestsByRequest !! CUSTOM_CSX_TESTS) ++ tests)%list]> allTestsByRequest.

(** The two maps of [parseTestResultsFromXml]. *)
Record Maps : Type := mkMaps {
  allTestsByRequest : gmap string (list HttpTestResult);
  testResults : gmap string (list HttpTestResult)
}.

(** What is done with the test cases [allTests] of one suite.

    [csxTests.forEach(test => test.Source = 'csx')] writes into objects
    that [allTests] shares with [csxTests].  These objects were created
    for this suite, the write comes before any of them is stored, and
    the slices handed to requests hold other objects; so the only arrays
    that see the write are the global bucket and [allTests] itself, which
    is stored under the suite name afterwards. *)
Definition attribute_suite (httpFileRequests : list HttpFileRequest)
    (suiteName : string) (allTests : list HttpTestResult) (m : Maps) : Maps :=
  if (0 <? length allTests)%nat then
    if Js.includes suiteName "Custom CSX Tests" then
      {| allTestsByRequest := append_custom allTests (allTestsByRequest m);
         testResults := testResults m |}
    else
      if existsb (fun req => bool_decide (hasTestDirectives req = Some true)) httpFileRequests then
        let total := totalInlineTests httpFileRequests in
        let inlineTests := slice allTests 0 total in
        let csxTests := slice allTests total (length allTests) in
        let distributed := distribute httpFileRequests inlineTests 0 (allTestsByRequest m) in
        if (0 <? length csxTests)%nat then
          {| allTestsByRequest := append_custom (map mark_csx csxTests) distributed;
             testResults :=
               <[suiteName := (inlineTests ++ map mark_csx csxTests)%list]> (testResults m) |}
        else
          {| allTestsByRequest := distributed;
             testResults := <[suiteName := allTests]> (testResults m) |}
      else
        {| allTestsByRequest := append_custom allTests (allTestsByRequest m);
           testResults := <[suiteName := allTests]> (testResults m) |}
  else m.

Section WithRegExp.

(** The matches of [testSuiteRegex] in the report: name and content. *)
Variable testSuiteRegex_matches : string -> list (string * string).
(** The matches of [testCaseRegex] in a suite: name and content. *)
Variable testCaseRegex_matches : string -> list (string * option string).
(** [failureRegex.exec(testContent)]: the [message] attribute. *)
Variable failureRegex_exec : string -> option string.
(** [decodeXmlEntities]; no property below depends on what it answers. *)
Variable decodeXmlEntities : string -> string.
(** [HttpFileParser.parseHttpFileForNames(filePath)] *)
Variable httpFileRequests : list HttpFileRequest.

(** The body of the inner loop: one test case, tagged [inline]. *)
Definition testResult_of (testCaseMatch : string * option string) : HttpTestResult :=
  let testName := decodeXmlEntities (fst testCaseMatch) in
  let testContent := Js.or_string (snd testCaseMatch) "" in
  match failureRegex_exec testContent with
  | Some message =>
      {| Test_Name := testName; Passed := false;
         Message := Some (decodeXmlEntities message); Source := Some inline |}
  | None =>
      {| Test_Name := testName; Passed := true;
         Message := None; Source := Some inline |}
  end.

Definition suite_step (m : Maps) (testSuiteMatch : string * string) : Maps :=
  let suiteName := decodeXmlEntities (fst testSuiteMatch) in
  let allTests := map testResult_of (testCaseRegex_matches (snd testSuiteMatch)) in
  attribute_suite httpFileRequests suiteName allTests m.

(** [parseTestResultsFromXml], on the content of the report that was
    selected; [None] when no report could be found or read.  The last
    loop sets every key of [allTestsByRequest] in [testResults]. *)
Definition parseTestResultsFromXml (report : option string)
  : gmap string (list HttpTestResult) :=
  match report with
  | None => ∅
  | Some xmlContent =>
      let m := fold_left suite_step (testSuiteRegex_matches xmlContent) (mkMaps ∅ ∅) in
      allTestsByRequest m ∪ testResults m
  end.

End WithRegExp.

(** *** [waitForXmlReportUpdate] *)

(** The clock and the output channel. *)
Record World : Type := mkWorld {
  now : Z;
  channel : list string
}.

(** A computation that reads and moves the clock and may throw. *)
Definition M (A : Type) : Type := World -> outcome A * World.

Definition ret {A : Type} (a : A) : M A := fun w => (Returned a, w).

Definition mbind {A B : Type} (m : M A) (k : A -> M B) : M B :=
  fun w => match m w with
           | (Returned a, w') => k a w'
           | (Thrown e, w') => (Thrown e, w')
           end.

Definition mcatch {A : Type} (m : M A) (h : string -> M A) : M A :=
  fun w => match m w with
           | (Returned a, w') => (Returned a, w')
           | (Thrown e, w') => h e w'
           end.

Notation "'let*' x ':=' m 'in' k" := (mbind m (fun x => k))
  (at level 10, x name, m at level 100, k at level 200).

Definition Date_now : M Z := fun w => (Returned (now w), w).

Definition appendLine (line : string) : M unit :=
  fun w => (Returned tt, mkWorld (now w) (channel w ++ [line])%list).

Definition wait_warning (maxWaitTime : Z) : string :=
  "Warning: XML report file was not updated within " ++ Js.string_of_number maxWaitTime
  ++ "ms. This might indicate an issue with TeaPie test execution.".

Section WithFileSystem.

(** [fs.stat(reportPath)] asked at a time: the modification time of the
    file, or the error thrown when the file is not there. *)
Variable stat_mtime : Z -> outcome Z.
(** The time at which the answer of [fs.stat] asked at a time arrives. *)
Variable stat_done : Z -> Z.
(** The time at which a timer set at a time for a delay fires. *)
Variable timer_done : Z -> Z -> Z.

Definition fs_stat : M Z :=
  fun w => (stat_mtime (now w), mkWorld (stat_done (now w)) (channel w)).

(** [await new Promise(resolve => setTimeout(resolve, ms))] *)
Definition sleep (ms : Z) : M unit :=
  fun w => (Returned tt, mkWorld (timer_done (now w) ms) (channel w)).

(** The [try] block of one iteration; [true] stands for its [return]. *)
Definition poll_once (beforeTimestamp : Z) : M bool :=
  mcatch
    (let* currentTimestamp := fs_stat in
     if beforeTimestamp <? currentTimestamp
     then (let* _ := sleep 50 in ret true)
     else ret false)
    (fun _ => ret false).

(** The [while] loop and the warning after it.  [None] when [fuel]
    iterations were not enough. *)
Fixpoint wait_loop (fuel : nat) (beforeTimestamp maxWaitTime startTime : Z)
  : M (option unit) :=
  match fuel with
  | O => ret None
  | S fuel' =>
      let* t := Date_now in
      if t - startTime <? maxWaitTime then
        let* updated := poll_once beforeTimestamp in
        if (updated : bool) then ret (Some tt)
        else (let* _ := sleep 100 in
              wait_loop fuel' beforeTimestamp maxWaitTime startTime)
      else
        (let* _ := appendLine (wait_warning maxWaitTime) in ret (Some tt))
  end.

Definition waitForXmlReportUpdate (fuel : nat) (beforeTimestamp maxWaitMs : Z)
  : M (option unit) :=
  let maxWaitTime := maxWaitMs in
  let* startTime := Date_now in
  wait_loop fuel beforeTimestamp maxWaitTime startTime.

End WithFileSystem.

End XmlTestParser.

(** ** [src/modules/TeaPieExecutor.ts] *)

Module TeaPieExecutor.

(** [mapConnectionError] *)
Definition mapConnectionError (errorMessage : string) : string :=
  if Js.includes errorMessage "Reason:" && Js.includes errorMessage "Details:"
  then errorMessage
  else if Js.includes errorMessage "ECONNREFUSED"
          || Js.includes errorMessage "connection refused"
          || Js.includes errorMessage "actively refused"
  then ERROR_CONNECTION_REFUSED ++ "

Detailed error: " ++ errorMessage
  else if Js.includes errorMessage "ENOTFOUND" || Js.includes errorMessage "getaddrinfo"
  then ERROR_HOST_NOT_FOUND ++ "

Detailed error: " ++ errorMessage
  else if Js.includes errorMessage "timeout"
  then ERROR_TIMEOUT ++ "

Detailed error: " ++ errorMessage
  else ERROR_EXECUTION_FAILED ++ "

Detailed error: " ++ errorMessage.

(** [t.Source === 'inline' || !t.Source] *)
Definition is_inline (t : HttpTestResult) : bool :=
  match Source t with
  | Some inline => true
  | Some csx => false
  | None => true
  end.

(** The status of one request, from its final HTTP status and its tests. *)
Definition request_status (responseStatus : option Z)
    (requestTestResults : list HttpTestResult) : string :=
  let httpSuccess :=
    Js.truthy_num responseStatus &&
    match responseStatus with
    | Some c => (200 <=? c) && (c <? 300)
    | None => false
    end in
  let inlineTests := filter (fun t => is_inline t = true) requestTestResults in
  let hasFailedInlineTests :=
    (0 <? length inlineTests)%nat && existsb (fun t => negb (Passed t)) inlineTests in
  if negb httpSuccess then STATUS_FAILED
  else if hasFailedInlineTests then STATUS_TESTS_FAILED
  else STATUS_PASSED.

(** The callback of [structuredResult.requests.map((request, index) => ...)]. *)
Definition build_request (testResultsFromXml : gmap string (list HttpTestResult))
    (index : nat) (request : InternalRequest) : HttpRequestResult :=
  let requestName :=
    Js.or_string (name request)
      ("Request " ++ Js.string_of_number (Z.of_nat index + 1)) in
  let requestTestResults := default [] (testResultsFromXml !! requestName) in
  let status := request_status (responseStatus request) requestTestResults in
  {| Name := requestName;
     Status := status;
     Duration := Js.or_string (duration request) "0ms";
     Request :=
       Some {| Req_Method := method request;
               Req_Url := url request;
               Req_TemplateUrl :=
                 if Js.truthy_string (templateUrl request) then templateUrl request else None;
               Req_Headers := requestHeaders request;
               Req_Body := requestBody request |};
     Response :=
       Some {| Resp_StatusCode := Js.or_num (responseStatus request) 0;
               Resp_StatusText := Js.or_string (responseStatusText request) "No Response";
               Resp_Headers := responseHeaders request;
               Resp_Body := responseBody request;
               Resp_Duration := Js.or_string (duration request) "0ms" |};
     Tests := if (0 <? length requestTestResults)%nat then Some requestTestResults else None;
     Result_RetryInfo := retryInfo request;
     Result_ErrorMessage := ErrorMessage request |}.

(** The pseudo-request of the global bucket, when the bucket holds tests. *)
Definition custom_request (testResultsFromXml : gmap string (list HttpTestResult))
  : list HttpRequestResult :=
  match testResultsFromXml !! XmlTestParser.CUSTOM_CSX_TESTS with
  | Some customCsxTests =>
      if (0 <? length customCsxTests)%nat then
        let allCustomTestsPassed := forallb Passed customCsxTests in
        [ {| Name := "Custom CSX Tests";
             Status := if allCustomTestsPassed then "PASSED" else "FAILED";
             Duration := "0ms";
             Request := None;
             Response := None;
             Result_ErrorMessage := None;
             Tests := Some customCsxTests;
             Result_RetryInfo := None |} ]
      else []
  | None => []
  end.

(** [requests.some(r => r.Status === 'FAILED') ? 'FAILED' : 'PASSED'] *)
Definition group_status (requests : list HttpRequestResult) : string :=
  if existsb (fun r => String.eqb (Status r) "FAILED") requests
  then "FAILED" else "PASSED".

(** [requests.reduce((total, r) => total + (parseInt(...) || 0), 0) + 'ms'] *)
Definition group_duration (requests : list HttpRequestResult) : string :=
  Js.Number_toString
    (fold_left
       (fun total r =>
          let ms :=
            Js.or_number (Js.parseInt_number (Js.replace (Duration r) "ms" "")) (Js.Int 0) in
          Js.add total ms)
       requests (Js.Int 0))
  ++ "ms".

Section WithPlatform.

(** [path.basename(filePath, path.extname(filePath))] *)
Variable basename_noext : string -> string.
Variable JSON_parse : string -> StructuredJsonParser.JsonParsed.

Definition createFailedResult (filePath errorMessage : string) : HttpRequestResults :=
  let fileName := basename_noext filePath in
  {| RequestGroup :=
       [ {| Group_Name := fileName;
            Group_FilePath := filePath;
            Group_Requests :=
              [ {| Name := "HTTP request execution failed";
                   Status := STATUS_FAILED;
                   Duration := "0ms";
                   Request := None;
                   Response := None;
                   Result_ErrorMessage := Some errorMessage;
                   Tests := None;
                   Result_RetryInfo := None |} ];
            Group_Status := STATUS_FAILED;
            Group_Duration := "0s" |} ] |}.

Definition buildHttpRequestResults (fileName filePath : string)
    (structuredResult : CliParseResult)
    (testResultsFromXml : gmap string (list HttpTestResult)) : HttpRequestResults :=
  if Js.truthy_string (connectionError structuredResult) then
    createFailedResult filePath (default "" (connectionError structuredResult))
  else
    let requests :=
      (imap (build_request testResultsFromXml) (requests structuredResult)
       ++ custom_request testResultsFromXml)%list in
    {| RequestGroup :=
         [ {| Group_Name := fileName;
              Group_FilePath := filePath;
              Group_Status := group_status requests;
              Group_Duration := group_duration requests;
              Group_Requests := requests |} ] |}.

(** [parseOutput], given the attributed tests of the report and the
    state of the log file. *)
Definition parseOutput (filePath : string)
    (testResultsFromXml : gmap string (list HttpTestResult))
    (structuredRequestsFile : StructuredJsonParser.FileState) : HttpRequestResults :=
  let fileName := basename_noext filePath in
  match StructuredJsonParser.parseStructuredJsonRequests JSON_parse structuredRequestsFile with
  | Returned structuredParseResult =>
      if (length (requests structuredParseResult) =? 0)%nat
         && negb (foundHttpRequest structuredParseResult)
      then createFailedResult filePath "No HTTP requests found in structured JSON files"
      else buildHttpRequestResults fileName filePath structuredParseResult testResultsFromXml
  | Thrown structuredError =>
      createFailedResult filePath
        ("Failed to parse structured JSON requests: " ++ structuredError)
  end.

(** The end of [executeTeaPie], after the runner has exited and the
    report was waited for: the result of [parseOutput], unless its group
    holds no request. *)
Definition executeTeaPie_result (filePath : string)
    (testResultsFromXml : gmap string (list HttpTestResult))
    (structuredRequestsFile : StructuredJsonParser.FileState) : HttpRequestResults :=
  let result := parseOutput filePath testResultsFromXml structuredRequestsFile in
  match RequestGroup result with
  | g :: _ =>
      if (length (Group_Requests g) =? 0)%nat
      then createFailedResult filePath ERROR_NO_HTTP_FOUND
      else result
  | [] => createFailedResult filePath ERROR_NO_HTTP_FOUND
  end.

End WithPlatform.

End TeaPieExecutor.

(** ** [src/modules/TeaPieExecutor.ts]: a run of the command that fails *)

Module ExecutionFailure.

(** [{ stdout?, stderr?, message?, code? }], the error of [execAsync]. *)
Record ExecError : Type := mkExecError {
  stdout : option string;
  stderr : option string;
  message : option string;
  code : option Z
}.

Section WithRegExp.

(** The first capture group of [output.match(/Reason:\s*(.+)/)], of
    [/Details:\s*(.+)/], of the pattern for a refused connection, of the
    pattern for an unknown host and of the pattern for an exception. *)
Variable match_Reason : string -> option string.
Variable match_Details : string -> option string.
Variable match_refused : string -> option string.
Variable match_host : string -> option string.
Variable match_exception : string -> option string.

(** [extractTeaPieError] *)
Definition extractTeaPieError (stdout stderr : string) : string :=
  let output := stdout ++ "
" ++ stderr in
  match match_Reason output, match_Details output with
  | Some reason, Some details =>
      "Reason: " ++ Js.trim reason ++ "
Details: " ++ Js.trim details
  | _, _ =>
      match match_refused output with
      | Some endpoint =>
          "Reason: Application Error
Details: No connection could be made because the target machine actively refused it. ("
          ++ endpoint ++ ")"
      | None =>
          match match_host output with
          | Some host =>
              "Reason: Application Error
Details: No such host is known. (" ++ host ++ ")"
          | None =>
              match match_exception output with
              | Some exception =>
                  "Reason: Application Error
Details: " ++ Js.trim exception
              | None => ""
              end
          end
      end
  end.

(** The [catch] block around [execAsync(command, ...)] in [executeTeaPie]:
    it returns when the run only had failing tests and throws otherwise.
    [error_text] is [String(error)]. *)
Definition onExecError (execError : ExecError) (error_text : string) : outcome unit :=
  let exitCode := Js.or_num (code execError) 0 in
  if (exitCode =? 2) && Js.truthy_string (stdout execError) then Returned tt
  else
    let extracted :=
      extractTeaPieError (Js.or_string (stdout execError) "")
        (Js.or_string (stderr execError) "") in
    let meaningfulError :=
      if String.eqb extracted "" then Js.or_string (message execError) error_text
      else extracted in
    Thrown (TeaPieExecutor.mapConnectionError meaningfulError).

End WithRegExp.

End ExecutionFailure.

(** ** [src/modules/XmlTestParser.ts]: the choice of the report file *)

Module ReportSelection.

Definition is_digit (c : ascii) : bool :=
  let n := nat_of_ascii c in (48 <=? n)%nat && (n <=? 57)%nat.

(** The longest prefix of digits, and what follows it. *)
Fixpoint take_digits (s : string) : string * string :=
  match s with
  | String c s' =>
      if is_digit c
      then let '(digits, rest) := take_digits s' in (String c digits, rest)
      else (EmptyString, s)
  | EmptyString => (EmptyString, EmptyString)
  end.

(** [/run-(\d+)-report\.xml/] tried at the start of [s]: the digits. *)
Definition match_run_at (s : string) : option string :=
  if String.prefix "run-" s
  then let '(digits, rest) := take_digits (String.substring 4 (String.length s) s) in
       if negb (String.eqb digits "") && String.prefix "-report.xml" rest
       then Some digits else None
  else None.

(** [f.match(/run-(\d+)-report\.xml/)?.[1]]: the first place where the
    pattern matches decides. *)
Fixpoint run_report_match (f : string) : option string :=
  match match_run_at f with
  | Some digits => Some digits
  | None =>
      match f with
      | EmptyString => None
      | String _ f' => run_report_match f'
      end
  end.

(** [parseInt(f.match(/run-(\d+)-report\.xml/)?.[1] || '0')]; the argument
    of [parseInt] is a string of digits, so the result is a number. *)
Definition timestamp_of (f : string) : Z :=
  default 0 (Js.parseInt (Js.or_string (run_report_match f) "0")).

(** [f.endsWith(suffix)] *)
Definition ends_with (f suffix : string) : bool :=
  (String.length suffix <=? String.length f)%nat &&
  String.eqb
    (String.substring (String.length f - String.length suffix) (String.length suffix) f)
    suffix.

(** [f.startsWith('run-') && f.endsWith('-report.xml')] *)
Definition is_report_file (f : string) : bool :=
  String.prefix "run-" f && ends_with f "-report.xml".

(** [reportFiles.sort((a, b) => timestampB - timestampA)]: the sort of an
    array is stable, so it is the insertion of each file before the first
    one that is not newer. *)
Fixpoint insert_report (f : string) (sorted : list string) : list string :=
  match sorted with
  | [] => [f]
  | g :: rest =>
      if timestamp_of f <? timestamp_of g
      then g :: insert_report f rest
      else f :: g :: rest
  end.

Definition sort_reports (reportFiles : list string) : list string :=
  foldr insert_report [] reportFiles.

(** [`run-${timestamp}-report.xml`], the name that [executeTeaPie] gives
    to the report of a run. *)
Definition report_name (timestamp : Z) : string :=
  "run-" ++ Js.string_of_number timestamp ++ "-report.xml".

(** The reports directory as the parser finds it. *)
Record ReportsDirectory : Type := mkReportsDirectory {
  last_run_accessible : bool;
  readdir : outcome (list string);
  readFile : string -> outcome string
}.

(** The [reportPath] that [parseTestResultsFromXml] reads, when it gets
    to read one. *)
Definition reportPath (fs : ReportsDirectory) (workspacePath : string) : option string :=
  let reportsDir := workspacePath ++ "/.teapie/reports" in
  if last_run_accessible fs then Some (reportsDir ++ "/last-run-report.xml")
  else
    match readdir fs with
    | Returned files =>
        let reportFiles := filter (fun f => is_report_file f = true) files in
        if (length reportFiles =? 0)%nat then None
        else match sort_reports reportFiles with
             | first :: _ => Some (reportsDir ++ "/" ++ first)
             | [] => None
             end
    | Thrown _ => None
    end.

(** The content of the report; a failure of [fs.readFile] is caught by
    the outer [catch], which returns the map that is still empty. *)
Definition xmlContent (fs : ReportsDirectory) (workspacePath : string) : option string :=
  path ← reportPath fs workspacePath;
  match readFile fs path with
  | Returned content => Some content
  | Thrown _ => None
  end.

End ReportSelection.

(** ** [src/HttpRequestRunner.ts] *)

Module HttpRequestRunner.

(** The callback of the [replace] in [escapeHtml]: what stands for one
    of the six characters that the pattern names, and for any other. *)
Definition escape_char (c : ascii) : string :=
  if Ascii.eqb c "&" then "&amp;"
  else if Ascii.eqb c "<" then "&lt;"
  else if Ascii.eqb c ">" then "&gt;"
  else if Ascii.eqb c "'" then "&#39;"
  else if Ascii.eqb c "034" then "&quot;"
  else if Ascii.eqb c "`" then "&#96;"
  else String c EmptyString.

Fixpoint escape_chars (s : string) : string :=
  match s with
  | EmptyString => EmptyString
  | String c s' => escape_char c ++ escape_chars s'
  end.

(** [escapeHtml] *)
Definition escapeHtml (str : option string) : string :=
  if negb (Js.truthy_string str) then ""
  else escape_chars (default "" str).

(** In [getResultsContent], the test that sends a request to the block of
    the other tests, and the status text shown in the head of that block. *)
Definition is_custom_block (request : HttpRequestResult) : bool :=
  Js.includes (Name request) "Custom CSX Tests".

Definition custom_block_statusText (request : HttpRequestResult) : string :=
  if String.eqb (Status request) "Passed" then "Success" else "Fail".

End HttpRequestRunner.

(** * Notions of the specification *)

(** The final HTTP status lies in [[200, 300)]. *)
Definition http_success (status : option Z) : Prop :=
  exists c, status = Some c /\ 200 <= c /\ c < 300.

(** A test that counts as an inline test of its request: tagged [inline],
    or not tagged at all.  The report parser tags every test. *)
Definition inline_tagged (t : HttpTestResult) : Prop := Source t <> Some csx.

(** The tests the aggregator looks up for the request at [index]. *)
Definition attributed_tests (testResultsFromXml : gmap string (list HttpTestResult))
    (index : nat) (request : InternalRequest) : list HttpTestResult :=
  default []
    (testResultsFromXml !! Name (TeaPieExecutor.build_request testResultsFromXml index request)).

(** [logEntry.Properties?.RequestLogFileEntry] *)
Definition structured_entry_of (v : StructuredJsonParser.LogEntry)
  : option StructuredJsonParser.StructuredLogEntry :=
  p ← StructuredJsonParser.Properties v; StructuredJsonParser.RequestLogFileEntry p.

(** The entry a line contributes, when it contributes one: the line parses,
    holds the nested structured entry, and the entry has both a request
    and a response object. *)
Definition valid_entry (JSON_parse : string -> StructuredJsonParser.JsonParsed)
    (line : string) : option StructuredJsonParser.StructuredLogEntry :=
  match JSON_parse line with
  | StructuredJsonParser.JsonValue v =>
      match structured_entry_of v with
      | Some e =>
          match StructuredJsonParser.Log_Request e, StructuredJsonParser.Log_Response e with
          | Some _, Some _ => Some e
          | _, _ => None
          end
      | None => None
      end
  | _ => None
  end.

Definition valid_entries (JSON_parse : string -> StructuredJsonParser.JsonParsed)
    (lines : list string) : list StructuredJsonParser.StructuredLogEntry :=
  omap (valid_entry JSON_parse) lines.

(** The declared name of the request of an entry. *)
Definition entry_name (e : StructuredJsonParser.StructuredLogEntry) : option string :=
  StructuredJsonParser.Request_Name <$> StructuredJsonParser.Log_Request e.

(** The retry chain of a name: the entries that carry it, in log order. *)
Definition chain (k : string) (es : list StructuredJsonParser.StructuredLogEntry)
  : list StructuredJsonParser.StructuredLogEntry :=
  filter (fun e => entry_name e = Some k) es.

(** The three ways in which a line is malformed. *)
Definition fails_to_parse (JSON_parse : string -> StructuredJsonParser.JsonParsed)
    (line : string) : Prop :=
  exists e, JSON_parse line = StructuredJsonParser.JsonSyntaxError e.

Definition lacks_structured_entry (JSON_parse : string -> StructuredJsonParser.JsonParsed)
    (line : string) : Prop :=
  JSON_parse line = StructuredJsonParser.JsonNull \/
  exists v, JSON_parse line = StructuredJsonParser.JsonValue v /\
            structured_entry_of v = None.

Definition incomplete_attempt (JSON_parse : string -> StructuredJsonParser.JsonParsed)
    (line : string) : Prop :=
  exists v e, JSON_parse line = StructuredJsonParser.JsonValue v /\
              structured_entry_of v = Some e /\
              (StructuredJsonParser.Log_Request e = None \/
               StructuredJsonParser.Log_Response e = None).

(** The state of [requestMap] once the entries [es] were grouped: the keys
    are distinct, and a name is bound to its chain and to the head of it. *)
Definition grouped (m : StructuredJsonParser.RequestMap)
    (es : list StructuredJsonParser.StructuredLogEntry) : Prop :=
  NoDup m.*1 /\
  forall k, StructuredJsonParser.Map_get m k =
            match chain k es with
            | [] => None
            | e :: c => Some (StructuredJsonParser.mkGroup e (e :: c))
            end.

(** [errors.join('; ')] of a group, when it has errors. *)
Definition errorMessage_of (entries : list StructuredJsonParser.StructuredLogEntry)
  : option string :=
  match StructuredJsonParser.group_errors entries with
  | [] => None
  | errors => Some (String.concat "; " errors)
  end.

(** The request the second loop emits for a group. *)
Definition emitted (g : StructuredJsonParser.Group) (request : InternalRequest) : Prop :=
  exists firstRequest lastEntry,
    StructuredJsonParser.Log_Request (StructuredJsonParser.firstEntry g) = Some firstRequest /\
    last (StructuredJsonParser.allEntries g) = Some lastEntry /\
    request = StructuredJsonParser.internalRequest g firstRequest lastEntry
                (errorMessage_of (StructuredJsonParser.allEntries g)).

(** The non-empty error strings of the groups, in the order in which the
    second loop meets them: group after group in insertion order, and the
    entries of a group in log order. *)
Definition errors_in_order (groups : list StructuredJsonParser.Group) : list string :=
  concat (map (fun g => StructuredJsonParser.group_errors (StructuredJsonParser.allEntries g))
            groups).

(** [connectionError] after the second loop met the errors [errors], when
    it was [ce] before: the first error met, unless one was set already. *)
Definition connection_error_from (ce : option string) (errors : list string) : option string :=
  if Js.truthy_string ce then ce
  else match errors with
       | e :: _ => Some e
       | [] => ce
       end.

(** The single-request failed result that carries [message]. *)
Definition single_failed_result (result : HttpRequestResults) (message : string) : Prop :=
  exists g q,
    RequestGroup result = [g] /\ Group_Status g = STATUS_FAILED /\
    Group_Requests g = [q] /\ Status q = STATUS_FAILED /\
    Result_ErrorMessage q = Some message /\
    Request q = None /\ Response q = None /\ Tests q = None.



(** ** Further notions *)

(** ** Further notions: ingestion *)

(** The names of the entries [es], each once, in the order in which they
    first appear. *)
Definition first_names (es : list StructuredJsonParser.StructuredLogEntry) : list string :=
  fold_left
    (fun seen e =>
       match entry_name e with
       | Some k => if bool_decide (k ∈ seen) then seen else (seen ++ [k])%list
       | None => seen
       end)
    es [].

(** [actualAttempts] of a request, [0] for a request without [retryInfo]. *)
Definition attempt_count (q : InternalRequest) : Z :=
  from_option actualAttempts 0 (retryInfo q).

(** An entry without an error string that is not empty. *)
Definition error_free (e : StructuredJsonParser.StructuredLogEntry) : Prop :=
  forall err, err ∈ StructuredJsonParser.Errors e -> err = "".

(** The error strings of the entries [es] that are not empty, in the
    order of the entries. *)
Definition entry_errors (es : list StructuredJsonParser.StructuredLogEntry) : list string :=
  filter (fun err => err <> "") (concat (map StructuredJsonParser.Errors es)).

(** The same error strings, request after request in the order in which
    the names first appear, and attempt after attempt for each request. *)
Definition errors_by_request (es : list StructuredJsonParser.StructuredLogEntry)
  : list string :=
  concat (map (fun k => entry_errors (chain k es)) (first_names es)).

(** [n] is the integer nearest to [q], the upper one of two that are as
    near. *)
Definition rounds_to (q : Q) (n : Z) : Prop :=
  (inject_Z n - (1 # 2) <= q)%Q /\ (q < inject_Z n + (1 # 2))%Q.

(** The integer that [q] rounds to. *)
Definition rounded (q : Q) : Z := Qfloor (q + (1 # 2))%Q.

(** The decimal numeral of an integer. *)
Definition numeral (n : Z) : string := NilZero.string_of_int (Z.to_int n).

(** An entry whose [DurationMs] is a finite number. *)
Definition timed (e : StructuredJsonParser.StructuredLogEntry) : Prop :=
  exists q, StructuredJsonParser.DurationMs e = Js.Finite q.

(** The rounded duration of an entry, [0] when it is not [timed]. *)
Definition rounded_duration (e : StructuredJsonParser.StructuredLogEntry) : Z :=
  match StructuredJsonParser.DurationMs e with
  | Js.Finite q => rounded q
  | _ => 0
  end.

(** The rounded duration of the last attempt of the chain of [k]. *)
Definition final_duration (es : list StructuredJsonParser.StructuredLogEntry) (k : string) : Z :=
  from_option rounded_duration 0 (last (chain k es)).

(** ** Further notions: the lines of a log *)

(** Every character of [s] satisfies [P]. *)
Fixpoint all_chars (P : ascii -> Prop) (s : string) : Prop :=
  match s with
  | EmptyString => True
  | String c s' => P c /\ all_chars P s'
  end.

(** A line as a writer of JSON lines produces it: not empty, without a
    line feed, and with no white space at either end. *)
Definition written_line (l : string) : Prop :=
  l <> "" /\ Js.trim l = l /\ all_chars (fun c => c <> "010"%char) l.

(** The characters of a printed natural number are digits. *)
Inductive digit_string : string -> Prop :=
| digit_string_nil : digit_string EmptyString
| digit_string_cons c s :
    (48 <= nat_of_ascii c <= 57)%nat -> digit_string s -> digit_string (String c s).

(** A character that opens or closes markup, or the value of an attribute. *)
Definition opens_markup (c : ascii) : Prop :=
  c = "<"%char \/ c = ">"%char \/ c = "'"%char \/ c = "034"%char \/ c = "`"%char.

Definition markup_free (s : string) : Prop :=
  all_chars (fun c => ~ opens_markup c) s.

(** What the test cases [allTests] of a suite add to the global bucket. *)
Definition bucket_share (httpFileRequests : list HttpFileRequest)
    (suiteName : string) (allTests : list HttpTestResult) : list HttpTestResult :=
  if Js.includes suiteName "Custom CSX Tests" then allTests
  else if existsb (fun req => bool_decide (hasTestDirectives req = Some true)) httpFileRequests
  then XmlTestParser.mark_csx <$> drop (XmlTestParser.totalInlineTests httpFileRequests) allTests
  else allTests.

(** The bucket as a list: nothing when the key is not set. *)
Definition bucket_of (m : gmap string (list HttpTestResult)) : list HttpTestResult :=
  default [] (m !! XmlTestParser.CUSTOM_CSX_TESTS).

(** ** Sample inputs *)

Module Samples.

Import StructuredJsonParser.

Definition entry (label : string) (status : Z) (errors : list string) : StructuredLogEntry :=
  {| RequestId := "id-" ++ label;
     StartTime := "2025-01-01T10:00:00Z";
     EndTime := "2025-01-01T10:00:01Z";
     DurationMs := Js.Finite (25 # 2);
     Log_Request :=
       Some {| Request_Name := label; Request_Method := "GET";
               Request_Uri := "http://localhost:5000/" ++ label;
               Request_Headers := None; Request_FilePath := "demo.http";
               Request_Body := None |};
     Log_Response :=
       Some {| Response_StatusCode := Some status;
               Response_ReasonPhrase := Some "reason";
               Response_Headers := None; Response_Body := Some "{}" |};
     Errors := errors;
     Metadata := None |}.

Definition wrap (e : StructuredLogEntry) : JsonParsed :=
  JsonValue (mkLogEntry (Some (mkLogProperties (Some e)))).

Definition refused : string := "connect ECONNREFUSED 127.0.0.1:5000".

(** A stand-in for [JSON.parse] that knows a few lines by name. *)
Definition JSON_parse (line : string) : JsonParsed :=
  if String.eqb line "login-200" then wrap (entry "login" 200 [])
  else if String.eqb line "login-500" then wrap (entry "login" 500 [])
  else if String.eqb line "orders-200" then wrap (entry "orders" 200 [])
  else if String.eqb line "orders-refused" then wrap (entry "orders" 200 [refused])
  else if String.eqb line "login-reset" then wrap (entry "login" 200 [""; "socket reset"])
  else if String.eqb line "null" then JsonNull
  else if String.eqb line "{}" then JsonValue (mkLogEntry None)
  else if String.eqb line "no-response"
  then wrap {| RequestId := "x"; StartTime := ""; EndTime := ""; DurationMs := Js.Finite 0;
               Log_Request := Log_Request (entry "x" 200 []); Log_Response := None;
               Errors := []; Metadata := None |}
  else JsonSyntaxError "SyntaxError: Unexpected token".

Definition basename_noext (filePath : string) : string := "demo".

Definition test (label : string) (passed : bool) (source : TestSource) : HttpTestResult :=
  {| Test_Name := label; Passed := passed;
     Message := if passed then None else Some "expected 200";
     Source := Some source |}.

Definition fileRequest (label : string) (count : nat) : HttpFileRequest :=
  {| file_name := Some label; file_title := None; file_method := "GET";
     file_url := "http://localhost:5000/" ++ label;
     hasTestDirectives := Some (0 <? count)%nat;
     testDirectiveCount := Some count |}.

Definition internal (label : string) (status : Z) : InternalRequest :=
  {| method := "GET"; url := "http://localhost:5000/" ++ label;
     requestHeaders := []; responseHeaders := []; uniqueKey := None;
     title := Some label; name := Some label; templateUrl := None;
     requestBody := None; responseStatus := Some status;
     responseStatusText := Some "reason"; responseBody := None;
     duration := Some "12ms"; ErrorMessage := None; retryInfo := None |}.

End Samples.

Module ReportSamples.

(** Stand-ins for the regular expressions of the report parser: a report
    is known by name, a suite holds one test case for each character of
    its content, and a case fails when its content is ["f"]. *)
Definition testSuiteRegex_matches (xmlContent : string) : list (string * string) :=
  if String.eqb xmlContent "custom-report" then [("Custom CSX Tests", "pp")]
  else if String.eqb xmlContent "plain-report" then [("demo", "pppp")]
  else [].

Fixpoint testCaseRegex_matches (suiteContent : string) : list (string * option string) :=
  match suiteContent with
  | EmptyString => []
  | String c rest =>
      ("case", Some (String c EmptyString)) :: testCaseRegex_matches rest
  end.

Definition failureRegex_exec (testContent : string) : option string :=
  if String.eqb testContent "f" then Some "expected 200" else None.

Definition decodeXmlEntities (s : string) : string := s.

(** A clock on which nothing takes longer than asked, and a report file
    that is never there. *)
Definition stat_mtime (t : Z) : outcome Z := Thrown "ENOENT: no such file or directory".
Definition stat_done (t : Z) : Z := t.
Definition timer_done (t ms : Z) : Z := t + ms.

End ReportSamples.

Module LogSamples.

(** A first attempt that succeeds and a retry that fails. *)
Definition success_then_failure : string := "login-200
login-500".

(** Two good lines around a line that is not JSON. *)
Definition with_garbage : list string := ["login-200"; "not json"; "orders-200"].

(** A request whose attempt succeeded, with an error string in its entry. *)
Definition refused_but_200 : string := "login-200
orders-refused".

(** An error in the second line, and a later error in the group of the
    first line. *)
Definition errors_in_two_groups : string := "login-200
orders-refused
login-reset".

End LogSamples.

Module RunSamples.

(** What a run prints when the server is down, and stand-ins for the
    patterns of [extractTeaPieError] that know this output. *)
Definition refused_output : string :=
  "Exception was thrown during execution of a test case.
No connection could be made because the target machine actively refused it. (localhost:5000)".

Definition match_nothing (output : string) : option string := None.

Definition match_refused (output : string) : option string :=
  if Js.includes output "actively refused it. (localhost:5000)"
  then Some "localhost:5000" else None.

Definition execError : ExecutionFailure.ExecError :=
  {| ExecutionFailure.stdout := Some refused_output;
     ExecutionFailure.stderr := None;
     ExecutionFailure.message := Some "Command failed: teapie test demo.http";
     ExecutionFailure.code := Some 1 |}.

(** A reports directory with the reports of two runs. *)
Definition files : list string :=
  ["run-1700000000000-report.xml"; "notes.txt";
   "run-1700000005000-report.xml"; "run-1700000005000-requests.json"].

Definition directory (last_run : bool) : ReportSelection.ReportsDirectory :=
  {| ReportSelection.last_run_accessible := last_run;
     ReportSelection.readdir := Returned files;
     ReportSelection.readFile := fun _ => Returned "plain-report" |}.

(** A report file that is written at time [u]. *)
Definition stat_mtime_written_at (u t : Z) : outcome Z :=
  if t <? u then Thrown "ENOENT: no such file or directory" else Returned u.

(** An entry of duration [d], and a result of duration text [text]. *)
Definition entry_of_duration (d : Js.operand) : StructuredJsonParser.StructuredLogEntry :=
  {| StructuredJsonParser.RequestId := "id";
     StructuredJsonParser.StartTime := "2025-01-01T10:00:00Z";
     StructuredJsonParser.EndTime := "2025-01-01T10:00:01Z";
     StructuredJsonParser.DurationMs := d;
     StructuredJsonParser.Log_Request := None;
     StructuredJsonParser.Log_Response := None;
     StructuredJsonParser.Errors := [];
     StructuredJsonParser.Metadata := None |}.

Definition result_of_duration (text : string) : HttpRequestResult :=
  {| Name := "request"; Status := STATUS_PASSED; Duration := text;
     Request := None; Response := None; Result_ErrorMessage := None;
     Tests := None; Result_RetryInfo := None |}.

End RunSamples.

(** * Properties *)

(** ** Aggregation: the status of a request (C2) *)

Section RequestStatus.

Import TeaPieExecutor.

Lemma http_success_spec status :
  http_success status <->
  (Js.truthy_num status &&
     match status with Some c => (200 <=? c) && (c <? 300) | None => false end) = true.
Proof.
  unfold http_success; split.
  - intros (c & -> & Hlo & Hhi). simpl.
    apply andb_true_iff; split.
    + apply negb_true_iff, Z.eqb_neq. lia.
    + apply andb_true_iff; split; [apply Z.leb_le | apply Z.ltb_lt]; lia.
  - destruct status as [c|]; simpl; [|discriminate].
    intros H. apply andb_true_iff in H as [_ H].
    apply andb_true_iff in H as [Hlo Hhi].
    exists c. apply Z.leb_le in Hlo. apply Z.ltb_lt in Hhi. auto.
Qed.

Lemma is_inline_spec t : is_inline t = true <-> inline_tagged t.
Proof.
  unfold is_inline, inline_tagged.
  destruct (Source t) as [[]|]; split; intros; congruence.
Qed.

(** [hasFailedInlineTests], as a proposition. *)
Lemma failed_inline_spec (tests : list HttpTestResult) :
  ((0 <? length (filter (fun t => is_inline t = true) tests))%nat
     && existsb (fun t => negb (Passed t)) (filter (fun t => is_inline t = true) tests)) = true
  <-> exists t, t ∈ tests /\ inline_tagged t /\ Passed t = false.
Proof.
  split.
  - intros H. apply andb_true_iff in H as [_ H].
    apply existsb_exists in H as (t & Hin & Hp).
    apply list_elem_of_In, list_elem_of_filter in Hin as [Hi Hin].
    exists t. rewrite <- is_inline_spec. apply negb_true_iff in Hp. auto.
  - intros (t & Hin & Hi & Hp).
    assert (Hf : t ∈ filter (fun t => is_inline t = true) tests).
    { apply list_elem_of_filter. split; [by apply is_inline_spec | done]. }
    apply andb_true_iff; split.
    + apply Nat.ltb_lt. destruct (filter _ tests); [by apply elem_of_nil in Hf | simpl; lia].
    + apply existsb_exists. exists t. split; [by apply list_elem_of_In |].
      by rewrite Hp.
Qed.

Lemma request_status_failed status tests :
  ~ http_success status -> request_status status tests = STATUS_FAILED.
Proof.
  intros H. unfold request_status.
  rewrite http_success_spec in H. apply not_true_is_false in H. by rewrite H.
Qed.

Lemma request_status_tests_failed status tests :
  http_success status ->
  (exists t, t ∈ tests /\ inline_tagged t /\ Passed t = false) ->
  request_status status tests = STATUS_TESTS_FAILED.
Proof.
  intros Hs Ht. unfold request_status.
  apply http_success_spec in Hs. apply failed_inline_spec in Ht.
  by rewrite Hs, Ht.
Qed.

Lemma request_status_passed status tests :
  http_success status ->
  (forall t, t ∈ tests -> inline_tagged t -> Passed t = true) ->
  request_status status tests = STATUS_PASSED.
Proof.
  intros Hs Ht. unfold request_status.
  apply http_success_spec in Hs. rewrite Hs. simpl.
  destruct ((0 <? _)%nat && _) eqn:E; [|done].
  apply failed_inline_spec in E as (t & Hin & Hi & Hp).
  rewrite (Ht t Hin Hi) in Hp. discriminate.
Qed.

(** C2. The derived status of a request follows the ordered precedence:
    a final HTTP status outside [[200, 300)] gives [Failed]; otherwise an
    inline test that did not pass gives [TestsFailed]; otherwise the
    request is [Passed].  So a status 500 is [Failed] whatever the tests
    say, and a status 200 with a failing inline test is [TestsFailed]. *)
Theorem derived_status_precedence
    (testResultsFromXml : gmap string (list HttpTestResult))
    (index : nat) (request : InternalRequest) :
  let tests := attributed_tests testResultsFromXml index request in
  let status := Status (build_request testResultsFromXml index request) in
  (~ http_success (responseStatus request) -> status = STATUS_FAILED) /\
  (http_success (responseStatus request) ->
   (exists t, t ∈ tests /\ inline_tagged t /\ Passed t = false) ->
   status = STATUS_TESTS_FAILED) /\
  (http_success (responseStatus request) ->
   (forall t, t ∈ tests -> inline_tagged t -> Passed t = true) ->
   status = STATUS_PASSED) /\
  (responseStatus request = Some 500 -> status = STATUS_FAILED) /\
  (responseStatus request = Some 200 ->
   (exists t, t ∈ tests /\ Source t = Some inline /\ Passed t = false) ->
   status = STATUS_TESTS_FAILED).
Proof.
  intros tests status. subst tests status. unfold attributed_tests. simpl.
  repeat split.
  - apply request_status_failed.
  - apply request_status_tests_failed.
  - apply request_status_passed.
  - intros E. apply request_status_failed. rewrite E.
    intros (c & [= <-] & ? & ?). lia.
  - intros E (t & Hin & Hs & Hp). apply request_status_tests_failed.
    + rewrite E. exists 200. split; [done | lia].
    + exists t. unfold inline_tagged. rewrite Hs. split_and!; done.
Qed.

End RequestStatus.

(** ** Ingestion: the first loop *)

Section FirstPass.

Import StructuredJsonParser.
Variable JSON_parse : string -> JsonParsed.

Lemma first_pass_step_valid st line e :
  valid_entry JSON_parse line = Some e ->
  exists request,
    Log_Request e = Some request /\
    first_pass_step JSON_parse st line =
      mkPassState (group_entry (requestMap st) (Request_Name request) e) true.
Proof.
  unfold valid_entry, first_pass_step, first_pass_body, structured_entry_of.
  destruct (JSON_parse line); try discriminate. simpl.
  destruct (_ ≫= _) as [e'|]; try discriminate.
  destruct (Log_Request e') eqn:Hq, (Log_Response e'); intros [= <-]; eauto.
Qed.

Lemma first_pass_step_skip st line :
  valid_entry JSON_parse line = None ->
  first_pass_step JSON_parse st line = st.
Proof.
  unfold valid_entry, first_pass_step, first_pass_body, structured_entry_of.
  destruct (JSON_parse line); try done. simpl.
  destruct (_ ≫= _) as [e'|]; try done.
  destruct (Log_Request e'), (Log_Response e'); done.
Qed.

Lemma malformed_not_valid line :
  fails_to_parse JSON_parse line \/ lacks_structured_entry JSON_parse line
  \/ incomplete_attempt JSON_parse line ->
  valid_entry JSON_parse line = None.
Proof.
  unfold valid_entry.
  intros [(e & ->)|[[->|(v & -> & ->)]|(v & e & -> & -> & H)]]; try done.
  simpl. destruct H as [->| ->]; [done|]. by destruct (Log_Request e).
Qed.

Lemma valid_entries_app l1 l2 :
  valid_entries JSON_parse (l1 ++ l2) =
  (valid_entries JSON_parse l1 ++ valid_entries JSON_parse l2)%list.
Proof. apply omap_app. Qed.

Lemma valid_entries_skip l1 line l2 :
  valid_entry JSON_parse line = None ->
  valid_entries JSON_parse (l1 ++ line :: l2) = valid_entries JSON_parse (l1 ++ l2).
Proof.
  intros H. rewrite !valid_entries_app. f_equal.
  unfold valid_entries. simpl. by rewrite H.
Qed.

Lemma fold_first_pass_skip l1 line l2 st :
  valid_entry JSON_parse line = None ->
  fold_left (first_pass_step JSON_parse) (l1 ++ line :: l2) st =
  fold_left (first_pass_step JSON_parse) (l1 ++ l2) st.
Proof.
  intros H. rewrite !fold_left_app. simpl. by rewrite first_pass_step_skip.
Qed.

(** *** The association list that stands for the [Map] *)

Lemma Map_get_None m k : Map_get m k = None <-> k ∉ m.*1.
Proof.
  induction m as [|[k' g] m IH]; cbn [Map_get].
  - split; [intros _; apply not_elem_of_nil | done].
  - destruct (String.eqb_spec k' k) as [->|Hne].
    + split; [done | intros H; exfalso; apply H; left].
    + rewrite IH, fmap_cons, not_elem_of_cons. simpl. split; [auto | by intros []].
Qed.

Lemma Map_get_set_eq m k g : Map_get (Map_set m k g) k = Some g.
Proof.
  induction m as [|[k' g'] m IH]; simpl.
  - by rewrite String.eqb_refl.
  - destruct (String.eqb_spec k' k) as [->|Hne]; simpl.
    + by rewrite String.eqb_refl.
    + by destruct (String.eqb_spec k' k).
Qed.

Lemma Map_get_set_ne m k k' g :
  k <> k' -> Map_get (Map_set m k g) k' = Map_get m k'.
Proof.
  intros Hne. induction m as [|[k0 g0] m IH]; simpl.
  - by destruct (String.eqb_spec k k').
  - destruct (String.eqb_spec k0 k) as [->|Hne0]; simpl.
    + by destruct (String.eqb_spec k k').
    + by rewrite IH.
Qed.

Lemma Map_set_keys m k g :
  (Map_set m k g).*1 = if Map_has m k then m.*1 else (m.*1 ++ [k])%list.
Proof.
  unfold Map_has. induction m as [|[k' g'] m IH]; [done|].
  cbn [Map_set Map_get].
  destruct (String.eqb_spec k' k) as [->|Hne]; [done|].
  rewrite !fmap_cons, IH. by destruct (Map_get m k).
Qed.

Lemma Map_get_elem m k g :
  NoDup m.*1 -> (k, g) ∈ m -> Map_get m k = Some g.
Proof.
  induction m as [|[k' g'] m IH]; simpl; intros Hnd Hin.
  - by apply elem_of_nil in Hin.
  - apply NoDup_cons in Hnd as [Hk Hnd].
    apply elem_of_cons in Hin as [[= <- <-]|Hin].
    + by rewrite String.eqb_refl.
    + destruct (String.eqb_spec k' k) as [->|Hne]; [|by apply IH].
      exfalso. apply Hk. apply list_elem_of_fmap. by exists (k, g).
Qed.

(** *** Grouping keeps the chains *)

Lemma chain_snoc k es e :
  chain k (es ++ [e]) =
  (chain k es ++ if decide (entry_name e = Some k) then [e] else [])%list.
Proof.
  unfold chain. by rewrite filter_app.
Qed.

Lemma grouped_nil : grouped [] [].
Proof. split; [constructor | done]. Qed.

Lemma grouped_step m es e request :
  grouped m es ->
  Log_Request e = Some request ->
  grouped (group_entry m (Request_Name request) e) (es ++ [e]).
Proof.
  intros [Hnd Hget] Hreq.
  set (k0 := Request_Name request).
  assert (Hname : entry_name e = Some k0) by (unfold entry_name; by rewrite Hreq).
  unfold group_entry, Map_has, Map_push.
  pose proof (Hget k0) as Hk0.
  destruct (Map_get m k0) as [g|] eqn:Hg; simpl.
  - (* the name has a group: push *)
    destruct (chain k0 es) as [|e0 c] eqn:Hc; [done|]. injection Hk0 as ->. simpl.
    split.
    + rewrite Map_set_keys. unfold Map_has. by rewrite Hg.
    + intros k. rewrite chain_snoc. destruct (decide (k0 = k)) as [<-|Hne].
      * rewrite Map_get_set_eq, Hc, Hname. by rewrite decide_True.
      * rewrite Map_get_set_ne by done. rewrite Hget, Hname.
        rewrite decide_False by congruence. by rewrite app_nil_r.
  - (* a new name: set *)
    destruct (chain k0 es) as [|e0 c] eqn:Hc; [|done].
    split.
    + rewrite Map_set_keys. unfold Map_has. rewrite Hg.
      apply NoDup_app. split_and!; [done | | apply NoDup_singleton].
      intros x Hx Hx'. apply list_elem_of_singleton in Hx' as ->.
      by apply Map_get_None in Hg.
    + intros k. rewrite chain_snoc. destruct (decide (k0 = k)) as [<-|Hne].
      * rewrite Map_get_set_eq, Hc, Hname. by rewrite decide_True.
      * rewrite Map_get_set_ne by done. rewrite Hget, Hname.
        rewrite decide_False by congruence. by rewrite app_nil_r.
Qed.

Lemma fold_first_pass_grouped lines st es :
  grouped (requestMap st) es ->
  grouped (requestMap (fold_left (first_pass_step JSON_parse) lines st))
          (es ++ valid_entries JSON_parse lines).
Proof.
  revert st es. induction lines as [|line lines IH]; intros st es Hg; simpl.
  - unfold valid_entries. simpl. by rewrite app_nil_r.
  - unfold valid_entries. simpl.
    destruct (valid_entry JSON_parse line) as [e|] eqn:Hv.
    + destruct (first_pass_step_valid st line e Hv) as (request & Hreq & ->).
      simpl. rewrite cons_middle, app_assoc. apply IH. simpl.
      by apply grouped_step.
    + rewrite first_pass_step_skip by done. by apply IH.
Qed.

Lemma first_pass_grouped lines :
  grouped (requestMap (first_pass JSON_parse lines)) (valid_entries JSON_parse lines).
Proof. apply (fold_first_pass_grouped lines (mkPassState [] false) []), grouped_nil. Qed.

Lemma fold_first_pass_found lines st :
  found (fold_left (first_pass_step JSON_parse) lines st) =
  found st || bool_decide (valid_entries JSON_parse lines <> []).
Proof.
  revert st. induction lines as [|line lines IH]; intros st; simpl.
  - by rewrite orb_false_r.
  - unfold valid_entries. simpl.
    destruct (valid_entry JSON_parse line) as [e|] eqn:Hv.
    + destruct (first_pass_step_valid st line e Hv) as (request & Hreq & ->).
      rewrite IH. simpl. by rewrite orb_true_r.
    + rewrite first_pass_step_skip by done. apply IH.
Qed.

(** What a binding of a grouped map looks like. *)
Lemma grouped_elem m es k g :
  grouped m es -> (k, g) ∈ m ->
  allEntries g = chain k es /\
  head (chain k es) = Some (firstEntry g) /\
  exists request, Log_Request (firstEntry g) = Some request /\ Request_Name request = k.
Proof.
  intros [Hnd Hget] Hin.
  pose proof (Map_get_elem m k g Hnd Hin) as Hg. rewrite Hget in Hg.
  destruct (chain k es) as [|e c] eqn:Hc; [done|]. injection Hg as <-. simpl.
  split_and!; [done..|].
  assert (He : e ∈ chain k es) by (rewrite Hc; left).
  apply list_elem_of_filter in He as [He _]. unfold entry_name in He.
  destruct (Log_Request e) as [request|]; [|done]. injection He as <-. eauto.
Qed.

Lemma grouped_bound m es k :
  grouped m es -> chain k es <> [] -> exists g, (k, g) ∈ m.
Proof.
  intros [Hnd Hget] Hne. specialize (Hget k).
  destruct (chain k es) as [|e c]; [done|].
  clear -Hget. induction m as [|[k' g'] m IH]; simpl in *; [done|].
  destruct (String.eqb_spec k' k) as [->|?].
  - eexists; left.
  - destruct (IH Hget) as [g Hg]. exists g. by right.
Qed.

End FirstPass.

(** ** Ingestion: the second loop *)

Section SecondPass.

Import StructuredJsonParser.
Variable JSON_parse : string -> JsonParsed.

Lemma group_errors_nonempty entries e :
  e ∈ group_errors entries -> e <> "".
Proof. unfold group_errors. intros H. by apply list_elem_of_filter in H as [H _]. Qed.

Lemma truthy_string_Some e : e <> "" -> Js.truthy_string (Some e) = true.
Proof. intros H. simpl. by destruct (String.eqb_spec e ""). Qed.

Lemma second_pass_body_spec requests ce g :
  (exists request, Log_Request (firstEntry g) = Some request) ->
  allEntries g <> [] ->
  exists request,
    emitted g request /\
    second_pass_body (requests, ce) g =
      Returned ((requests ++ [request])%list,
                connection_error_from ce (group_errors (allEntries g))).
Proof.
  intros [firstRequest Hfirst] Hne.
  destruct (last (allEntries g)) as [lastEntry|] eqn:Hlast;
    [|by apply last_None in Hlast].
  exists (internalRequest g firstRequest lastEntry (errorMessage_of (allEntries g))).
  split; [by exists firstRequest, lastEntry|].
  unfold second_pass_body, connection_error_from, errorMessage_of.
  rewrite Hlast, Hfirst. simpl.
  destruct (group_errors (allEntries g)) as [|e errors]; simpl.
  - by destruct (Js.truthy_string ce).
  - by destruct (Js.truthy_string ce).
Qed.

Lemma connection_error_from_app ce errors1 errors2 :
  (forall e, e ∈ errors1 -> e <> "") ->
  connection_error_from (connection_error_from ce errors1) errors2 =
  connection_error_from ce (errors1 ++ errors2).
Proof.
  intros Hne. unfold connection_error_from.
  destruct (Js.truthy_string ce) eqn:Hce; [by rewrite Hce|].
  destruct errors1 as [|e errors1]; simpl; [by rewrite Hce|].
  assert (He : Js.truthy_string (Some e) = true)
    by (apply truthy_string_Some, Hne; left).
  simpl in He. by rewrite He.
Qed.

Lemma second_pass_spec groups requests ce :
  Forall (fun g => (exists request, Log_Request (firstEntry g) = Some request)
                   /\ allEntries g <> []) groups ->
  exists emitted_requests,
    Forall2 emitted groups emitted_requests /\
    second_pass groups (requests, ce) =
      Returned ((requests ++ emitted_requests)%list,
                connection_error_from ce (errors_in_order groups)).
Proof.
  intros Hwf. revert requests ce.
  induction Hwf as [|g groups [Hfirst Hne] _ IH]; intros requests ce.
  - exists []. split; [constructor|]. simpl. rewrite app_nil_r.
    unfold connection_error_from. by destruct (Js.truthy_string ce).
  - destruct (second_pass_body_spec requests ce g Hfirst Hne) as (request & Hem & Hbody).
    destruct (IH (requests ++ [request])%list
                (connection_error_from ce (group_errors (allEntries g))))
      as (rest & Hrest & Hpass).
    exists (request :: rest). split; [by constructor|].
    cbn [second_pass]. rewrite Hbody. cbn [bind]. rewrite Hpass.
    rewrite <- app_assoc. simpl. f_equal. f_equal.
    unfold errors_in_order. simpl.
    apply connection_error_from_app. intros e. apply group_errors_nonempty.
Qed.

Lemma grouped_well_formed m es :
  grouped m es ->
  Forall (fun g => (exists request, Log_Request (firstEntry g) = Some request)
                   /\ allEntries g <> []) (map snd m).
Proof.
  intros Hg. apply Forall_forall. intros g Hin.
  apply list_elem_of_fmap in Hin as ([k g'] & -> & Hin). simpl.
  destruct (grouped_elem m es k g' Hg Hin) as (Hall & Hhead & request & Hreq & _).
  split; [eauto|]. rewrite Hall. by destruct (chain k es).
Qed.

(** The whole of [processLines]: it returns; the requests are those the
    groups emit, in the order of the map; [connectionError] is the first
    error in that order; [foundHttpRequest] says whether a line held a
    complete entry. *)
Lemma processLines_spec lines :
  let groups := map snd (requestMap (first_pass JSON_parse lines)) in
  exists emitted_requests,
    Forall2 emitted groups emitted_requests /\
    processLines JSON_parse lines =
      Returned {| requests := emitted_requests;
                  connectionError := head (errors_in_order groups);
                  foundHttpRequest :=
                    bool_decide (valid_entries JSON_parse lines <> []) |}.
Proof.
  intros groups.
  pose proof (first_pass_grouped JSON_parse lines) as Hg.
  destruct (second_pass_spec groups [] None (grouped_well_formed _ _ Hg))
    as (emitted_requests & Hem & Hpass).
  exists emitted_requests. split; [done|].
  unfold processLines. fold groups. rewrite Hpass. simpl.
  unfold first_pass. rewrite fold_first_pass_found. simpl.
  unfold connection_error_from. simpl.
  by destruct (errors_in_order groups).
Qed.

Lemma processLines_connectionError_nonempty lines r e :
  processLines JSON_parse lines = Returned r ->
  connectionError r = Some e -> e <> "".
Proof.
  destruct (processLines_spec lines) as (reqs & _ & ->).
  intros [= <-]. simpl. intros He.
  assert (Hin : e ∈ errors_in_order
                      (map snd (requestMap (first_pass JSON_parse lines)))).
  { destruct (errors_in_order _); [done|]. injection He as ->. left. }
  unfold errors_in_order in Hin.
  apply list_elem_of_In, in_concat in Hin as (errors & Hin & He').
  apply in_map_iff in Hin as (g & <- & _).
  by apply list_elem_of_In, group_errors_nonempty in He'.
Qed.

Lemma parse_connectionError_nonempty file r e :
  parseStructuredJsonRequests JSON_parse file = Returned r ->
  connectionError r = Some e -> e <> "".
Proof.
  destruct file as [|err|fileContent]; simpl.
  - by intros [= <-] [= <-].
  - done.
  - destruct (length _ =? 0)%nat.
    + by intros [= <-] [= <-].
    + apply processLines_connectionError_nonempty.
Qed.

End SecondPass.

(** ** Ingestion: the request of a group *)

Section RetryChains.

Import StructuredJsonParser.
Variable JSON_parse : string -> JsonParsed.

Lemma emitted_name g request firstRequest :
  emitted g request ->
  Log_Request (firstEntry g) = Some firstRequest ->
  name request = Some (Request_Name firstRequest).
Proof. intros (fr & le & Hfr & _ & ->) H. rewrite H in Hfr. by injection Hfr as <-. Qed.

Lemma emitted_absent (m : RequestMap) requests k :
  (forall k' g, (k', g) ∈ m ->
     exists firstRequest,
       Log_Request (firstEntry g) = Some firstRequest /\ Request_Name firstRequest = k') ->
  Forall2 emitted m.*2 requests ->
  k ∉ m.*1 ->
  filter (fun q => name q = Some k) requests = [].
Proof.
  revert requests. induction m as [|[k' g] m IH]; intros requests Hkeys Hem Hk.
  - by apply Forall2_nil_inv_l in Hem as ->.
  - rewrite fmap_cons in Hem. apply Forall2_cons_inv_l in Hem as (q & rest & Hq & Hrest & ->).
    rewrite fmap_cons in Hk. apply not_elem_of_cons in Hk as [Hne Hk]. simpl in Hne.
    destruct (Hkeys k' g) as (fr & Hfr & Hn); [left|].
    rewrite filter_cons_False.
    + apply IH; [|done..]. intros k0 g0 H0. apply Hkeys. by right.
    + rewrite (emitted_name _ _ _ Hq Hfr). congruence.
Qed.

Lemma emitted_unique (m : RequestMap) requests k g :
  NoDup m.*1 ->
  (forall k' g, (k', g) ∈ m ->
     exists firstRequest,
       Log_Request (firstEntry g) = Some firstRequest /\ Request_Name firstRequest = k') ->
  Forall2 emitted m.*2 requests ->
  (k, g) ∈ m ->
  exists request,
    emitted g request /\ filter (fun q => name q = Some k) requests = [request].
Proof.
  revert requests. induction m as [|[k' g'] m IH]; intros requests Hnd Hkeys Hem Hin.
  - by apply elem_of_nil in Hin.
  - rewrite fmap_cons in Hem. apply Forall2_cons_inv_l in Hem as (q & rest & Hq & Hrest & ->).
    rewrite fmap_cons in Hnd. apply NoDup_cons in Hnd as [Hk' Hnd]. simpl in Hk', Hq.
    assert (Hkeys' : forall k0 g0, (k0, g0) ∈ m ->
              exists fr, Log_Request (firstEntry g0) = Some fr /\ Request_Name fr = k0).
    { intros k0 g0 H0. apply Hkeys. by right. }
    destruct (Hkeys k' g') as (fr & Hfr & Hn); [left|].
    pose proof (emitted_name _ _ _ Hq Hfr) as Hname.
    apply elem_of_cons in Hin as [[= -> ->]|Hin].
    + exists q. split; [done|].
      rewrite filter_cons_True by congruence.
      by rewrite (emitted_absent m rest k').
    + destruct (IH rest Hnd Hkeys' Hrest Hin) as (request & Hr & Hf).
      exists request. split; [done|].
      rewrite filter_cons_False; [done|].
      rewrite Hname, Hn. intros [= ->]. apply Hk'.
      apply list_elem_of_fmap. by exists (k, g).
Qed.

Lemma or_num_default x : Js.or_num x 0 = default 0 x.
Proof. destruct x as [z|]; simpl; [|done]. by destruct (Z.eqb_spec z 0). Qed.

Lemma attempt_success_spec e :
  attempt_success e = true <-> http_success (statusCode_of e).
Proof.
  unfold attempt_success. rewrite http_success_spec.
  destruct (statusCode_of e) as [c|]; [|done].
  by destruct (Js.truthy_num (Some c)).
Qed.

Lemma parse_content fileContent :
  jsonl_lines fileContent <> [] ->
  parseStructuredJsonRequests JSON_parse (Content fileContent) =
  processLines JSON_parse (jsonl_lines fileContent).
Proof. simpl. by destruct (jsonl_lines fileContent). Qed.

End RetryChains.

(** ** Ingestion: the run returns *)

Section MalformedLines.

Import StructuredJsonParser.
Variable JSON_parse : string -> JsonParsed.

Lemma processLines_returns lines :
  exists r, processLines JSON_parse lines = Returned r.
Proof. destruct (processLines_spec JSON_parse lines) as (requests & _ & ->). eauto. Qed.

Lemma parse_content_returns fileContent :
  exists r, parseStructuredJsonRequests JSON_parse (Content fileContent) = Returned r.
Proof.
  simpl. destruct (length _ =? 0)%nat; [eauto | apply processLines_returns].
Qed.

End MalformedLines.

(** ** Aggregation: the short circuit and missing logs (C7) *)

Section ConnectionErrors.

Import StructuredJsonParser TeaPieExecutor.
Variable basename_noext : string -> string.
Variable JSON_parse : string -> JsonParsed.

Lemma createFailedResult_single filePath message :
  single_failed_result (createFailedResult basename_noext filePath message) message.
Proof. unfold single_failed_result, createFailedResult. simpl. eauto 12. Qed.

Lemma build_short_circuit fileName filePath r tests e :
  connectionError r = Some e -> e <> "" ->
  buildHttpRequestResults basename_noext fileName filePath r tests =
  createFailedResult basename_noext filePath e.
Proof.
  intros Hce Hne. unfold buildHttpRequestResults.
  rewrite Hce, truthy_string_Some; done.
Qed.

(** C7. A log file that is missing, or that holds nothing but white
    space, makes ingestion return no request, a [connectionError] that
    says so, and [foundHttpRequest = false]; [parseOutput] then returns
    the single failed result that says no request was found, and
    [executeTeaPie] hands this result on. *)
Theorem missing_or_empty_log (file : FileState) :
  file = Missing \/ (exists fileContent, file = Content fileContent /\ Js.trim fileContent = "") ->
  (exists message,
     message <> "" /\
     parseStructuredJsonRequests JSON_parse file =
       Returned {| requests := []; connectionError := Some message;
                   foundHttpRequest := false |}) /\
  (forall filePath tests,
     parseOutput basename_noext JSON_parse filePath tests file =
       createFailedResult basename_noext filePath
         "No HTTP requests found in structured JSON files" /\
     executeTeaPie_result basename_noext JSON_parse filePath tests file =
       createFailedResult basename_noext filePath
         "No HTTP requests found in structured JSON files" /\
     single_failed_result (parseOutput basename_noext JSON_parse filePath tests file)
       "No HTTP requests found in structured JSON files").
Proof.
  intros [->|(fileContent & -> & Hblank)].
  - split; [eexists; split; [|reflexivity]; done|].
    intros filePath tests. split_and!; [done | done | apply createFailedResult_single].
  - assert (Hlines : jsonl_lines fileContent = []) by (unfold jsonl_lines; by rewrite Hblank).
    split.
    + exists "Empty JSONL file". split; [done|]. simpl. by rewrite Hlines.
    + intros filePath tests. unfold executeTeaPie_result, parseOutput.
      simpl. rewrite Hlines. simpl.
      split_and!; [done | done | apply createFailedResult_single].
Qed.

End ConnectionErrors.

(** ** The report: attribution of tests by position (C4) *)

Section Attribution.

Import XmlTestParser.







Lemma slice_to_end {A} (l : list A) (n : nat) : slice l n (length l) = drop n l.
Proof. unfold slice. apply take_ge. rewrite length_drop. lia. Qed.



Lemma distribute_other reqs inlineTests testIndex (m : gmap string (list HttpTestResult)) k :
  k ∉ requestName_of <$> reqs ->
  distribute reqs inlineTests testIndex m !! k = m !! k.
Proof.
  revert testIndex m. induction reqs as [|req reqs IH]; intros testIndex m Hk; [done|].
  rewrite fmap_cons in Hk. apply not_elem_of_cons in Hk as [Hne Hk].
  cbn [distribute]. destruct (testDirectiveCount req) as [[|n]|]; try by apply IH.
  rewrite IH by done. destruct (0 <? _)%nat; [|done]. by rewrite lookup_insert_ne.
Qed.


Lemma append_custom_lookup tests (m : gmap string (list HttpTestResult)) :
  append_custom tests m !! CUSTOM_CSX_TESTS =
  Some (default [] (m !! CUSTOM_CSX_TESTS) ++ tests)%list.
Proof. unfold append_custom. by rewrite lookup_insert_eq. Qed.






End Attribution.

(** ** The report: waiting for it to be written (C9) *)

Section Waiter.

Import XmlTestParser.

Variable stat_mtime : Z -> outcome Z.
Variable stat_done : Z -> Z.
Variable timer_done : Z -> Z -> Z.

(** The clock does not run backwards while [fs.stat] is answered, and a
    timer does not fire before its delay has passed. *)
Hypothesis stat_takes_time : forall t, t <= stat_done t.
Hypothesis timer_waits : forall t ms, t + ms <= timer_done t ms.

Local Abbreviation poll_once := (poll_once stat_mtime stat_done timer_done).
Local Abbreviation wait_loop := (wait_loop stat_mtime stat_done timer_done).
Local Abbreviation waitForXmlReportUpdate := (waitForXmlReportUpdate stat_mtime stat_done timer_done).

(** One look at the file: it never throws; it answers [true] after the
    settling delay when the file is newer than the baseline, and [false]
    when it is not newer or cannot be read. *)
Lemma poll_once_spec beforeTimestamp w :
  poll_once beforeTimestamp w =
  match stat_mtime (now w) with
  | Returned currentTimestamp =>
      if beforeTimestamp <? currentTimestamp
      then (Returned true, mkWorld (timer_done (stat_done (now w)) 50) (channel w))
      else (Returned false, mkWorld (stat_done (now w)) (channel w))
  | Thrown _ => (Returned false, mkWorld (stat_done (now w)) (channel w))
  end.
Proof.
  unfold XmlTestParser.poll_once, mcatch, mbind, fs_stat, sleep, ret. simpl.
  destruct (stat_mtime (now w)) as [currentTimestamp|e]; [|done].
  by destruct (beforeTimestamp <? currentTimestamp).
Qed.

Lemma wait_loop_timeout fuel beforeTimestamp maxWaitTime startTime w :
  maxWaitTime <= now w - startTime ->
  wait_loop (S fuel) beforeTimestamp maxWaitTime startTime w =
  (Returned (Some tt),
   mkWorld (now w) (channel w ++ [wait_warning maxWaitTime])%list).
Proof.
  intros H. cbn [XmlTestParser.wait_loop]. unfold mbind, Date_now.
  destruct (Z.ltb_spec (now w - startTime) maxWaitTime); [lia|done].
Qed.

Lemma wait_loop_updated fuel beforeTimestamp maxWaitTime startTime w currentTimestamp :
  now w - startTime < maxWaitTime ->
  stat_mtime (now w) = Returned currentTimestamp ->
  beforeTimestamp < currentTimestamp ->
  wait_loop (S fuel) beforeTimestamp maxWaitTime startTime w =
  (Returned (Some tt), mkWorld (timer_done (stat_done (now w)) 50) (channel w)).
Proof.
  intros Hin Hstat Hnew. cbn [XmlTestParser.wait_loop]. unfold mbind at 1, Date_now.
  destruct (Z.ltb_spec (now w - startTime) maxWaitTime); [|lia].
  unfold mbind at 1. rewrite poll_once_spec, Hstat.
  by destruct (Z.ltb_spec beforeTimestamp currentTimestamp); [|lia].
Qed.

Lemma wait_loop_continue fuel beforeTimestamp maxWaitTime startTime w :
  now w - startTime < maxWaitTime ->
  (forall currentTimestamp,
     stat_mtime (now w) = Returned currentTimestamp -> currentTimestamp <= beforeTimestamp) ->
  wait_loop (S fuel) beforeTimestamp maxWaitTime startTime w =
  wait_loop fuel beforeTimestamp maxWaitTime startTime
    (mkWorld (timer_done (stat_done (now w)) 100) (channel w)).
Proof.
  intros Hin Hstat. cbn [XmlTestParser.wait_loop]. unfold mbind at 1, Date_now.
  destruct (Z.ltb_spec (now w - startTime) maxWaitTime); [|lia].
  unfold mbind at 1. rewrite poll_once_spec.
  destruct (stat_mtime (now w)) as [currentTimestamp|e]; [|done].
  specialize (Hstat currentTimestamp eq_refl).
  by destruct (Z.ltb_spec beforeTimestamp currentTimestamp); [lia|].
Qed.

(** The clock after a look at the file and a pause of 100 ms. *)
Ltac clock_moves w :=
  simpl;
  pose proof (stat_takes_time (now w));
  pose proof (timer_waits (stat_done (now w)) 100);
  lia.

(** Enough fuel: one iteration for each 100 ms that remain, and one more. *)
Lemma wait_loop_returns n beforeTimestamp maxWaitTime startTime w :
  maxWaitTime - (now w - startTime) <= 100 * Z.of_nat n ->
  exists w', wait_loop (S n) beforeTimestamp maxWaitTime startTime w = (Returned (Some tt), w').
Proof.
  revert w. induction n as [|n IH]; intros w Hrem.
  - rewrite wait_loop_timeout by lia. eauto.
  - destruct (Z.lt_ge_cases (now w - startTime) maxWaitTime) as [Hin|Hout];
      [|rewrite wait_loop_timeout by lia; eauto].
    destruct (stat_mtime (now w)) as [currentTimestamp|e] eqn:Hstat.
    + destruct (Z.lt_ge_cases beforeTimestamp currentTimestamp) as [Hnew|Hold].
      * rewrite (wait_loop_updated _ _ _ _ _ currentTimestamp) by done. eauto.
      * rewrite wait_loop_continue; [|done|].
        -- apply IH. clock_moves w.
        -- intros c Hc. rewrite Hstat in Hc. injection Hc as <-. lia.
    + rewrite wait_loop_continue; [|done|].
      * apply IH. clock_moves w.
      * intros c Hc. by rewrite Hstat in Hc.
Qed.

Lemma wait_loop_never_throws fuel beforeTimestamp maxWaitTime startTime w e w' :
  wait_loop fuel beforeTimestamp maxWaitTime startTime w <> (Thrown e, w').
Proof.
  revert w. induction fuel as [|fuel IH]; intros w; [done|].
  destruct (Z.lt_ge_cases (now w - startTime) maxWaitTime) as [Hin|Hout];
    [|by rewrite wait_loop_timeout by lia].
  destruct (stat_mtime (now w)) as [currentTimestamp|err] eqn:Hstat.
  - destruct (Z.lt_ge_cases beforeTimestamp currentTimestamp) as [Hnew|Hold].
    + by rewrite (wait_loop_updated _ _ _ _ _ currentTimestamp).
    + rewrite wait_loop_continue; [apply IH|done|].
      intros c Hc. rewrite Hstat in Hc. injection Hc as <-. lia.
  - rewrite wait_loop_continue; [apply IH|done|].
    intros c Hc. by rewrite Hstat in Hc.
Qed.

(** C9. The waiter does not throw, whatever [fs.stat] does, and it
    returns.  While the time is not up, a file that cannot be read counts
    as not updated and the waiter polls again 100 ms later; a file newer
    than the baseline makes it return after the 50 ms settling delay; and
    when the time is up it writes the warning and returns. *)
Theorem waiter_returns_without_error (beforeTimestamp maxWaitMs : Z) (w : World) :
  (exists fuel w',
     waitForXmlReportUpdate fuel beforeTimestamp maxWaitMs w = (Returned (Some tt), w')) /\
  (forall fuel e w',
     waitForXmlReportUpdate fuel beforeTimestamp maxWaitMs w <> (Thrown e, w')) /\
  (forall fuel startTime w0 e,
     now w0 - startTime < maxWaitMs ->
     stat_mtime (now w0) = Thrown e ->
     wait_loop (S fuel) beforeTimestamp maxWaitMs startTime w0 =
     wait_loop fuel beforeTimestamp maxWaitMs startTime
       (mkWorld (timer_done (stat_done (now w0)) 100) (channel w0))) /\
  (forall fuel startTime w0 currentTimestamp,
     now w0 - startTime < maxWaitMs ->
     stat_mtime (now w0) = Returned currentTimestamp ->
     beforeTimestamp < currentTimestamp ->
     wait_loop (S fuel) beforeTimestamp maxWaitMs startTime w0 =
     (Returned (Some tt), mkWorld (timer_done (stat_done (now w0)) 50) (channel w0))) /\
  (forall fuel startTime w0,
     maxWaitMs <= now w0 - startTime ->
     wait_loop (S fuel) beforeTimestamp maxWaitMs startTime w0 =
     (Returned (Some tt),
      mkWorld (now w0) (channel w0 ++ [wait_warning maxWaitMs])%list)).
Proof.
  split_and!.
  - exists (S (Z.to_nat maxWaitMs)).
    unfold XmlTestParser.waitForXmlReportUpdate, mbind at 1, Date_now.
    apply wait_loop_returns. lia.
  - intros fuel e w'.
    unfold XmlTestParser.waitForXmlReportUpdate, mbind at 1, Date_now.
    apply wait_loop_never_throws.
  - intros fuel startTime w0 e Hin Hstat. apply wait_loop_continue; [done|].
    intros c Hc. by rewrite Hstat in Hc.
  - intros fuel startTime w0 c. apply wait_loop_updated.
  - intros fuel startTime w0. apply wait_loop_timeout.
Qed.

End Waiter.

(** ** The group status (C1) *)

Section GroupStatus.

Import TeaPieExecutor.

Lemma request_status_values status tests :
  request_status status tests = STATUS_FAILED \/
  request_status status tests = STATUS_TESTS_FAILED \/
  request_status status tests = STATUS_PASSED.
Proof.
  unfold request_status. destruct (negb _); [auto|]. destruct (_ && _); auto.
Qed.

Lemma build_request_not_FAILED tests index request :
  String.eqb (Status (build_request tests index request)) "FAILED" = false.
Proof.
  simpl. destruct (request_status_values (responseStatus request)
                     (default [] (tests !! Js.or_string (name request)
                        ("Request " ++ Js.string_of_number (Z.of_nat index + 1)))))
    as [-> | [-> | ->]]; done.
Qed.

Lemma no_FAILED_among_built (build : nat -> InternalRequest -> HttpRequestResult)
    (requests : list InternalRequest) :
  (forall i q, String.eqb (Status (build i q)) "FAILED" = false) ->
  existsb (fun r => String.eqb (Status r) "FAILED") (imap build requests) = false.
Proof.
  revert build. induction requests as [|q requests IH]; intros build Hb; [done|].
  rewrite imap_cons. cbn [existsb]. rewrite Hb. apply IH. intros i. apply Hb.
Qed.

(** What the group status depends on: the literal ["FAILED"] is the
    status of the pseudo-request of the global bucket alone, so the group
    is ["FAILED"] exactly when a test of that bucket did not pass. *)
Lemma group_status_from_custom_bucket tests (requests : list InternalRequest) :
  group_status (imap (build_request tests) requests ++ custom_request tests)%list = "FAILED"
  <-> exists customCsxTests t,
        tests !! XmlTestParser.CUSTOM_CSX_TESTS = Some customCsxTests /\
        t ∈ customCsxTests /\ Passed t = false.
Proof.
  unfold group_status. rewrite existsb_app.
  rewrite (no_FAILED_among_built _ requests (build_request_not_FAILED tests)). cbn [orb].
  unfold custom_request.
  destruct (tests !! XmlTestParser.CUSTOM_CSX_TESTS) as [customCsxTests|]; cycle 1.
  { split; [done | by intros (? & ? & ? & _)]. }
  destruct customCsxTests as [|t0 ts]; cbn [length Nat.ltb Nat.leb].
  { split; [done | intros (? & t & [= <-] & Hin & _); by apply elem_of_nil in Hin]. }
  destruct (forallb Passed (t0 :: ts)) eqn:Hall; cbn [existsb Status String.eqb orb].
  - split; [done|]. intros (? & t & [= <-] & Hin & Hp).
    rewrite forallb_forall in Hall. apply list_elem_of_In, Hall in Hin. congruence.
  - split; [|done]. intros _. exists (t0 :: ts).
    assert (Hex : exists t, In t (t0 :: ts) /\ Passed t = false).
    { clear -Hall. induction (t0 :: ts) as [|x l IH]; [done|].
      simpl in Hall. destruct (Passed x) eqn:Hx.
      - destruct (IH Hall) as (t & Hin & Hp). exists t. split; [by right | done].
      - exists x. split; [by left | done]. }
    destruct Hex as (t & Hin & Hp). exists t. by rewrite list_elem_of_In.
Qed.

(** The group that [buildHttpRequestResults] returns when ingestion reported
    no connection error: the requests in the order of ingestion, then the
    pseudo-request of the global bucket, and the status computed from both. *)
Lemma aggregated_group (basename_noext : string -> string) fileName filePath
    (r : CliParseResult) (tests : gmap string (list HttpTestResult)) :
  Js.truthy_string (connectionError r) = false ->
  exists g,
    RequestGroup (buildHttpRequestResults basename_noext fileName filePath r tests) = [g] /\
    Group_Requests g =
      (imap (build_request tests) (requests r) ++ custom_request tests)%list /\
    Group_Status g = group_status (Group_Requests g).
Proof.
  intros Hce. unfold buildHttpRequestResults. rewrite Hce.
  eexists. split_and!; reflexivity.
Qed.

(** C1, at an input on which the code departs from it.  A log with one
    request whose final status is 500: the request is [Failed], and the
    group is ["PASSED"]. *)
Theorem failed_request_leaves_group_passed :
  exists g q,
    RequestGroup (parseOutput Samples.basename_noext Samples.JSON_parse "demo.http" ∅
                    (StructuredJsonParser.Content "login-500")) = [g] /\
    Group_Requests g = [q] /\
    Status q = STATUS_FAILED /\
    Group_Status g = "PASSED".
Proof. vm_compute. eexists _, _. split_and!; reflexivity. Qed.

End GroupStatus.

(** ** The source tag of the tests of the global bucket (C5) *)

Section SourceTags.

Import XmlTestParser.

(** C5, at inputs on which the code departs from it.  The tests of a
    suite named after the marker, and the tests moved to the global
    bucket because no request declares test directives, keep the tag
    [inline] in the bucket. *)
Theorem custom_bucket_keeps_inline_tag :
  parseTestResultsFromXml
    ReportSamples.testSuiteRegex_matches ReportSamples.testCaseRegex_matches
    ReportSamples.failureRegex_exec ReportSamples.decodeXmlEntities
    [Samples.fileRequest "login" 2] (Some "custom-report") !! CUSTOM_CSX_TESTS
  = Some [Samples.test "case" true inline; Samples.test "case" true inline] /\
  parseTestResultsFromXml
    ReportSamples.testSuiteRegex_matches ReportSamples.testCaseRegex_matches
    ReportSamples.failureRegex_exec ReportSamples.decodeXmlEntities
    [Samples.fileRequest "login" 0] (Some "plain-report") !! CUSTOM_CSX_TESTS
  = Some [Samples.test "case" true inline; Samples.test "case" true inline;
          Samples.test "case" true inline; Samples.test "case" true inline].
Proof. split; vm_compute; reflexivity. Qed.

(** The tests that overflow the declared counts are the ones tagged [csx]. *)
Lemma overflow_is_tagged_csx :
  parseTestResultsFromXml
    ReportSamples.testSuiteRegex_matches ReportSamples.testCaseRegex_matches
    ReportSamples.failureRegex_exec ReportSamples.decodeXmlEntities
    [Samples.fileRequest "login" 2; Samples.fileRequest "orders" 1]
    (Some "plain-report") !! CUSTOM_CSX_TESTS
  = Some [Samples.test "case" true csx].
Proof. vm_compute. reflexivity. Qed.

End SourceTags.

(** ** The theorems at sample inputs *)

Section Witnesses.

Import StructuredJsonParser XmlTestParser TeaPieExecutor.

Lemma derived_status_precedence_witness :
  http_success (Some 200) /\
  Status (build_request {[ "login" := [Samples.test "status is 200" false inline] ]} 0
            (Samples.internal "login" 200)) = STATUS_TESTS_FAILED.
Proof.
  assert (Hs : http_success (Some 200)) by (exists 200; split; [reflexivity | lia]).
  split; [exact Hs|].
  pose proof (derived_status_precedence
                {[ "login" := [Samples.test "status is 200" false inline] ]} 0
                (Samples.internal "login" 200)) as H.
  cbv zeta in H. destruct H as (_ & H & _). apply H; [exact Hs|].
  exists (Samples.test "status is 200" false inline).
  split; [|split; [discriminate | reflexivity]].
  unfold attributed_tests. simpl. rewrite lookup_singleton_eq. simpl. left.
Defined.

(** The retry that fails after a success, evaluated: the request shows
    the 500 of the second attempt, and the first attempt is listed as a
    success. *)
Example last_attempt_wins :
  (fun r => map (fun q => (name q, responseStatus q,
                            (fun i => map success (attempts i)) <$> retryInfo q))
              (requests r))
  <$> match parseStructuredJsonRequests Samples.JSON_parse
              (Content LogSamples.success_then_failure) with
      | Returned r => Some r
      | Thrown _ => None
      end
  = Some [(Some "login", Some 500, Some [true; false])].
Proof. vm_compute. reflexivity. Qed.



(** C6, as it is written, fails: the error of an entry reaches the
    result as the raw string; [mapConnectionError] would have turned it
    into the message of the ConnectionRefused class, and is not applied. *)
Lemma raw_connection_error_surfaces :
  let result :=
    parseOutput Samples.basename_noext Samples.JSON_parse "demo.http" ∅
      (Content "orders-refused") in
  single_failed_result result Samples.refused /\
  mapConnectionError Samples.refused =
    ERROR_CONNECTION_REFUSED ++ "

Detailed error: " ++ Samples.refused /\
  ~ single_failed_result result (mapConnectionError Samples.refused).
Proof.
  cbv zeta. split_and!.
  - vm_compute. eexists _, _. split_and!; reflexivity.
  - vm_compute. reflexivity.
  - intros (g & q & Hg & _ & Hq & _ & Hmsg & _).
    vm_compute in Hg. injection Hg as <-.
    vm_compute in Hq. injection Hq as <-.
    vm_compute in Hmsg. discriminate.
Qed.

Lemma missing_or_empty_log_witness :
  parseOutput Samples.basename_noext Samples.JSON_parse "demo.http" ∅ Missing =
    createFailedResult Samples.basename_noext "demo.http"
      "No HTTP requests found in structured JSON files" /\
  parseOutput Samples.basename_noext Samples.JSON_parse "demo.http" ∅ (Content "  ") =
    createFailedResult Samples.basename_noext "demo.http"
      "No HTTP requests found in structured JSON files".
Proof.
  split.
  - apply (missing_or_empty_log Samples.basename_noext Samples.JSON_parse Missing).
    left. reflexivity.
  - apply (missing_or_empty_log Samples.basename_noext Samples.JSON_parse (Content "  ")).
    right. exists "  ". split; reflexivity.
Defined.

(** The order in which errors are met is that of the groups: the error of
    the third line belongs to the group of the first line, and wins over the
    error of the second line. *)
Example first_error_follows_group_order :
  connectionError <$>
    match parseStructuredJsonRequests Samples.JSON_parse
            (Content LogSamples.errors_in_two_groups) with
    | Returned r => Some r
    | Thrown _ => None
    end
  = Some (Some "socket reset").
Proof. vm_compute. reflexivity. Qed.

Lemma waiter_returns_without_error_witness :
  waitForXmlReportUpdate ReportSamples.stat_mtime ReportSamples.stat_done
    ReportSamples.timer_done 4 0 300 (mkWorld 1000 []) =
  (Returned (Some tt), mkWorld 1300 [wait_warning 300]) /\
  forall fuel e w',
    waitForXmlReportUpdate ReportSamples.stat_mtime ReportSamples.stat_done
      ReportSamples.timer_done fuel 0 300 (mkWorld 1000 []) <> (Thrown e, w').
Proof.
  split; [reflexivity|].
  apply (waiter_returns_without_error ReportSamples.stat_mtime ReportSamples.stat_done
           ReportSamples.timer_done).
  - intros t. unfold ReportSamples.stat_done. lia.
  - intros t ms. unfold ReportSamples.timer_done. lia.
Defined.

End Witnesses.

(** * Further properties of the code *)

(** ** Ingestion: the shape of the result *)

Section IngestionShape.

Import StructuredJsonParser.
Variable JSON_parse : string -> JsonParsed.

Lemma Map_has_keys (m : RequestMap) k : Map_has m k = bool_decide (k ∈ m.*1).
Proof.
  unfold Map_has. destruct (Map_get m k) as [g|] eqn:Hg.
  - symmetry. apply bool_decide_eq_true. destruct (decide (k ∈ m.*1)) as [|Hn]; [done|].
    apply Map_get_None in Hn. congruence.
  - symmetry. apply bool_decide_eq_false. by apply Map_get_None.
Qed.

Lemma group_entry_keys (m : RequestMap) k e :
  (group_entry m k e).*1 = if bool_decide (k ∈ m.*1) then m.*1 else (m.*1 ++ [k])%list.
Proof.
  unfold group_entry, Map_push. rewrite <- Map_has_keys. unfold Map_has.
  destruct (Map_get m k) as [g|] eqn:Hg; simpl;
    rewrite Map_set_keys; unfold Map_has; by rewrite Hg.
Qed.

Lemma fold_first_pass_keys lines st :
  (requestMap (fold_left (first_pass_step JSON_parse) lines st)).*1 =
  fold_left
    (fun seen e =>
       match entry_name e with
       | Some k => if bool_decide (k ∈ seen) then seen else (seen ++ [k])%list
       | None => seen
       end)
    (valid_entries JSON_parse lines) (requestMap st).*1.
Proof.
  revert st. induction lines as [|line lines IH]; intros st; [done|].
  unfold valid_entries. cbn [fold_left omap list_omap].
  destruct (valid_entry JSON_parse line) as [e|] eqn:Hv.
  - destruct (first_pass_step_valid JSON_parse st line e Hv) as (request & Hreq & ->).
    assert (Hname : entry_name e = Some (Request_Name request))
      by (unfold entry_name; by rewrite Hreq).
    rewrite IH. cbn [fold_left requestMap]. by rewrite Hname, group_entry_keys.
  - rewrite first_pass_step_skip by done. apply IH.
Qed.

Lemma first_pass_keys lines :
  (requestMap (first_pass JSON_parse lines)).*1 = first_names (valid_entries JSON_parse lines).
Proof. apply (fold_first_pass_keys lines (mkPassState [] false)). Qed.

Lemma emitted_names (m : RequestMap) (requests : list InternalRequest) :
  (forall k g, (k, g) ∈ m ->
     exists firstRequest,
       Log_Request (firstEntry g) = Some firstRequest /\ Request_Name firstRequest = k) ->
  Forall2 emitted m.*2 requests ->
  name <$> requests = Some <$> m.*1.
Proof.
  revert requests. induction m as [|[k g] m IH]; intros requests Hkeys Hem.
  - by apply Forall2_nil_inv_l in Hem as ->.
  - rewrite fmap_cons in Hem. apply Forall2_cons_inv_l in Hem as (q & rest & Hq & Hrest & ->).
    destruct (Hkeys k g) as (fr & Hfr & Hn); [left|].
    rewrite !fmap_cons. f_equal.
    + rewrite (emitted_name _ _ _ Hq Hfr). simpl. by rewrite Hn.
    + apply IH; [|done]. intros k' g' H'. apply Hkeys. by right.
Qed.

Lemma valid_entry_named line e :
  valid_entry JSON_parse line = Some e -> exists k, entry_name e = Some k.
Proof.
  unfold valid_entry, entry_name. destruct (JSON_parse line); try discriminate.
  destruct (structured_entry_of _) as [e'|]; try discriminate.
  destruct (Log_Request e') eqn:Hq, (Log_Response e'); intros [= <-].
  rewrite Hq. eauto.
Qed.

Lemma valid_entries_named lines e :
  e ∈ valid_entries JSON_parse lines -> exists k, entry_name e = Some k.
Proof.
  unfold valid_entries. intros H. apply list_elem_of_omap in H as (line & _ & Hv).
  by apply (valid_entry_named line).
Qed.

(** What the second loop does to a grouped map, once more, with the
    map at hand. *)
Lemma parse_content_spec fileContent :
  let lines := jsonl_lines fileContent in
  let m := requestMap (first_pass JSON_parse lines) in
  lines <> [] ->
  exists emitted_requests,
    grouped m (valid_entries JSON_parse lines) /\
    Forall2 emitted m.*2 emitted_requests /\
    parseStructuredJsonRequests JSON_parse (Content fileContent) =
      Returned {| requests := emitted_requests;
                  connectionError := head (errors_in_order m.*2);
                  foundHttpRequest :=
                    bool_decide (valid_entries JSON_parse lines <> []) |}.
Proof.
  intros lines m Hne.
  destruct (processLines_spec JSON_parse lines) as (reqs & Hem & Hproc).
  exists reqs. split_and!; [apply first_pass_grouped | exact Hem |].
  by rewrite (parse_content JSON_parse fileContent Hne).
Qed.

Lemma first_names_nil : first_names [] = [].
Proof. done. Qed.

(** X1. The requests of a log come one for each distinct request name, in the
    order in which the names first appear in the log. *)
Theorem requests_follow_first_appearance (fileContent : string) :
  exists r,
    parseStructuredJsonRequests JSON_parse (Content fileContent) = Returned r /\
    name <$> requests r =
      Some <$> first_names (valid_entries JSON_parse (jsonl_lines fileContent)) /\
    NoDup (name <$> requests r).
Proof.
  destruct (decide (jsonl_lines fileContent = [])) as [Hnil|Hne].
  - eexists. split; [simpl; rewrite Hnil; reflexivity|]. rewrite Hnil. simpl.
    split; [done | constructor].
  - destruct (parse_content_spec fileContent Hne) as (reqs & Hg & Hem & ->).
    eexists. split; [reflexivity|]. cbn [requests].
    assert (Hnames : name <$> reqs =
                     Some <$> (requestMap (first_pass JSON_parse (jsonl_lines fileContent))).*1).
    { apply emitted_names; [|done]. intros k g Hin.
      by destruct (grouped_elem _ _ k g Hg Hin) as (_ & _ & H). }
    split.
    + by rewrite Hnames, first_pass_keys.
    + rewrite Hnames. apply (NoDup_fmap_2 _), Hg.
Qed.

Lemma chain_cons k e es :
  chain k (e :: es) =
  if decide (entry_name e = Some k) then e :: chain k es else chain k es.
Proof. unfold chain. by rewrite filter_cons. Qed.

Lemma one_key_matches (ks : list string) (k0 : string) :
  NoDup ks -> k0 ∈ ks ->
  sum_list_with (fun k => if decide (Some k0 = Some k) then 1 else 0)%nat ks = 1%nat.
Proof.
  induction ks as [|k ks IH]; intros Hnd Hin; [by apply elem_of_nil in Hin|].
  apply NoDup_cons in Hnd as [Hk Hnd]. cbn [sum_list_with].
  apply elem_of_cons in Hin as [->|Hin].
  - rewrite decide_True by done.
    assert (Hz : sum_list_with (fun k' => if decide (Some k = Some k') then 1 else 0)%nat ks
                 = 0%nat).
    { clear -Hk. induction ks as [|k' ks IH]; [done|].
      apply not_elem_of_cons in Hk as [Hne Hk]. cbn [sum_list_with].
      rewrite decide_False by congruence. by rewrite IH. }
    by rewrite Hz.
  - rewrite decide_False by (intros [= ->]; done). by rewrite IH.
Qed.

(** The chains of distinct names that cover the entries share them out:
    their lengths add up to the number of entries. *)
Lemma chains_cover (ks : list string) (es : list StructuredLogEntry) :
  NoDup ks ->
  (forall e, e ∈ es -> exists k, entry_name e = Some k /\ k ∈ ks) ->
  sum_list_with (fun k => length (chain k es)) ks = length es.
Proof.
  intros Hnd. induction es as [|e es IH]; intros Hcover.
  - clear. induction ks as [|k ks IHk]; [done|]. cbn [sum_list_with]. by rewrite IHk.
  - destruct (Hcover e) as (k0 & Hname & Hin); [left|].
    assert (Hsplit : forall l : list string,
              sum_list_with (fun k => length (chain k (e :: es))) l =
              (sum_list_with (fun k => if decide (Some k0 = Some k) then 1 else 0) l
               + sum_list_with (fun k => length (chain k es)) l)%nat).
    { induction l as [|k l IHl]; [done|]. cbn [sum_list_with].
      rewrite IHl, chain_cons, Hname. destruct (decide (Some k0 = Some k)); simpl; lia. }
    rewrite Hsplit, one_key_matches by done. rewrite IH; [done|].
    intros e' He'. apply Hcover. by right.
Qed.

Lemma grouped_covers (m : RequestMap) es e :
  grouped m es -> e ∈ es -> (exists k, entry_name e = Some k) ->
  exists k, entry_name e = Some k /\ k ∈ m.*1.
Proof.
  intros Hg Hin [k Hk]. exists k. split; [done|].
  destruct (grouped_bound m es k Hg) as [g Hg'].
  - intros Hnil. assert (He : e ∈ chain k es) by (apply list_elem_of_filter; done).
    rewrite Hnil in He. by apply elem_of_nil in He.
  - apply list_elem_of_fmap. by exists (k, g).
Qed.

Lemma emitted_attempts (m : RequestMap) es (requests : list InternalRequest) :
  (forall k g, (k, g) ∈ m -> allEntries g = chain k es) ->
  Forall2 emitted m.*2 requests ->
  foldr Z.add 0 (attempt_count <$> requests) =
  Z.of_nat (sum_list_with (fun k => length (chain k es)) m.*1).
Proof.
  revert requests. induction m as [|[k g] m IH]; intros requests Hall Hem.
  - by apply Forall2_nil_inv_l in Hem as ->.
  - rewrite fmap_cons in Hem. apply Forall2_cons_inv_l in Hem as (q & rest & Hq & Hrest & ->).
    rewrite !fmap_cons. cbn [foldr sum_list_with fst].
    rewrite Nat2Z.inj_add, <- (IH rest); [|intros k' g' H'; apply Hall; by right | done].
    f_equal. destruct Hq as (fr & le & _ & _ & ->). unfold attempt_count. simpl.
    by rewrite (Hall k g) by left.
Qed.

(** X2. Every complete entry of the log is an attempt of exactly one request:
    the attempt counts of the requests add up to the number of complete
    entries. *)
Theorem attempts_partition_the_entries (fileContent : string) :
  exists r,
    parseStructuredJsonRequests JSON_parse (Content fileContent) = Returned r /\
    foldr Z.add 0 (attempt_count <$> requests r) =
    Z.of_nat (length (valid_entries JSON_parse (jsonl_lines fileContent))).
Proof.
  destruct (decide (jsonl_lines fileContent = [])) as [Hnil|Hne].
  - eexists. split; [simpl; rewrite Hnil; reflexivity|]. by rewrite Hnil.
  - destruct (parse_content_spec fileContent Hne) as (reqs & Hg & Hem & ->).
    eexists. split; [reflexivity|]. cbn [requests].
    rewrite (emitted_attempts (requestMap (first_pass JSON_parse (jsonl_lines fileContent)))
               (valid_entries JSON_parse (jsonl_lines fileContent)) reqs);
      [| intros k g Hin; by destruct (grouped_elem _ _ k g Hg Hin) as (H & _) | done].
    f_equal. apply chains_cover; [apply Hg|].
    intros e He. apply (grouped_covers _ _ e Hg He), (valid_entries_named _ _ He).
Qed.

End IngestionShape.

(** ** Ingestion and aggregation together *)

Section IngestionAggregation.

Import StructuredJsonParser TeaPieExecutor.
Variable basename_noext : string -> string.
Variable JSON_parse : string -> JsonParsed.

Lemma grouped_empty (m : RequestMap) es :
  grouped m es ->
  (forall e, e ∈ es -> exists k, entry_name e = Some k) ->
  m = [] <-> es = [].
Proof.
  intros Hg Hnamed. split.
  - intros ->. destruct es as [|e es]; [done|].
    destruct (grouped_covers [] (e :: es) e Hg) as (k & _ & Hin);
      [left | apply Hnamed; left | by apply elem_of_nil in Hin].
  - intros ->. destruct m as [|[k g] m]; [done|].
    destruct (grouped_elem _ [] k g Hg) as (_ & Hhead & _); [left | done].
Qed.

Lemma found_requests_agree (file : FileState) (r : CliParseResult) :
  parseStructuredJsonRequests JSON_parse file = Returned r ->
  foundHttpRequest r = true <-> requests r <> [].
Proof.
  destruct file as [|e|fileContent]; [by intros [= <-] | done |].
  destruct (decide (jsonl_lines fileContent = [])) as [Hnil|Hne].
  - simpl. rewrite Hnil. by intros [= <-].
  - destruct (parse_content_spec JSON_parse fileContent Hne) as (reqs & Hg & Hem & ->).
    intros [= <-]. cbn [foundHttpRequest requests].
    rewrite bool_decide_eq_true.
    pose proof (grouped_empty _ _ Hg (valid_entries_named JSON_parse _)) as Hiff.
    apply Forall2_length in Hem. rewrite length_fmap in Hem.
    split.
    + intros Hes ->. simpl in Hem. apply Hes, Hiff. by destruct (requestMap _).
    + intros Hreqs Hes. apply Hiff in Hes. rewrite Hes in Hem. by destruct reqs.
Qed.

(** X3. [foundHttpRequest] and the list of requests agree: ingestion found a
    complete entry exactly when it returns a request. *)
Theorem found_iff_requests (file : FileState) (r : CliParseResult) :
  parseStructuredJsonRequests JSON_parse file = Returned r ->
  foundHttpRequest r = true <-> requests r <> [].
Proof. apply found_requests_agree. Qed.

Lemma createFailedResult_nonempty filePath message :
  exists g q,
    RequestGroup (createFailedResult basename_noext filePath message) = [g] /\
    Group_Requests g = [q].
Proof. unfold createFailedResult. simpl. eauto. Qed.

(** X4. Whatever the log file is, [parseOutput] returns one group with at
    least one request in it; so the last test of [executeTeaPie], which
    replaces an empty result by the [ERROR_NO_HTTP_FOUND] result, never fires. *)
Theorem result_is_never_empty (filePath : string)
    (tests : gmap string (list HttpTestResult)) (file : FileState) :
  (exists g q rest,
     RequestGroup (parseOutput basename_noext JSON_parse filePath tests file) = [g] /\
     Group_Requests g = q :: rest) /\
  executeTeaPie_result basename_noext JSON_parse filePath tests file =
    parseOutput basename_noext JSON_parse filePath tests file.
Proof.
  assert (H : exists g q rest,
            RequestGroup (parseOutput basename_noext JSON_parse filePath tests file) = [g] /\
            Group_Requests g = q :: rest).
  { unfold parseOutput.
    destruct (parseStructuredJsonRequests JSON_parse file) as [r|e] eqn:Hparse.
    - destruct ((length (requests r) =? 0)%nat && negb (foundHttpRequest r)) eqn:Hempty.
      + destruct (createFailedResult_nonempty filePath
                    "No HTTP requests found in structured JSON files") as (g & q & ? & ?).
        eauto.
      + unfold buildHttpRequestResults.
        destruct (Js.truthy_string (connectionError r)).
        * destruct (createFailedResult_nonempty filePath (default "" (connectionError r)))
            as (g & q & ? & ?). eauto.
        * assert (Hreqs : requests r <> []).
          { apply andb_false_iff in Hempty as [Hlen|Hfound].
            - apply Nat.eqb_neq in Hlen. by destruct (requests r).
            - apply negb_false_iff in Hfound. by apply (found_requests_agree file). }
          destruct (requests r) as [|q0 qs]; [done|].
          rewrite imap_cons. simpl. eauto.
    - destruct (createFailedResult_nonempty filePath
                  ("Failed to parse structured JSON requests: " ++ e)) as (g & q & ? & ?).
      eauto. }
  split; [exact H|].
  unfold executeTeaPie_result. destruct H as (g & q & rest & -> & Hreqs).
  by rewrite Hreqs.
Qed.

Lemma group_errors_nil entries :
  group_errors entries = [] <-> Forall error_free entries.
Proof.
  unfold group_errors, error_free. rewrite Forall_forall. split.
  - intros Hnil e He err Herr. destruct (decide (err = "")) as [|Hne]; [done|].
    assert (Hin : err ∈ filter (fun err => err <> "") (concat (map Errors entries))).
    { apply list_elem_of_filter. split; [done|].
      apply list_elem_of_In, in_concat. exists (Errors e).
      split; [apply in_map; by apply list_elem_of_In | by apply list_elem_of_In]. }
    rewrite Hnil in Hin. by apply elem_of_nil in Hin.
  - intros Hfree. destruct (filter _ _) as [|err errs] eqn:Hf; [done|].
    assert (Hin : err ∈ filter (fun err => err <> "") (concat (map Errors entries)))
      by (rewrite Hf; left).
    apply list_elem_of_filter in Hin as [Hne Hin].
    apply list_elem_of_In, in_concat in Hin as (errors & Hin & Herr).
    apply in_map_iff in Hin as (e & <- & He).
    exfalso. apply Hne, (Hfree e); by apply list_elem_of_In.
Qed.

Lemma errors_in_order_nil (groups : list Group) :
  errors_in_order groups = [] <-> Forall (fun g => group_errors (allEntries g) = []) groups.
Proof.
  unfold errors_in_order. induction groups as [|g groups IH]; simpl.
  - split; [constructor | done].
  - rewrite Forall_cons, <- IH. split.
    + intros H. by apply app_eq_nil in H.
    + intros [-> ->]. done.
Qed.

Lemma grouped_error_free (m : RequestMap) es :
  grouped m es ->
  (forall e, e ∈ es -> exists k, entry_name e = Some k) ->
  Forall (fun g => group_errors (allEntries g) = []) m.*2 <-> Forall error_free es.
Proof.
  intros Hg Hnamed. rewrite !Forall_forall. split.
  - intros Hgroups e He.
    destruct (Hnamed e He) as [k Hk].
    destruct (grouped_bound m es k Hg) as [g Hin].
    { intros Hnil. assert (Hc : e ∈ chain k es) by (apply list_elem_of_filter; done).
      rewrite Hnil in Hc. by apply elem_of_nil in Hc. }
    destruct (grouped_elem m es k g Hg Hin) as (Hall & _).
    assert (Hfree : Forall error_free (allEntries g)).
    { apply group_errors_nil, Hgroups, list_elem_of_fmap. by exists (k, g). }
    rewrite Forall_forall in Hfree. apply Hfree. rewrite Hall.
    by apply list_elem_of_filter.
  - intros Hes g Hg'. apply list_elem_of_fmap in Hg' as ([k g'] & -> & Hin). simpl.
    destruct (grouped_elem m es k g' Hg Hin) as (Hall & _).
    apply group_errors_nil, Forall_forall. intros e He. apply Hes.
    rewrite Hall in He. by apply list_elem_of_filter in He as [_ He].
Qed.

Lemma emitted_error_messages (groups : list Group) (requests : list InternalRequest) :
  Forall2 emitted groups requests ->
  Forall (fun q => ErrorMessage q = None) requests <->
  Forall (fun g => group_errors (allEntries g) = []) groups.
Proof.
  induction 1 as [|g q groups requests Hq _ IH]; [split; constructor|].
  rewrite !Forall_cons, IH.
  destruct Hq as (fr & le & _ & _ & ->). simpl. unfold errorMessage_of.
  destruct (group_errors (allEntries g)) as [|err errs].
  - split; intros [_ H']; split; done.
  - split; intros [H' _]; discriminate.
Qed.

Lemma connection_error_unset (fileContent : string) :
  jsonl_lines fileContent <> [] ->
  exists r,
    parseStructuredJsonRequests JSON_parse (Content fileContent) = Returned r /\
    (connectionError r = None <->
     Forall error_free (valid_entries JSON_parse (jsonl_lines fileContent))) /\
    (connectionError r = None <->
     Forall (fun q => ErrorMessage q = None) (requests r)).
Proof.
  intros Hne.
  destruct (parse_content_spec JSON_parse fileContent Hne) as (reqs & Hg & Hem & ->).
  eexists. split; [reflexivity|]. cbn [connectionError requests].
  assert (Hhead : forall l : list string, head l = None <-> l = [])
    by (intros [|]; done).
  rewrite Hhead, errors_in_order_nil.
  split.
  - apply grouped_error_free; [done | apply valid_entries_named].
  - symmetry. by apply emitted_error_messages.
Qed.

(** X5. For a log that holds a line, [connectionError] stays unset exactly
    when no complete entry carries an error string that is not empty, and
    exactly when no request has an [ErrorMessage]. *)
Theorem connection_error_iff_entry_error (fileContent : string) :
  jsonl_lines fileContent <> [] ->
  exists r,
    parseStructuredJsonRequests JSON_parse (Content fileContent) = Returned r /\
    (connectionError r = None <->
     Forall error_free (valid_entries JSON_parse (jsonl_lines fileContent))) /\
    (connectionError r = None <->
     Forall (fun q => ErrorMessage q = None) (requests r)).
Proof. apply connection_error_unset. Qed.

(** X6. The [ErrorMessage] of a request never shows beside the data of
    requests: a result of [parseOutput] is either the single failed result,
    or none of its requests has an error message. *)
Theorem no_error_message_beside_requests (filePath : string)
    (tests : gmap string (list HttpTestResult)) (file : FileState) :
  let result := parseOutput basename_noext JSON_parse filePath tests file in
  (exists message, single_failed_result result message) \/
  (forall g q, g ∈ RequestGroup result -> q ∈ Group_Requests g ->
               Result_ErrorMessage q = None).
Proof.
  cbv zeta. unfold parseOutput.
  destruct (parseStructuredJsonRequests JSON_parse file) as [r|e] eqn:Hparse;
    [|left; eexists; apply createFailedResult_single].
  destruct (_ && _); [left; eexists; apply createFailedResult_single|].
  unfold buildHttpRequestResults.
  destruct (Js.truthy_string (connectionError r)) eqn:Hce;
    [left; eexists; apply createFailedResult_single|].
  right. intros g q Hg Hq. apply list_elem_of_singleton in Hg as ->. cbn [Group_Requests] in Hq.
  assert (Hnone : connectionError r = None).
  { destruct (connectionError r) as [e|] eqn:E; [|done].
    pose proof (parse_connectionError_nonempty JSON_parse file r e Hparse E) as Hne.
    rewrite (truthy_string_Some e Hne) in Hce. done. }
  assert (Hreqs : Forall (fun q => ErrorMessage q = None) (requests r)).
  { destruct file as [|e|fileContent]; [by injection Hparse as <- | done |].
    destruct (decide (jsonl_lines fileContent = [])) as [Hnil|Hne].
    - simpl in Hparse. rewrite Hnil in Hparse. by injection Hparse as <-.
    - destruct (connection_error_unset fileContent Hne) as (r' & Hr' & _ & Hiff).
      rewrite Hparse in Hr'. injection Hr' as <-. by apply Hiff. }
  apply elem_of_app in Hq as [Hq|Hq].
  - apply elem_of_lookup_imap in Hq as (i & q0 & -> & Hi).
    simpl. rewrite Forall_forall in Hreqs. apply Hreqs.
    by apply list_elem_of_lookup_2 in Hi.
  - unfold custom_request in Hq.
    destruct (tests !! XmlTestParser.CUSTOM_CSX_TESTS) as [customCsxTests|];
      [|by apply elem_of_nil in Hq].
    destruct (0 <? length customCsxTests)%nat; [|by apply elem_of_nil in Hq].
    by apply list_elem_of_singleton in Hq as ->.
Qed.

End IngestionAggregation.

(** ** Ingestion: what a request takes from the first attempt *)

Section FirstAttempt.

Import StructuredJsonParser.
Variable JSON_parse : string -> JsonParsed.

(** X7. The request of a retry chain takes its method, URL, headers, body and
    id from the first entry of the chain, later entries playing no part;
    the resilience strategy is named exactly when the first entry is
    flagged; and its [ErrorMessage] joins the error strings that are not
    empty of all entries of the chain with ["; "]. *)
Theorem static_fields_from_first_attempt (fileContent : string) (k : string) :
  let entries := chain k (valid_entries JSON_parse (jsonl_lines fileContent)) in
  entries <> [] ->
  exists r request info firstEntry firstRequest,
    parseStructuredJsonRequests JSON_parse (Content fileContent) = Returned r /\
    filter (fun q => name q = Some k) (requests r) = [request] /\
    head entries = Some firstEntry /\
    Log_Request firstEntry = Some firstRequest /\
    method request = Request_Method firstRequest /\
    url request = Request_Uri firstRequest /\
    templateUrl request = Some (Request_Uri firstRequest) /\
    requestHeaders request = default [] (Request_Headers firstRequest) /\
    requestBody request = Request_Body firstRequest /\
    uniqueKey request = Some (RequestId firstEntry) /\
    title request = Some k /\
    retryInfo request = Some info /\
    (strategyName info = Some "Resilience Pipeline" <->
     Metadata firstEntry ≫= hasResiliencePipeline = Some true) /\
    (strategyName info = None <->
     Metadata firstEntry ≫= hasResiliencePipeline <> Some true) /\
    ErrorMessage request =
      match group_errors entries with
      | [] => None
      | errors => Some (String.concat "; " errors)
      end.
Proof.
  intros entries Hne. subst entries.
  set (lines := jsonl_lines fileContent) in *.
  assert (Hlines : lines <> []) by (intros E; by rewrite E in Hne).
  destruct (parse_content_spec JSON_parse fileContent Hlines) as (reqs & Hg & Hem & Hparse).
  fold lines in Hg, Hem, Hparse.
  destruct (grouped_bound _ _ k Hg Hne) as [g Hin].
  destruct (grouped_elem _ _ k g Hg Hin) as (Hall & Hhead & _).
  destruct (emitted_unique _ reqs k g (proj1 Hg)
              (fun k' g' H' => proj2 (proj2 (grouped_elem _ _ k' g' Hg H'))) Hem Hin)
    as (request & (firstRequest & lastEntry & Hfirst & Hlast & Hreq) & Hfilter).
  destruct (grouped_elem _ _ k g Hg Hin) as (_ & _ & fr & Hfr & Hk).
  rewrite Hfirst in Hfr. injection Hfr as <-.
  eexists _, request, _, (firstEntry g), firstRequest.
  split; [exact Hparse|]. split; [exact Hfilter|].
  split; [exact Hhead|]. split; [exact Hfirst|].
  rewrite Hreq, <- Hall. cbn. rewrite Hk.
  split_and!; try reflexivity.
  - cbn [strategyName]. destruct (Metadata (firstEntry g)) as [md|];
      [destruct (hasResiliencePipeline md) as [[]|] eqn:E|]; simpl; rewrite ?E;
      split; congruence.
  - cbn [strategyName]. destruct (Metadata (firstEntry g)) as [md|];
      [destruct (hasResiliencePipeline md) as [[]|] eqn:E|]; simpl; rewrite ?E;
      split; congruence.
Qed.

End FirstAttempt.

(** ** Numbers written and read back *)

(** A character that is known not to be a digit, from the bounds [H]. *)
Ltac not_a_digit H :=
  let H1 := fresh in
  let H2 := fresh in
  destruct H as [H1 H2];
  apply Nat.leb_le in H1; apply Nat.leb_le in H2;
  vm_compute in H1; vm_compute in H2; discriminate.

Section NumberStrings.

Lemma digits_of_uint_acc (u : Decimal.uint) (a : positive) :
  Js.digits 10 (Some (Z.pos a)) (NilEmpty.string_of_uint u) =
  Some (Z.pos (Pos.of_uint_acc u a)).
Proof.
  revert a. induction u as [|u IH|u IH|u IH|u IH|u IH|u IH|u IH|u IH|u IH|u IH]; intros a;
    [done|..];
    cbn [NilEmpty.string_of_uint Js.digits Pos.of_uint_acc];
    match goal with
    | |- context [Js.digit_of 10 ?c] =>
        let d := eval vm_compute in (Js.digit_of 10 c) in
        change (Js.digit_of 10 c) with d
    end;
    cbn [default from_option id]; rewrite <- IH; do 2 f_equal; lia.
Qed.

Lemma digits_of_uint_0 (u : Decimal.uint) :
  Js.digits 10 (Some 0) (NilEmpty.string_of_uint u) = Some (Z.of_N (Pos.of_uint u)).
Proof.
  induction u as [|u IH|u IH|u IH|u IH|u IH|u IH|u IH|u IH|u IH|u IH];
    [done|exact IH|..];
    cbn [NilEmpty.string_of_uint Js.digits Pos.of_uint];
    match goal with
    | |- context [Js.digit_of 10 ?c] =>
        let d := eval vm_compute in (Js.digit_of 10 c) in
        change (Js.digit_of 10 c) with d
    end;
    cbn [default from_option id]; apply digits_of_uint_acc.
Qed.

Lemma digits_of_uint (u : Decimal.uint) :
  u <> Decimal.Nil ->
  Js.digits 10 None (NilEmpty.string_of_uint u) = Some (Z.of_N (Pos.of_uint u)).
Proof.
  intros Hne. rewrite <- digits_of_uint_0.
  destruct u; [done|..]; reflexivity.
Qed.

Lemma string_of_uint_digits (u : Decimal.uint) : digit_string (NilEmpty.string_of_uint u).
Proof.
  induction u; simpl; [apply digit_string_nil|..]; apply digit_string_cons; try done; split; apply Nat.leb_le; reflexivity.
Qed.

Lemma digit_string_head c s :
  digit_string (String c s) ->
  Js.trim_start (String c s) = String c s /\
  Js.strip_hex_prefix (String c s) = None /\
  c <> "-"%char /\ c <> "+"%char /\ c <> "m"%char.
Proof.
  intros H. inversion H as [|c' s' Hc Hs]; subst.
  assert (Hsp : Js.is_space c = false).
  { unfold Js.is_space.
    destruct (Nat.leb_spec 9 (nat_of_ascii c)), (Nat.leb_spec (nat_of_ascii c) 13),
      (Nat.eqb_spec (nat_of_ascii c) 32), (Nat.eqb_spec (nat_of_ascii c) 160);
      simpl; try done; lia. }
  split_and!.
  - simpl. by rewrite Hsp.
  - destruct s as [|x s]; [by destruct c as [[] [] [] [] [] [] [] []]|].
    inversion Hs as [|x' s'' Hx _]; subst.
    assert (Hx1 : Ascii.eqb x "x" = false).
    { apply Ascii.eqb_neq. intros ->. not_a_digit Hx. }
    assert (Hx2 : Ascii.eqb x "X" = false).
    { apply Ascii.eqb_neq. intros ->. not_a_digit Hx. }
    unfold Js.strip_hex_prefix. rewrite Hx1, Hx2.
    by destruct c as [[] [] [] [] [] [] [] []].
  - intros ->. not_a_digit Hc.
  - intros ->. not_a_digit Hc.
  - intros ->. not_a_digit Hc.
Qed.

Lemma parseInt_digit_string c s :
  digit_string (String c s) ->
  Js.parseInt (String c s) = Js.digits 10 None (String c s).
Proof.
  intros H. destruct (digit_string_head c s H) as (Htrim & Hhex & Hm & Hp & _).
  unfold Js.parseInt. rewrite Htrim.
  assert (Hsign : (let '(sign, s1) :=
                     match String c s with
                     | String "-"%char r => (-1, r)
                     | String "+"%char r => (1, r)
                     | _ => (1, String c s)
                     end in (sign, s1)) = (1, String c s)).
  { destruct c as [[] [] [] [] [] [] [] []]; try done. }
  revert Hsign.
  destruct (match String c s with
            | String "-"%char r => (-1, r)
            | String "+"%char r => (1, r)
            | _ => (1, String c s)
            end) as [sign s1]. intros [= -> ->].
  rewrite Hhex. destruct (Js.digits 10 None (String c s)) as [z|]; simpl; [|done].
  f_equal. lia.
Qed.

Lemma uint_string_cons (u : Decimal.uint) :
  u <> Decimal.Nil -> exists c s, NilEmpty.string_of_uint u = String c s.
Proof. destruct u; [done|..]; simpl; eauto. Qed.

Lemma string_of_pos (p : positive) :
  NilZero.string_of_uint (Pos.to_uint p) = NilEmpty.string_of_uint (Pos.to_uint p).
Proof.
  pose proof (DecimalPos.Unsigned.to_uint_nonnil p). by destruct (Pos.to_uint p).
Qed.

(** The numeral of an integer is read back by [parseInt]. *)
Lemma parseInt_decimal (z : Z) : Js.parseInt (Js.decimal z) = Some z.
Proof.
  unfold Js.decimal. destruct z as [|p|p]; [done|..]; simpl.
  - pose proof (DecimalPos.Unsigned.to_uint_nonnil p) as Hnil.
    rewrite string_of_pos. destruct (uint_string_cons _ Hnil) as (c & s & Hcs).
    pose proof (string_of_uint_digits (Pos.to_uint p)) as Hd. rewrite Hcs in Hd.
    rewrite Hcs, parseInt_digit_string, <- Hcs by done.
    by rewrite digits_of_uint, DecimalPos.Unsigned.of_to.
  - pose proof (DecimalPos.Unsigned.to_uint_nonnil p) as Hnil.
    rewrite string_of_pos. destruct (uint_string_cons _ Hnil) as (c & s & Hcs).
    pose proof (string_of_uint_digits (Pos.to_uint p)) as Hd. rewrite Hcs in Hd.
    destruct (digit_string_head c s Hd) as (_ & Hhex & _).
    unfold Js.parseInt. cbn [Js.trim_start]. change (Js.is_space "-") with false.
    cbv iota. rewrite Hcs, Hhex, <- Hcs.
    by rewrite digits_of_uint, DecimalPos.Unsigned.of_to.
Qed.

(** An integer below [2^53] in size is a number, and the number nearest
    to it. *)
Lemma nearest_exact (z : Z) : Z.abs z <= 2 ^ 53 -> Js.nearest z = Js.Int z.
Proof.
  intros Hz. unfold Js.nearest. cbv zeta.
  destruct (Z.leb_spec (Z.abs z) (2 ^ 53)); [done | lia].
Qed.

(** Such a number is printed as the numeral of the integer. *)
Lemma Number_toString_exact (z : Z) :
  Z.abs z < 2 ^ 53 -> Js.Number_toString (Js.Int z) = Js.decimal z.
Proof.
  intros Hz. unfold Js.Number_toString.
  destruct (Z.ltb_spec (Z.abs z) (2 ^ 53)); [done | lia].
Qed.

Lemma string_of_number_exact (z : Z) :
  Z.abs z < 2 ^ 53 -> Js.string_of_number z = Js.decimal z.
Proof.
  intros Hz. unfold Js.string_of_number.
  rewrite nearest_exact by lia. by apply Number_toString_exact.
Qed.

(** A number that was printed is read back by [parseInt]. *)
Lemma parseInt_string_of_number (z : Z) :
  Z.abs z < 2 ^ 53 -> Js.parseInt (Js.string_of_number z) = Some z.
Proof. intros Hz. rewrite string_of_number_exact by done. apply parseInt_decimal. Qed.

Lemma add_exact (a b : Z) :
  Z.abs (a + b) <= 2 ^ 53 -> Js.add (Js.Int a) (Js.Int b) = Js.Int (a + b).
Proof. intros H. unfold Js.add. by apply nearest_exact. Qed.

(** [rounded] is the function of the relation [rounds_to]. *)
Lemma rounded_spec (q : Q) (n : Z) : rounds_to q n <-> rounded q = n.
Proof.
  unfold rounds_to, rounded. split.
  - intros [Hlo Hhi]. symmetry. apply Z.le_antisymm.
    + rewrite <- (Qfloor_Z n) at 1. apply Qfloor_resp_le.
      apply (Qplus_le_l _ _ (1 # 2)) in Hlo.
      assert (E : (inject_Z n - (1 # 2) + (1 # 2) == inject_Z n)%Q) by ring.
      rewrite E in Hlo. exact Hlo.
    + apply (Qplus_lt_l _ _ (1 # 2)) in Hhi.
      assert (E : (inject_Z n + (1 # 2) + (1 # 2) == inject_Z (n + 1))%Q)
        by (rewrite inject_Z_plus; ring).
      rewrite E in Hhi.
      pose proof (Qfloor_le (q + (1 # 2))) as Hfl.
      assert (Hz : (inject_Z (Qfloor (q + (1 # 2))) < inject_Z (n + 1))%Q)
        by (eapply Qle_lt_trans; [exact Hfl | exact Hhi]).
      rewrite <- Zlt_Qlt in Hz. lia.
  - intros <-. split.
    + pose proof (Qfloor_le (q + (1 # 2))) as Hle.
      apply (Qplus_le_l _ _ (1 # 2)).
      assert (E : (inject_Z (Qfloor (q + (1 # 2))) - (1 # 2) + (1 # 2)
                   == inject_Z (Qfloor (q + (1 # 2))))%Q) by ring.
      rewrite E. exact Hle.
    + pose proof (Qlt_floor (q + (1 # 2))) as H.
      rewrite inject_Z_plus in H.
      apply (Qplus_lt_l _ _ (1 # 2)).
      assert (E : (inject_Z (Qfloor (q + (1 # 2))) + (1 # 2) + (1 # 2)
                   == inject_Z (Qfloor (q + (1 # 2))) + inject_Z 1)%Q) by ring.
      rewrite E. exact H.
Qed.

End NumberStrings.

(** ** Numbers beyond the integers that are held exactly *)

Section LargeNumbers.

Import StructuredJsonParser TeaPieExecutor.

(** From [2^53] on a number is printed with the fewest digits that tell
    it from its neighbours, and from [10^21] on with an exponent. *)
Example numerals_of_large_numbers :
  Js.string_of_number (2 ^ 53) = "9007199254740992" /\
  Js.string_of_number (2 ^ 53 + 1) = "9007199254740992" /\
  Js.string_of_number (2 ^ 60) = "1152921504606847000" /\
  Js.string_of_number (10 ^ 21 - 1) = "1e+21" /\
  Js.string_of_number (10 ^ 23) = "1e+23" /\
  Js.string_of_number (2 ^ 70) = "1.1805916207174113e+21" /\
  Js.string_of_number (- 2 ^ 1024) = "-Infinity".
Proof. vm_compute. repeat split. Qed.

(** The duration of an entry without [DurationMs], and of one of
    [10^21] ms; what the aggregator reads in them; and a sum that is
    rounded. *)
Example durations_beyond_the_exact_integers :
  duration_string (RunSamples.entry_of_duration Js.NoNumber) = "NaNms" /\
  duration_string (RunSamples.entry_of_duration (Js.Finite (inject_Z (10 ^ 21)))) = "1e+21ms" /\
  duration_string (RunSamples.entry_of_duration (Js.Infinite false)) = "Infinityms" /\
  group_duration [RunSamples.result_of_duration "NaNms"; RunSamples.result_of_duration "5ms"]
    = "5ms" /\
  group_duration [RunSamples.result_of_duration "1e+21ms"] = "1ms" /\
  group_duration [RunSamples.result_of_duration "9007199254740992ms";
                  RunSamples.result_of_duration "1ms"] = "9007199254740992ms".
Proof. vm_compute. repeat split. Qed.

End LargeNumbers.

(** ** Ingestion: retry chains, malformed lines and entry errors (C3, C6, C8, C10) *)

Section IngestionClaims.

Import StructuredJsonParser TeaPieExecutor.
Variable basename_noext : string -> string.
Variable JSON_parse : string -> JsonParsed.

(** The request that ingestion returns for a name with entries. *)
Lemma chain_request (fileContent : string) (k : string) :
  let es := valid_entries JSON_parse (jsonl_lines fileContent) in
  chain k es <> [] ->
  exists r request g firstRequest lastEntry,
    parseStructuredJsonRequests JSON_parse (Content fileContent) = Returned r /\
    filter (fun q => name q = Some k) (requests r) = [request] /\
    allEntries g = chain k es /\
    last (chain k es) = Some lastEntry /\
    Log_Request (firstEntry g) = Some firstRequest /\
    request = internalRequest g firstRequest lastEntry (errorMessage_of (allEntries g)).
Proof.
  intros es Hne. subst es.
  set (lines := jsonl_lines fileContent) in *.
  assert (Hlines : lines <> []) by (intros E; by rewrite E in Hne).
  destruct (parse_content_spec JSON_parse fileContent Hlines) as (reqs & Hg & Hem & Hparse).
  fold lines in Hg, Hem, Hparse.
  destruct (grouped_bound _ _ k Hg Hne) as [g Hin].
  destruct (grouped_elem _ _ k g Hg Hin) as (Hall & _ & _).
  destruct (emitted_unique _ reqs k g (proj1 Hg)
              (fun k' g' H' => proj2 (proj2 (grouped_elem _ _ k' g' Hg H'))) Hem Hin)
    as (request & (firstRequest & lastEntry & Hfirst & Hlast & Hreq) & Hfilter).
  eexists _, request, g, firstRequest, lastEntry.
  split; [exact Hparse|]. cbn [requests].
  split_and!; [exact Hfilter | exact Hall | by rewrite <- Hall | exact Hfirst | exact Hreq].
Qed.

(** C3. A retry chain of [N] entries that share a request name gives one
    request of that name.  Its [RetryInfo] counts [N] attempts, says
    [wasRetried] exactly when [N > 1], and lists the attempts numbered
    from 1 in the order of the log, each a success exactly when its status
    lies in [[200, 300)].  Its response (status, text, headers, body and
    duration) is read from the last entry of the chain alone, with the
    defaults of the source for a field the entry lacks; the duration is
    the numeral of the integer nearest to the [DurationMs] of the last
    entry, followed by ["ms"], for a [DurationMs] that rounds to an integer
    below [2^53] in size, and ["NaNms"] for an entry without [DurationMs]. *)
Theorem retry_chain_summary (fileContent : string) (k : string) :
  let entries := chain k (valid_entries JSON_parse (jsonl_lines fileContent)) in
  entries <> [] ->
  exists r request info lastEntry,
    parseStructuredJsonRequests JSON_parse (Content fileContent) = Returned r /\
    filter (fun q => name q = Some k) (requests r) = [request] /\
    retryInfo request = Some info /\
    actualAttempts info = Z.of_nat (length entries) /\
    (wasRetried info = true <-> (1 < length entries)%nat) /\
    length (attempts info) = length entries /\
    (forall i e, entries !! i = Some e ->
       exists a, attempts info !! i = Some a /\
                 attemptNumber a = Z.of_nat i + 1 /\
                 timestamp a = StartTime e /\
                 statusCode a = statusCode_of e /\
                 (success a = true <-> http_success (statusCode_of e))) /\
    last entries = Some lastEntry /\
    responseStatus request = Some (default 0 (statusCode_of lastEntry)) /\
    responseStatusText request =
      Some (Js.or_string (Log_Response lastEntry ≫= Response_ReasonPhrase) "No Response") /\
    responseHeaders request = default [] (Log_Response lastEntry ≫= Response_Headers) /\
    responseBody request = Log_Response lastEntry ≫= Response_Body /\
    (forall q n, DurationMs lastEntry = Js.Finite q -> rounds_to q n -> Z.abs n < 2 ^ 53 ->
       duration request = Some (numeral n ++ "ms")) /\
    (DurationMs lastEntry = Js.NoNumber -> duration request = Some "NaNms").
Proof.
  intros entries Hne.
  destruct (chain_request fileContent k Hne)
    as (r & request & g & firstRequest & lastEntry & Hparse & Hfilter & Hall & Hlast
        & Hfirst & Hreq).
  fold entries in Hall, Hlast.
  exists r, request. eexists _, lastEntry.
  split; [exact Hparse|]. split; [exact Hfilter|].
  rewrite Hreq. unfold internalRequest.
  cbn [retryInfo actualAttempts wasRetried attempts responseStatus responseStatusText
       responseHeaders responseBody duration].
  rewrite Hall.
  split; [reflexivity|]. cbn [actualAttempts wasRetried attempts].
  split; [reflexivity|].
  split; [rewrite Z.ltb_lt; lia|].
  split; [apply length_imap|].
  split.
  { intros i e Hi. exists (retryAttempt i e).
    rewrite list_lookup_imap, Hi. simpl.
    split_and!; try done. apply attempt_success_spec. }
  split; [exact Hlast|].
  split; [by rewrite or_num_default|].
  split; [done|]. split; [done|]. split; [done|].
  split.
  - intros q n Hq Hround Hn. apply rounded_spec in Hround.
    unfold duration_string. rewrite Hq. cbn [Js.Math_round]. fold (rounded q).
    rewrite Hround, nearest_exact, Number_toString_exact by lia. done.
  - intros Hq. unfold duration_string. by rewrite Hq.
Qed.

Lemma attempts_add_up (fileContent : string) (reqs : list InternalRequest) :
  let lines := jsonl_lines fileContent in
  let m := requestMap (first_pass JSON_parse lines) in
  grouped m (valid_entries JSON_parse lines) ->
  Forall2 emitted m.*2 reqs ->
  foldr Z.add 0 (attempt_count <$> reqs) =
  Z.of_nat (length (valid_entries JSON_parse lines)).
Proof.
  intros lines m Hg Hem.
  rewrite (emitted_attempts m (valid_entries JSON_parse lines) reqs);
    [| intros k g Hin; by destruct (grouped_elem _ _ k g Hg Hin) as (H & _) | done].
  f_equal. apply chains_cover; [apply Hg|].
  intros e He. apply (grouped_covers _ _ e Hg He), (valid_entries_named _ _ _ He).
Qed.

(** C8. A line that fails to parse as JSON, or that lacks the nested
    structured entry, or whose entry lacks a request or a response
    object, is skipped, and the other lines are processed as usual.  The
    run returns.  Every other line that holds a complete entry reaches
    the result: a request of the name of the entry lists the entry among
    its attempts, at the place of the entry among the entries of that
    name; the attempts of all requests are as many as these lines; and
    [foundHttpRequest] tells whether there is such a line.  The result is
    the one of the log without the skipped line. *)
Theorem malformed_line_is_skipped
    (fileContent : string) (before after : list string) (line : string) :
  jsonl_lines fileContent = (before ++ line :: after)%list ->
  fails_to_parse JSON_parse line \/ lacks_structured_entry JSON_parse line
  \/ incomplete_attempt JSON_parse line ->
  let es := valid_entries JSON_parse (before ++ after) in
  exists r,
    parseStructuredJsonRequests JSON_parse (Content fileContent) = Returned r /\
    (forall l e, l ∈ (before ++ after)%list -> valid_entry JSON_parse l = Some e ->
       exists k request info i a,
         entry_name e = Some k /\
         request ∈ requests r /\ name request = Some k /\
         retryInfo request = Some info /\
         chain k es !! i = Some e /\
         attempts info !! i = Some a /\
         attemptNumber a = Z.of_nat i + 1 /\
         timestamp a = StartTime e /\
         statusCode a = statusCode_of e) /\
    foldr Z.add 0 (attempt_count <$> requests r) = Z.of_nat (length es) /\
    (foundHttpRequest r = true <->
     exists l e, l ∈ (before ++ after)%list /\ valid_entry JSON_parse l = Some e) /\
    (forall fileContent',
       jsonl_lines fileContent' = (before ++ after)%list -> (before ++ after)%list <> [] ->
       parseStructuredJsonRequests JSON_parse (Content fileContent') = Returned r).
Proof.
  intros Hlines Hbad es. apply malformed_not_valid in Hbad.
  assert (Hes : valid_entries JSON_parse (jsonl_lines fileContent) = es).
  { rewrite Hlines. by apply valid_entries_skip. }
  assert (Hne : jsonl_lines fileContent <> []) by (rewrite Hlines; by destruct before).
  destruct (parse_content_spec JSON_parse fileContent Hne) as (reqs & Hg & Hem & Hparse).
  eexists. split; [exact Hparse|]. cbn [requests foundHttpRequest].
  split_and!.
  - intros l e Hl Hv.
    assert (He : e ∈ es).
    { unfold es, valid_entries. apply list_elem_of_omap. by exists l. }
    destruct (valid_entry_named JSON_parse l e Hv) as [k Hk].
    assert (Hin : e ∈ chain k es) by (by apply list_elem_of_filter).
    assert (Hchain : chain k (valid_entries JSON_parse (jsonl_lines fileContent)) <> []).
    { rewrite Hes. intros E. rewrite E in Hin. by apply elem_of_nil in Hin. }
    destruct (chain_request fileContent k Hchain)
      as (r & request & g & firstRequest & lastEntry & Hparse' & Hfilter & Hall & _ & _ & Hreq).
    rewrite Hparse in Hparse'. injection Hparse' as <-. cbn [requests] in Hfilter.
    rewrite Hes in Hall.
    apply list_elem_of_lookup_1 in Hin as [i Hi].
    exists k, request. eexists _, i, (retryAttempt i e).
    split; [exact Hk|]. split.
    { assert (H : request ∈ filter (fun q => name q = Some k) reqs) by (rewrite Hfilter; left).
      by apply list_elem_of_filter in H as [_ H]. }
    split.
    { assert (H : request ∈ filter (fun q => name q = Some k) reqs) by (rewrite Hfilter; left).
      by apply list_elem_of_filter in H as [H _]. }
    rewrite Hreq. unfold internalRequest. cbn [retryInfo attempts].
    split; [reflexivity|]. split; [exact Hi|]. cbn [attempts].
    rewrite Hall, list_lookup_imap, Hi. done.
  - rewrite <- Hes. by apply attempts_add_up.
  - rewrite Hes, bool_decide_eq_true. split.
    + intros Hnil. destruct es as [|e es'] eqn:E; [done|].
      assert (He : e ∈ valid_entries JSON_parse (before ++ after))
        by (fold es; rewrite E; left).
      apply list_elem_of_omap in He as (l & Hl & Hv). eauto.
    + intros (l & e & Hl & Hv) E.
      assert (He : e ∈ es) by (apply list_elem_of_omap; by exists l).
      rewrite E in He. by apply elem_of_nil in He.
  - intros fileContent' Hlines' Hne'.
    rewrite (parse_content JSON_parse fileContent' ltac:(by rewrite Hlines')).
    rewrite <- Hparse, (parse_content JSON_parse fileContent Hne).
    rewrite Hlines, Hlines'. unfold processLines, first_pass.
    by rewrite fold_first_pass_skip.
Qed.

(** An error string of the groups is an error string of an entry. *)
Lemma errors_in_order_elem (m : RequestMap) es e :
  (forall k g, (k, g) ∈ m -> allEntries g = chain k es) ->
  e ∈ errors_in_order m.*2 ->
  exists entry, entry ∈ es /\ e ∈ Errors entry /\ e <> "".
Proof.
  intros Hall He. unfold errors_in_order in He.
  apply list_elem_of_In, in_concat in He as (errors & Herrors & He).
  apply in_map_iff in Herrors as (g & <- & Hg).
  apply list_elem_of_In, list_elem_of_fmap in Hg as ([k g'] & -> & Hin). cbn [snd] in He.
  rewrite (Hall k g' Hin) in He. unfold group_errors in He.
  apply list_elem_of_In, list_elem_of_filter in He as [Hne He].
  apply list_elem_of_In, in_concat in He as (errs & Herrs & He).
  apply in_map_iff in Herrs as (entry & <- & Hentry).
  exists entry. split_and!; [|by apply list_elem_of_In | done].
  apply list_elem_of_In in Hentry. by apply list_elem_of_filter in Hentry as [_ H].
Qed.

(** The errors in the order of the second loop are the errors request
    after request. *)
Lemma errors_in_order_by_request (m : RequestMap) es :
  (forall k g, (k, g) ∈ m -> allEntries g = chain k es) ->
  errors_in_order m.*2 = concat (map (fun k => entry_errors (chain k es)) m.*1).
Proof.
  unfold errors_in_order. induction m as [|[k g] m IH]; intros Hall; [done|].
  rewrite !fmap_cons. cbn [map concat fst snd]. f_equal.
  - unfold entry_errors, group_errors. by rewrite (Hall k g) by left.
  - apply IH. intros k' g' H'. apply Hall. by right.
Qed.

(** C6, as the code has it.  An ingestion result that carries a
    [connectionError] and a request has the error from an entry of the
    log, and the aggregator gives the single failed result that carries
    this error string as it is; the requests that were parsed play no
    part in it.  An ingestion result that carries a [connectionError] and
    no request is that of a missing or empty log, and does not reach the
    aggregator: the result then says that no request was found. *)
Theorem connection_error_short_circuit
    (file : FileState) (r : CliParseResult) (e : string)
    (filePath : string) (tests : gmap string (list HttpTestResult)) :
  parseStructuredJsonRequests JSON_parse file = Returned r ->
  connectionError r = Some e ->
  let result := parseOutput basename_noext JSON_parse filePath tests file in
  (requests r <> [] ->
   (exists fileContent entry,
      file = Content fileContent /\
      entry ∈ valid_entries JSON_parse (jsonl_lines fileContent) /\
      e ∈ Errors entry /\ e <> "") /\
   result = buildHttpRequestResults basename_noext (basename_noext filePath) filePath r tests /\
   result = createFailedResult basename_noext filePath e /\
   single_failed_result result e) /\
  (requests r = [] ->
   (file = Missing \/
    exists fileContent, file = Content fileContent /\ jsonl_lines fileContent = []) /\
   result = createFailedResult basename_noext filePath
              "No HTTP requests found in structured JSON files").
Proof.
  intros Hparse Hce result.
  pose proof (parse_connectionError_nonempty JSON_parse file r e Hparse Hce) as Hne.
  destruct file as [|err|fileContent]; [| done |].
  - injection Hparse as <-. split; [done|]. intros _. split; [by left | done].
  - destruct (decide (jsonl_lines fileContent = [])) as [Hnil|Hlines].
    + assert (Hr : r = {| requests := []; connectionError := Some "Empty JSONL file";
                          foundHttpRequest := false |}).
      { simpl in Hparse. rewrite Hnil in Hparse. by injection Hparse as <-. }
      subst r. split; [done|]. intros _. split; [right; eauto|].
      subst result. unfold parseOutput. simpl. by rewrite Hnil.
    + destruct (parse_content_spec JSON_parse fileContent Hlines) as (reqs & Hg & Hem & Hr).
      rewrite Hparse in Hr. injection Hr as ->. cbn [connectionError requests] in *.
      rewrite Hce in Hparse.
      assert (Hin : e ∈ errors_in_order
                      (requestMap (first_pass JSON_parse (jsonl_lines fileContent))).*2).
      { destruct (errors_in_order _) as [|e' l]; [done|]. injection Hce as ->. left. }
      destruct (errors_in_order_elem _ _ e
                  (fun k g H => proj1 (grouped_elem _ _ k g Hg H)) Hin)
        as (entry & Hentry & Herr & _).
      assert (Hreqs : reqs <> []).
      { apply Forall2_length in Hem. rewrite length_fmap in Hem.
        intros ->. destruct (requestMap _) as [|p m]; [|done].
        by apply elem_of_nil in Hin. }
      split; [|done]. intros _. rewrite Hce.
      assert (Hres : result = buildHttpRequestResults basename_noext
                                (basename_noext filePath) filePath
                                {| requests := reqs; connectionError := Some e;
                                   foundHttpRequest :=
                                     bool_decide (valid_entries JSON_parse
                                                    (jsonl_lines fileContent) <> []) |} tests).
      { subst result. unfold parseOutput. rewrite Hparse. cbn [requests].
        destruct reqs as [|q0 qs]; [done | reflexivity]. }
      split; [by exists fileContent, entry|]. split; [exact Hres|].
      rewrite Hres. erewrite build_short_circuit; [|reflexivity | exact Hne].
      split; [done | apply createFailedResult_single].
Qed.

(** C10. If an entry of the log carries an error string that is not
    empty, ingestion sets [connectionError] to the first such error,
    request after request in the order in which the names first appear
    and attempt after attempt for each request; and the aggregation gives
    the single failed result with that error instead of the requests,
    which were parsed, whatever the statuses of their final attempts. *)
Theorem entry_error_hides_requests (fileContent : string) :
  let es := valid_entries JSON_parse (jsonl_lines fileContent) in
  (exists entry err, entry ∈ es /\ err ∈ Errors entry /\ err <> "") ->
  exists r e,
    parseStructuredJsonRequests JSON_parse (Content fileContent) = Returned r /\
    head (errors_by_request es) = Some e /\
    connectionError r = Some e /\
    name <$> requests r = Some <$> first_names es /\
    forall filePath tests,
      parseOutput basename_noext JSON_parse filePath tests (Content fileContent) =
        createFailedResult basename_noext filePath e /\
      single_failed_result
        (parseOutput basename_noext JSON_parse filePath tests (Content fileContent)) e.
Proof.
  intros es (entry & err & Hentry & Herr & Hne).
  assert (Hlines : jsonl_lines fileContent <> []).
  { intros E. subst es. rewrite E in Hentry. by apply elem_of_nil in Hentry. }
  destruct (parse_content_spec JSON_parse fileContent Hlines) as (reqs & Hg & Hem & Hparse).
  fold es in Hg.
  set (m := requestMap (first_pass JSON_parse (jsonl_lines fileContent))) in *.
  assert (Hall : forall k g, (k, g) ∈ m -> allEntries g = chain k es)
    by (intros k g H; apply (grouped_elem _ _ k g Hg H)).
  assert (Horder : errors_in_order m.*2 = errors_by_request es).
  { rewrite (errors_in_order_by_request m es Hall). unfold errors_by_request, es.
    by rewrite <- (first_pass_keys JSON_parse). }
  assert (Hin : err ∈ errors_by_request es).
  { destruct (valid_entries_named JSON_parse _ entry Hentry) as [k Hk].
    assert (Hchain : entry ∈ chain k es) by (by apply list_elem_of_filter).
    destruct (grouped_bound m es k Hg) as [g Hkg].
    { intros E. rewrite E in Hchain. by apply elem_of_nil in Hchain. }
    rewrite <- Horder. unfold errors_in_order.
    apply list_elem_of_In, in_concat. exists (group_errors (allEntries g)). split.
    - apply in_map_iff. exists g. split; [done|].
      apply list_elem_of_In, list_elem_of_fmap. by exists (k, g).
    - rewrite (Hall k g Hkg). apply list_elem_of_In, list_elem_of_filter. split; [done|].
      apply list_elem_of_In, in_concat. exists (Errors entry).
      split; [|by apply list_elem_of_In].
      apply in_map_iff. exists entry. split; [done | by apply list_elem_of_In]. }
  destruct (errors_by_request es) as [|e errors] eqn:Herrors;
    [by apply elem_of_nil in Hin|].
  rewrite Horder in Hparse. cbn [head] in Hparse.
  assert (He : e <> "").
  { by apply (parse_connectionError_nonempty JSON_parse _ _ e Hparse). }
  eexists _, e. split; [exact Hparse|]. cbn [connectionError requests].
  split; [done|]. split; [done|].
  split.
  { unfold es. rewrite <- (first_pass_keys JSON_parse). apply emitted_names; [|done].
    intros k g H. by destruct (grouped_elem _ _ k g Hg H) as (_ & _ & H'). }
  intros filePath tests.
  assert (Hout : parseOutput basename_noext JSON_parse filePath tests (Content fileContent) =
                 createFailedResult basename_noext filePath e).
  { unfold parseOutput. rewrite Hparse. cbn [requests foundHttpRequest].
    assert (Hes : es <> []) by (intros E; rewrite E in Hentry; by apply elem_of_nil in Hentry).
    rewrite (bool_decide_eq_true_2 _ Hes), andb_false_r.
    by apply build_short_circuit. }
  split; [exact Hout|]. rewrite Hout. apply createFailedResult_single.
Qed.

End IngestionClaims.

(** ** Aggregation: the duration of the group *)

Section GroupDuration.

Import StructuredJsonParser TeaPieExecutor.
Variable basename_noext : string -> string.
Variable JSON_parse : string -> JsonParsed.

Lemma replace_ms_suffix (s : string) :
  digit_string s -> Js.replace (s ++ "ms") "ms" "" = s.
Proof.
  induction 1 as [|c s Hc Hs IH]; [done|].
  assert (Hm : c <> "m"%char) by (intros ->; not_a_digit Hc).
  change (String c s ++ "ms") with (String c (s ++ "ms")).
  cbn [Js.replace String.prefix].
  destruct (ascii_dec "m" c) as [E|_]; [by symmetry in E|].
  by rewrite IH.
Qed.

Lemma decimal_ms_replaced (n : Z) :
  Js.replace (Js.decimal n ++ "ms") "ms" "" = Js.decimal n.
Proof.
  unfold Js.decimal. destruct n as [|p|p]; [vm_compute; reflexivity|..]; simpl.
  - rewrite string_of_pos. apply replace_ms_suffix, string_of_uint_digits.
  - rewrite string_of_pos. f_equal. apply replace_ms_suffix, string_of_uint_digits.
Qed.

(** The milliseconds that the aggregator reads in a duration that
    ingestion wrote. *)
Lemma duration_read_back (n : Z) :
  Z.abs n <= 2 ^ 53 ->
  Js.or_number (Js.parseInt_number (Js.replace (numeral n ++ "ms") "ms" "")) (Js.Int 0)
  = Js.Int n.
Proof.
  intros Hn. change (numeral n) with (Js.decimal n).
  rewrite decimal_ms_replaced. unfold Js.parseInt_number.
  rewrite parseInt_decimal, nearest_exact by done. simpl.
  by destruct (Z.eqb_spec n 0) as [->|].
Qed.

Lemma abs_total_nonneg (ns : list Z) : 0 <= foldr Z.add 0 (Z.abs <$> ns).
Proof. induction ns as [|n ns IH]; [done|]. rewrite fmap_cons. simpl. lia. Qed.

Lemma abs_total_bounds (ns : list Z) (n : Z) :
  n ∈ ns -> Z.abs n <= foldr Z.add 0 (Z.abs <$> ns).
Proof.
  induction ns as [|n' ns IH]; intros Hin; [by apply elem_of_nil in Hin|].
  rewrite fmap_cons. simpl. pose proof (abs_total_nonneg ns).
  apply elem_of_cons in Hin as [->|Hin]; [lia|]. specialize (IH Hin). lia.
Qed.

(** The sum of the loop, as long as it stays an integer that a number
    holds exactly. *)
Lemma fold_durations (read : HttpRequestResult -> Js.number)
    (rs : list HttpRequestResult) (ns : list Z) (a : Z) :
  Forall2 (fun r n => read r = Js.Int n) rs ns ->
  Z.abs a + foldr Z.add 0 (Z.abs <$> ns) <= 2 ^ 53 ->
  fold_left (fun total r => Js.add total (read r)) rs (Js.Int a) =
  Js.Int (a + foldr Z.add 0 ns).
Proof.
  intros H. revert a. induction H as [|r n rs ns Hr _ IH]; intros a Hbound.
  - simpl. by rewrite Z.add_0_r.
  - rewrite fmap_cons in Hbound. cbn [fold_left foldr] in *.
    pose proof (abs_total_nonneg ns).
    rewrite Hr, add_exact by lia. rewrite IH by lia. f_equal. lia.
Qed.

Lemma built_durations (build : nat -> InternalRequest -> HttpRequestResult)
    (requests : list InternalRequest) (ns : list Z) :
  (forall i q, Duration (build i q) = Js.or_string (duration q) "0ms") ->
  Forall2 (fun q n => duration q = Some (numeral n ++ "ms") /\ Z.abs n <= 2 ^ 53)
    requests ns ->
  Forall2
    (fun r n =>
       Js.or_number (Js.parseInt_number (Js.replace (Duration r) "ms" "")) (Js.Int 0)
       = Js.Int n)
    (imap build requests) ns.
Proof.
  intros Hb H. revert build Hb.
  induction H as [|q n requests ns [Hq Hn] _ IH]; intros build Hb; [constructor|].
  rewrite imap_cons. constructor; [|apply IH; intros i; apply Hb].
  rewrite Hb, Hq. cbn [Js.or_string].
  assert (Hne : String.eqb (numeral n ++ "ms") "" = false)
    by (by destruct (numeral n)).
  rewrite Hne. by apply duration_read_back.
Qed.

(** The durations that ingestion writes as a numeral followed by ["ms"]
    are read back by the aggregator, and the duration of the group is
    their sum, printed the same way; the pseudo-request of the global
    bucket adds nothing. *)
Lemma group_duration_of_rounded tests (requests : list InternalRequest) (ns : list Z) :
  Forall2 (fun q n => duration q = Some (numeral n ++ "ms") /\ Z.abs n <= 2 ^ 53)
    requests ns ->
  foldr Z.add 0 (Z.abs <$> ns) < 2 ^ 53 ->
  group_duration (imap (build_request tests) requests ++ custom_request tests)%list =
  numeral (foldr Z.add 0 ns) ++ "ms".
Proof.
  intros H Hbound. unfold group_duration. rewrite fold_left_app.
  rewrite (fold_durations _ _ ns 0
             (built_durations (build_request tests) requests ns (fun _ _ => eq_refl) H))
    by (simpl; lia).
  rewrite Z.add_0_l.
  assert (Hsum : Z.abs (foldr Z.add 0 ns) <= foldr Z.add 0 (Z.abs <$> ns)).
  { clear. induction ns as [|n ns IH]; [done|]. rewrite fmap_cons. simpl. lia. }
  assert (Hcustom :
    fold_left
      (fun total r =>
         Js.add total
           (Js.or_number (Js.parseInt_number (Js.replace (Duration r) "ms" "")) (Js.Int 0)))
      (custom_request tests) (Js.Int (foldr Z.add 0 ns))
    = Js.Int (foldr Z.add 0 ns)).
  { unfold custom_request. destruct (tests !! XmlTestParser.CUSTOM_CSX_TESTS) as [l|]; [|done].
    destruct (0 <? length l)%nat; [|done]. cbn [fold_left Duration].
    change (Js.or_number (Js.parseInt_number (Js.replace "0ms" "ms" "")) (Js.Int 0))
      with (Js.Int 0).
    rewrite add_exact by lia. f_equal. lia. }
  rewrite Hcustom, Number_toString_exact by lia. done.
Qed.

Lemma emitted_durations (m : RequestMap) es (requests : list InternalRequest) :
  (forall k g, (k, g) ∈ m -> allEntries g = chain k es) ->
  Forall timed es ->
  (forall k, k ∈ m.*1 -> Z.abs (final_duration es k) < 2 ^ 53) ->
  Forall2 emitted m.*2 requests ->
  Forall2 (fun q n => duration q = Some (numeral n ++ "ms") /\ Z.abs n <= 2 ^ 53)
    requests (final_duration es <$> m.*1).
Proof.
  intros Hall Htimed. revert requests.
  induction m as [|[k g] m IH]; intros requests Hbound Hem.
  - apply Forall2_nil_inv_l in Hem as ->. constructor.
  - rewrite fmap_cons in Hem. apply Forall2_cons_inv_l in Hem as (q & rest & Hq & Hrest & ->).
    rewrite !fmap_cons. constructor.
    + destruct Hq as (fr & le & _ & Hlast & ->).
      specialize (Hbound k (list_elem_of_here _ _)).
      unfold final_duration in *. cbn [fst snd] in *.
      rewrite <- (Hall k g) in * by left. rewrite Hlast in *. cbn [from_option] in *.
      assert (Hle : le ∈ es).
      { apply last_Some in Hlast as [l' Hl']. 
        assert (Hin : le ∈ allEntries g) by (rewrite Hl'; apply elem_of_app; right; left).
        rewrite (Hall k g) in Hin by left. by apply list_elem_of_filter in Hin as [_ Hin]. }
      rewrite Forall_forall in Htimed. destruct (Htimed le Hle) as [d Hd].
      unfold rounded_duration in *. rewrite Hd in *.
      split; [|lia]. unfold internalRequest. cbn [duration].
      unfold duration_string. rewrite Hd. cbn [Js.Math_round].
      fold (rounded d). rewrite nearest_exact, Number_toString_exact by lia. done.
    + apply IH; [|intros k' Hk'; apply Hbound; by right|done].
      intros k' g' H'. apply Hall. by right.
Qed.

(** X8. For a log without error strings whose entries have finite
    durations, the duration of the group is the sum, over the request
    names in order of first appearance, of the rounded duration of the
    last attempt of each, followed by ["ms"]: the durations of earlier
    attempts of a retry chain are not counted.  The sizes of the rounded
    durations add up to less than [2^53], so that every number of the
    computation is an integer that is held exactly. *)
Theorem group_duration_sums_final_attempts (fileContent filePath : string)
    (tests : gmap string (list HttpTestResult)) :
  let es := valid_entries JSON_parse (jsonl_lines fileContent) in
  let durations := final_duration es <$> first_names es in
  es <> [] ->
  Forall error_free es ->
  Forall timed es ->
  foldr Z.add 0 (Z.abs <$> durations) < 2 ^ 53 ->
  exists g,
    RequestGroup (parseOutput basename_noext JSON_parse filePath tests (Content fileContent))
      = [g] /\
    Group_Duration g = numeral (foldr Z.add 0 durations) ++ "ms".
Proof.
  intros es durations Hes Hfree Htimed Hbound. subst es durations.
  assert (Hlines : jsonl_lines fileContent <> []) by (intros E; by rewrite E in Hes).
  destruct (parse_content_spec JSON_parse fileContent Hlines) as (reqs & Hg & Hem & Hparse).
  destruct (connection_error_unset JSON_parse fileContent Hlines)
    as (r & Hr & Hiff & _).
  rewrite Hparse in Hr. injection Hr as <-. cbn [connectionError] in Hiff.
  apply Hiff in Hfree.
  unfold parseOutput. rewrite Hparse. cbn [requests foundHttpRequest].
  rewrite (bool_decide_eq_true_2 _ Hes), andb_false_r.
  unfold buildHttpRequestResults. cbn [connectionError requests]. rewrite Hfree.
  cbn [Js.truthy_string]. eexists. split; [reflexivity|]. cbn [Group_Duration].
  rewrite <- first_pass_keys in *. apply group_duration_of_rounded; [|done].
  apply emitted_durations; [|done| |done].
  - intros k g Hin. by destruct (grouped_elem _ _ k g Hg Hin) as (H & _).
  - intros k Hk. eapply Z.le_lt_trans; [|exact Hbound].
    apply abs_total_bounds. apply list_elem_of_fmap. by exists k.
Qed.

End GroupDuration.

(** ** Aggregation: the results of a log *)

Section ResultsOfALog.

Import StructuredJsonParser TeaPieExecutor.
Variable basename_noext : string -> string.
Variable JSON_parse : string -> JsonParsed.

Lemma built_names (build : nat -> InternalRequest -> HttpRequestResult)
    (number : nat -> Z) (requests : list InternalRequest) (ks : list string) :
  (forall i q, Name (build i q) =
               Js.or_string (name q) ("Request " ++ Js.string_of_number (number i))) ->
  name <$> requests = Some <$> ks ->
  Name <$> imap build requests =
  imap (fun i k => if String.eqb k "" then "Request " ++ Js.string_of_number (number i) else k) ks.
Proof.
  revert build number ks.
  induction requests as [|q requests IH]; intros build number [|k ks] Hb H; try done.
  rewrite !fmap_cons in H. injection H as Hq Hrest.
  rewrite !imap_cons, fmap_cons. f_equal.
  - by rewrite Hb, Hq.
  - apply (IH (build ∘ S) (number ∘ S)); [|done]. intros i q'. apply Hb.
Qed.

(** X9. For a log without error strings, the group holds one result for each
    distinct request name of the log, in the order in which the names
    first appear, under that name, or under [Request] and its position
    counted from one when the name is empty; the block of the other tests
    comes after them when the global bucket holds a test. *)
Theorem results_follow_the_log (fileContent filePath : string)
    (tests : gmap string (list HttpTestResult)) :
  let es := valid_entries JSON_parse (jsonl_lines fileContent) in
  es <> [] ->
  Forall error_free es ->
  exists g,
    RequestGroup (parseOutput basename_noext JSON_parse filePath tests (Content fileContent))
      = [g] /\
    Name <$> Group_Requests g =
      (imap (fun i k => if String.eqb k ""
                        then ("Request " ++ Js.string_of_number (Z.of_nat i + 1))%string
                        else k)
         (first_names es)
       ++ match tests !! XmlTestParser.CUSTOM_CSX_TESTS with
          | Some (_ :: _) => ["Custom CSX Tests"]
          | _ => []
          end)%list.
Proof.
  intros es Hes Hfree. subst es.
  assert (Hlines : jsonl_lines fileContent <> []) by (intros E; by rewrite E in Hes).
  destruct (parse_content_spec JSON_parse fileContent Hlines) as (reqs & Hg & Hem & Hparse).
  destruct (connection_error_unset JSON_parse fileContent Hlines) as (r & Hr & Hiff & _).
  rewrite Hparse in Hr. injection Hr as <-. cbn [connectionError] in Hiff.
  apply Hiff in Hfree.
  unfold parseOutput. rewrite Hparse. cbn [requests foundHttpRequest].
  rewrite (bool_decide_eq_true_2 _ Hes), andb_false_r.
  unfold buildHttpRequestResults. cbn [connectionError requests]. rewrite Hfree.
  cbn [Js.truthy_string]. eexists. split; [reflexivity|]. cbn [Group_Requests].
  rewrite fmap_app. f_equal.
  - rewrite <- first_pass_keys.
    apply (built_names (build_request tests) (fun i => Z.of_nat i + 1)); [done|].
    apply emitted_names; [|done]. intros k g Hin.
    by destruct (grouped_elem _ _ k g Hg Hin) as (_ & _ & H).
  - unfold custom_request. destruct (tests !! XmlTestParser.CUSTOM_CSX_TESTS) as [[|t ts]|]; done.
Qed.

End ResultsOfALog.

(** ** Ingestion: the lines of the log *)

Section LogLines.

Import StructuredJsonParser.

Lemma trim_start_length s : (String.length (Js.trim_start s) <= String.length s)%nat.
Proof.
  induction s as [|c s IH]; simpl; [lia|]. destruct (Js.is_space c); simpl; lia.
Qed.

Lemma trim_end_length s : (String.length (Js.trim_end s) <= String.length s)%nat.
Proof.
  induction s as [|c s IH]; simpl; [lia|].
  destruct (Js.trim_end s); [destruct (Js.is_space c)|]; simpl in *; lia.
Qed.

(** A string that [trim] leaves alone starts and ends with a character
    that is not white space. *)
Lemma trim_fixed s :
  Js.trim s = s -> Js.trim_start s = s /\ Js.trim_end s = s.
Proof.
  unfold Js.trim. intros H.
  assert (Hs : Js.trim_start s = s).
  { destruct s as [|c s]; [done|]. simpl in *. destruct (Js.is_space c); [|done].
    pose proof (trim_end_length (Js.trim_start s)).
    pose proof (trim_start_length s).
    apply (f_equal String.length) in H. simpl in H. lia. }
  split; [done|]. by rewrite Hs in H.
Qed.

Lemma trim_start_head c s :
  Js.trim_start (String c s) = String c s -> Js.is_space c = false.
Proof.
  simpl. destruct (Js.is_space c); [|done]. intros H.
  pose proof (trim_start_length s). apply (f_equal String.length) in H. simpl in H. lia.
Qed.

Lemma trim_start_app_tight s t :
  s <> "" -> Js.trim_start s = s -> Js.trim_start (s ++ t) = s ++ t.
Proof.
  destruct s as [|c s]; [done|]. intros _ H.
  apply trim_start_head in H. simpl. by rewrite H.
Qed.

Lemma trim_end_spaces ws : all_chars (fun c => Js.is_space c = true) ws -> Js.trim_end ws = "".
Proof.
  induction ws as [|c ws IH]; [done|]. intros [Hc Hws]. simpl. by rewrite IH, Hc.
Qed.

Lemma trim_start_spaces ws :
  all_chars (fun c => Js.is_space c = true) ws -> Js.trim_start ws = "".
Proof. induction ws as [|c ws IH]; [done|]. intros [Hc Hws]. simpl. by rewrite Hc, IH. Qed.

Lemma trim_end_app_spaces s ws :
  all_chars (fun c => Js.is_space c = true) ws -> Js.trim_end (s ++ ws) = Js.trim_end s.
Proof.
  intros Hws. induction s as [|c s IH]; [by apply trim_end_spaces|].
  change (String c s ++ ws) with (String c (s ++ ws)). simpl. by rewrite IH.
Qed.

Lemma trim_end_app_tight s t :
  t <> "" -> Js.trim_end t = t -> Js.trim_end (s ++ t) = s ++ t.
Proof.
  intros Hne Ht. induction s as [|c s IH]; [done|].
  change (String c s ++ t) with (String c (s ++ t)). simpl. rewrite IH.
  destruct (s ++ t) eqn:E; [|done]. by destruct s, t.
Qed.

Lemma split_lines_single l :
  all_chars (fun c => c <> "010"%char) l -> Js.split_lines l = [l].
Proof.
  induction l as [|c l IH]; [done|]. intros [Hc Hl]. simpl.
  destruct (Ascii.eqb_spec c "010"); [done|]. by rewrite IH.
Qed.

Lemma split_lines_cons l rest :
  all_chars (fun c => c <> "010"%char) l ->
  Js.split_lines (l ++ String "010" rest) = l :: Js.split_lines rest.
Proof.
  induction l as [|c l IH]; [done|]. intros [Hc Hl].
  change (String c l ++ String "010" rest) with (String c (l ++ String "010" rest)).
  simpl. destruct (Ascii.eqb_spec c "010"); [done|]. by rewrite IH.
Qed.

Lemma concat_lines_cons l l' (lines : list string) :
  String.concat (String "010" "") (l :: l' :: lines) =
  l ++ String "010" (String.concat (String "010" "") (l' :: lines)).
Proof. reflexivity. Qed.

Lemma split_lines_concat (lines : list string) :
  lines <> [] ->
  Forall (all_chars (fun c => c <> "010"%char)) lines ->
  Js.split_lines (String.concat (String "010" "") lines) = lines.
Proof.
  intros Hne H. induction H as [|l lines Hl Hlines IH]; [done|].
  destruct lines as [|l' lines]; [by apply split_lines_single|].
  rewrite concat_lines_cons, split_lines_cons by done. f_equal. by apply IH.
Qed.

Lemma concat_tight (lines : list string) l :
  Forall written_line (l :: lines) ->
  let s := String.concat (String "010" "") (l :: lines) in
  s <> "" /\ Js.trim_start s = s /\ Js.trim_end s = s.
Proof.
  intros H. cbv zeta. revert l H. induction lines as [|l' lines IH]; intros l H.
  - apply Forall_cons in H as [(Hne & Htrim & _) _]. cbn [String.concat].
    by destruct (trim_fixed l Htrim).
  - apply Forall_cons in H as [(Hne & Htrim & _) H].
    destruct (IH l' H) as (Hne' & _ & Hend). destruct (trim_fixed l Htrim) as [Hstart _].
    rewrite concat_lines_cons. split_and!.
    + by destruct l.
    + by apply trim_start_app_tight.
    + apply trim_end_app_tight; [done|].
      cbn [Js.trim_end]. rewrite Hend.
      by destruct (String.concat (String "010" "") (l' :: lines)).
Qed.

(** X10. Lines written one after the other, separated by a line feed and
    followed by any white space (a final line feed, say), are read back as
    they were written: no line is lost, split or added. *)
Theorem written_lines_are_read_back (lines : list string) (ws : string) :
  Forall written_line lines ->
  all_chars (fun c => Js.is_space c = true) ws ->
  jsonl_lines (String.concat (String "010" "") lines ++ ws) = lines.
Proof.
  intros Hlines Hws.
  assert (Htrim : Js.trim (String.concat (String "010" "") lines ++ ws) =
                  String.concat (String "010" "") lines).
  { unfold Js.trim. destruct lines as [|l lines].
    - simpl. by rewrite trim_start_spaces.
    - destruct (concat_tight lines l Hlines) as (Hne & Hstart & Hend).
      by rewrite trim_start_app_tight, trim_end_app_spaces, Hend. }
  unfold jsonl_lines. rewrite Htrim.
  destruct lines as [|l lines]; [done|].
  rewrite split_lines_concat; [| done |].
  - clear -Hlines. induction Hlines as [|x xs (Hx & Htrim & _) _ IH]; [done|].
    rewrite filter_cons_True by (by rewrite Htrim). by rewrite IH.
  - eapply Forall_impl; [exact Hlines|]. by intros x (_ & _ & Hx).
Qed.

End LogLines.

(** ** The report: how long the waiter waits *)

Section WaiterTiming.

Import XmlTestParser.

Variable stat_mtime : Z -> outcome Z.

(** The waiter on a clock on which [fs.stat] answers at once and a timer
    fires exactly when its delay has passed. *)
Local Abbreviation wait_loop_exact := (wait_loop stat_mtime (fun t => t) Z.add).
Local Abbreviation waitForXmlReportUpdate_exact :=
  (waitForXmlReportUpdate stat_mtime (fun t => t) Z.add).

Lemma wait_loop_sees_update n beforeTimestamp maxWaitTime startTime u w :
  (forall t, u <= t -> exists m, stat_mtime t = Returned m /\ beforeTimestamp < m) ->
  u + 100 <= startTime + maxWaitTime ->
  now w < u + 100 ->
  u - now w <= 100 * Z.of_nat n ->
  exists w',
    wait_loop_exact (S n) beforeTimestamp maxWaitTime startTime w = (Returned (Some tt), w') /\
    now w' < u + 150 /\ channel w' = channel w.
Proof.
  intros Hupd Hbudget. revert w. induction n as [|n IH]; intros w Hnow Hfuel.
  - destruct (Hupd (now w)) as (m & Hstat & Hnew); [lia|].
    rewrite (wait_loop_updated _ _ _ _ _ _ _ _ m) by (done || lia).
    eexists. split; [reflexivity|]. simpl. split; [lia | done].
  - destruct (stat_mtime (now w)) as [m|e] eqn:Hstat.
    + destruct (Z.lt_ge_cases beforeTimestamp m) as [Hnew|Hold].
      * rewrite (wait_loop_updated _ _ _ _ _ _ _ _ m) by (done || lia).
        eexists. split; [reflexivity|]. simpl. split; [lia | done].
      * assert (now w < u).
        { destruct (Z.lt_ge_cases (now w) u) as [|Hge]; [done|].
          destruct (Hupd (now w) Hge) as (m' & Hm' & ?). rewrite Hstat in Hm'.
          injection Hm' as <-. lia. }
        rewrite wait_loop_continue; [|lia|].
        -- destruct (IH (mkWorld (now w + 100) (channel w))) as (w' & Hw' & ? & ?);
             [simpl; lia..|]. eauto.
        -- intros c Hc. rewrite Hstat in Hc. injection Hc as <-. lia.
    + assert (now w < u).
      { destruct (Z.lt_ge_cases (now w) u) as [|Hge]; [done|].
        destruct (Hupd (now w) Hge) as (m' & Hm' & ?). by rewrite Hstat in Hm'. }
      rewrite wait_loop_continue; [|lia|].
      * destruct (IH (mkWorld (now w + 100) (channel w))) as (w' & Hw' & ? & ?);
          [simpl; lia..|]. eauto.
      * intros c Hc. by rewrite Hstat in Hc.
Qed.

(** X11. On an exact clock, when the report is newer than the baseline from
    time [u] on, and a poll falls between [u] and the end of the wait, the
    waiter returns less than 150 ms after [u] (at most one polling interval
    and the settling delay) and writes no warning. *)
Theorem waiter_sees_update (beforeTimestamp maxWaitMs u : Z) (w : World) :
  (forall t, u <= t -> exists m, stat_mtime t = Returned m /\ beforeTimestamp < m) ->
  now w <= u ->
  u + 100 <= now w + maxWaitMs ->
  exists w',
    waitForXmlReportUpdate_exact (S (Z.to_nat (u - now w))) beforeTimestamp maxWaitMs w
      = (Returned (Some tt), w') /\
    now w' < u + 150 /\ channel w' = channel w.
Proof.
  intros Hupd Hstart Hbudget.
  unfold XmlTestParser.waitForXmlReportUpdate, mbind at 1, Date_now.
  apply (wait_loop_sees_update _ _ _ _ u); [done | done | lia | lia].
Qed.

Lemma wait_loop_times_out n beforeTimestamp maxWaitTime startTime w :
  (forall t m, stat_mtime t = Returned m -> m <= beforeTimestamp) ->
  now w - startTime < maxWaitTime + 100 ->
  maxWaitTime - (now w - startTime) <= 100 * Z.of_nat n ->
  exists w',
    wait_loop_exact (S n) beforeTimestamp maxWaitTime startTime w = (Returned (Some tt), w') /\
    maxWaitTime <= now w' - startTime < maxWaitTime + 100 /\
    channel w' = (channel w ++ [wait_warning maxWaitTime])%list.
Proof.
  intros Hold. revert w. induction n as [|n IH]; intros w Hnow Hfuel.
  - rewrite wait_loop_timeout by lia. eexists. split; [reflexivity|]. simpl.
    split; [lia | done].
  - destruct (Z.lt_ge_cases (now w - startTime) maxWaitTime) as [Hin|Hout].
    + rewrite wait_loop_continue; [|done|by apply Hold].
      destruct (IH (mkWorld (now w + 100) (channel w))) as (w' & Hw' & ? & ?);
        [simpl; lia..|]. eauto.
    + rewrite wait_loop_timeout by lia. eexists. split; [reflexivity|]. simpl.
      split; [lia | done].
Qed.

(** X12. On an exact clock, when the report never becomes newer than the
    baseline (or is never there), the waiter returns at the first poll at
    or after the end of the wait, so less than one polling interval late,
    and the one line it writes is the warning. *)
Theorem waiter_times_out (beforeTimestamp maxWaitMs : Z) (w : World) :
  (forall t m, stat_mtime t = Returned m -> m <= beforeTimestamp) ->
  0 <= maxWaitMs ->
  exists w',
    waitForXmlReportUpdate_exact (S (Z.to_nat maxWaitMs)) beforeTimestamp maxWaitMs w
      = (Returned (Some tt), w') /\
    maxWaitMs <= now w' - now w < maxWaitMs + 100 /\
    channel w' = (channel w ++ [wait_warning maxWaitMs])%list.
Proof.
  intros Hold Hpos.
  unfold XmlTestParser.waitForXmlReportUpdate, mbind at 1, Date_now.
  apply wait_loop_times_out; [done | lia | lia].
Qed.

End WaiterTiming.

Section WaiterChannel.

Import XmlTestParser.

Variable stat_mtime : Z -> outcome Z.
Variable stat_done : Z -> Z.
Variable timer_done : Z -> Z -> Z.

Lemma wait_loop_channel fuel beforeTimestamp maxWaitTime startTime w :
  let result := wait_loop stat_mtime stat_done timer_done fuel
                  beforeTimestamp maxWaitTime startTime w in
  channel (snd result) = channel w \/
  (channel (snd result) = (channel w ++ [wait_warning maxWaitTime])%list /\
   exists t, t - startTime >= maxWaitTime /\ now (snd result) = t).
Proof.
  cbv zeta. revert w. induction fuel as [|fuel IH]; intros w; [by left|].
  destruct (Z.lt_ge_cases (now w - startTime) maxWaitTime) as [Hin|Hout].
  - destruct (stat_mtime (now w)) as [m|e] eqn:Hstat.
    + destruct (Z.lt_ge_cases beforeTimestamp m) as [Hnew|Hold].
      * rewrite (wait_loop_updated _ _ _ _ _ _ _ _ m) by done. by left.
      * rewrite wait_loop_continue; [| done |].
        -- apply (IH (mkWorld (timer_done (stat_done (now w)) 100) (channel w))).
        -- intros c Hc. rewrite Hstat in Hc. injection Hc as <-. lia.
    + rewrite wait_loop_continue; [| done |].
      * apply (IH (mkWorld (timer_done (stat_done (now w)) 100) (channel w))).
      * intros c Hc. by rewrite Hstat in Hc.
  - rewrite wait_loop_timeout by lia. right. split; [done|].
    exists (now w). simpl. split; [lia | done].
Qed.

(** X13. Whatever the file system and the clock do, the waiter writes nothing
    to the output channel, or the warning alone; and it writes the warning
    only once the time is up. *)
Theorem waiter_writes_at_most_the_warning (fuel : nat) (beforeTimestamp maxWaitMs : Z)
    (w : World) :
  let result := waitForXmlReportUpdate stat_mtime stat_done timer_done fuel
                  beforeTimestamp maxWaitMs w in
  channel (snd result) = channel w \/
  (channel (snd result) = (channel w ++ [wait_warning maxWaitMs])%list /\
   maxWaitMs <= now (snd result) - now w).
Proof.
  cbv zeta.
  change (waitForXmlReportUpdate stat_mtime stat_done timer_done fuel
            beforeTimestamp maxWaitMs w)
    with (wait_loop stat_mtime stat_done timer_done fuel
            beforeTimestamp maxWaitMs (now w) w).
  destruct (wait_loop_channel fuel beforeTimestamp maxWaitMs (now w) w) as [H|(H & t & Ht & Hnow)].
  - by left.
  - right. split; [done|]. rewrite Hnow. lia.
Qed.

End WaiterChannel.

(** ** A run of the command that fails *)

Section ExecutionFailures.

Import ExecutionFailure TeaPieExecutor.

Variable match_Reason match_Details match_refused match_host match_exception
  : string -> option string.

Local Abbreviation extract :=
  (extractTeaPieError match_Reason match_Details match_refused match_host match_exception).

Lemma prefix_app_l (sub s t : string) :
  String.prefix sub s = true -> String.prefix sub (s ++ t) = true.
Proof.
  revert s. induction sub as [|c sub IH]; intros s H; [by destruct (s ++ t)|].
  destruct s as [|d s]; [done|]. simpl in *.
  destruct (ascii_dec c d); [by apply IH | done].
Qed.

Lemma includes_prefix (s sub : string) :
  String.prefix sub s = true -> Js.includes s sub = true.
Proof. intros H. destruct s; simpl in *; by rewrite H. Qed.

Lemma includes_app_l (s t sub : string) :
  Js.includes s sub = true -> Js.includes (s ++ t) sub = true.
Proof.
  induction s as [|c s IH]; intros H.
  - destruct sub; [|simpl in H; discriminate].
    destruct t; reflexivity.
  - change (String c s ++ t) with (String c (s ++ t)).
    cbn [Js.includes] in *. apply orb_true_iff in H as [H|H].
    + change (String c (s ++ t)) with (String c s ++ t).
      by rewrite (prefix_app_l _ _ t H).
    + rewrite (IH H). apply orb_true_r.
Qed.

Lemma includes_app_r (s t sub : string) :
  Js.includes t sub = true -> Js.includes (s ++ t) sub = true.
Proof.
  intros H. induction s as [|c s IH]; [done|].
  change (String c s ++ t) with (String c (s ++ t)).
  cbn [Js.includes]. rewrite IH. apply orb_true_r.
Qed.

(** A message in the form [Reason: ... Details: ...] is left as it is. *)
Lemma structured_message_kept (reason details : string) :
  let message := "Reason: " ++ reason ++ "
Details: " ++ details in
  mapConnectionError message = message.
Proof.
  cbv zeta. unfold mapConnectionError.
  assert (H1 : Js.includes ("Reason: " ++ reason ++ "
Details: " ++ details) "Reason:" = true) by (by apply includes_prefix).
  assert (H2 : Js.includes ("Reason: " ++ reason ++ "
Details: " ++ details) "Details:" = true).
  { apply includes_app_r, includes_app_r.
    change ("
Details: " ++ details) with (String "010" ("Details: " ++ details)).
    cbn [Js.includes]. rewrite (includes_prefix ("Details: " ++ details) "Details:") by done.
    apply orb_true_r. }
  by rewrite H1, H2.
Qed.

Lemma extracted_is_structured (stdout stderr : string) :
  extract stdout stderr = "" \/
  exists reason details, extract stdout stderr = "Reason: " ++ reason ++ "
Details: " ++ details.
Proof.
  unfold extractTeaPieError.
  set (output := (stdout ++ "
" ++ stderr)).
  assert (Hrest :
    match match_refused output with
    | Some endpoint =>
        "Reason: Application Error
Details: No connection could be made because the target machine actively refused it. ("
        ++ endpoint ++ ")"
    | None =>
        match match_host output with
        | Some host =>
            "Reason: Application Error
Details: No such host is known. (" ++ host ++ ")"
        | None =>
            match match_exception output with
            | Some exception =>
                "Reason: Application Error
Details: " ++ Js.trim exception
            | None => ""
            end
        end
    end = "" \/
    exists reason details,
      match match_refused output with
      | Some endpoint =>
          "Reason: Application Error
Details: No connection could be made because the target machine actively refused it. ("
          ++ endpoint ++ ")"
      | None =>
          match match_host output with
          | Some host =>
              "Reason: Application Error
Details: No such host is known. (" ++ host ++ ")"
          | None =>
              match match_exception output with
              | Some exception =>
                  "Reason: Application Error
Details: " ++ Js.trim exception
              | None => ""
              end
          end
      end = "Reason: " ++ reason ++ "
Details: " ++ details).
  { destruct (match_refused output) as [endpoint|].
    { right. by exists "Application Error",
        ("No connection could be made because the target machine actively refused it. ("
         ++ endpoint ++ ")"). }
    destruct (match_host output) as [host|].
    { right. by exists "Application Error", ("No such host is known. (" ++ host ++ ")"). }
    destruct (match_exception output) as [exception|]; [|by left].
    right. by exists "Application Error", (Js.trim exception). }
  destruct (match_Reason output) as [reason|]; [|exact Hrest].
  destruct (match_Details output) as [details|]; [|exact Hrest].
  right. by exists (Js.trim reason), (Js.trim details).
Qed.

(** X14. A run that exits with an error is no failure exactly when the exit
    code is 2 and something was printed.  Any other run fails with an
    [Error]: when the output of the command tells the error (by a reason
    and details, a refused connection, an unknown host or an exception),
    the message is the text extracted from the output and none of the
    user-friendly messages of [mapConnectionError] is put before it, also
    for a refused connection or an unknown host; when the output tells
    nothing, the message is made from [execError.message], or from the
    error itself when that is missing or empty. *)
Theorem failed_run_reports_extracted_error (execError : ExecError) (error_text : string) :
  let outcome :=
    onExecError match_Reason match_Details match_refused match_host match_exception
      execError error_text in
  let extracted :=
    extract (Js.or_string (stdout execError) "") (Js.or_string (stderr execError) "") in
  (outcome = Returned tt <->
   code execError = Some 2 /\ exists out, stdout execError = Some out /\ out <> "") /\
  (outcome <> Returned tt ->
   outcome =
   Thrown (if String.eqb extracted ""
           then mapConnectionError (Js.or_string (message execError) error_text)
           else extracted)).
Proof.
  cbv zeta. unfold onExecError.
  set (extracted := extract _ _).
  assert (Hcode : (Js.or_num (code execError) 0 =? 2) = true <-> code execError = Some 2).
  { destruct (code execError) as [z|]; simpl; [|done].
    destruct (Z.eqb_spec z 0) as [->|]; [done|].
    rewrite Z.eqb_eq. split; [by intros -> | by intros [= ->]]. }
  assert (Hout : Js.truthy_string (stdout execError) = true <->
                 exists out, stdout execError = Some out /\ out <> "").
  { destruct (stdout execError) as [out|]; simpl.
    - rewrite negb_true_iff. split.
      + intros H. exists out. split; [done|]. intros ->. done.
      + intros (? & [= <-] & Hne). by apply String.eqb_neq.
    - split; [done | by intros (? & ? & _)]. }
  destruct ((Js.or_num (code execError) 0 =? 2) && Js.truthy_string (stdout execError))
    eqn:Hok.
  - split; [|done]. split; [|done]. intros _.
    apply andb_true_iff in Hok as [H1 H2]. split; [by apply Hcode | by apply Hout].
  - split.
    + split; [done|]. intros [H1 H2]. apply Hcode in H1. apply Hout in H2.
      by rewrite H1, H2 in Hok.
    + intros _. f_equal.
      destruct (extracted_is_structured (Js.or_string (stdout execError) "")
                  (Js.or_string (stderr execError) "")) as [E|(reason & details & E)];
        fold extracted in E; [by rewrite E|].
      assert (Hne : String.eqb extracted "" = false) by (by rewrite E).
      rewrite Hne, E. apply structured_message_kept.
Qed.

End ExecutionFailures.

(** ** The timestamp in the name of a report *)

Section ReportTimestamps.

Import ReportSelection.

Lemma is_digit_spec (c : ascii) : is_digit c = true <-> (48 <= nat_of_ascii c <= 57)%nat.
Proof.
  unfold is_digit. rewrite andb_true_iff, !Nat.leb_le. done.
Qed.

Lemma take_digits_digits (s : string) : digit_string (take_digits s).1.
Proof.
  induction s as [|c s IH]; [apply digit_string_nil|].
  cbn [take_digits]. destruct (is_digit c) eqn:Hc; [|apply digit_string_nil].
  destruct (take_digits s) as [digits rest]. simpl in *.
  apply digit_string_cons; [by apply is_digit_spec | done].
Qed.

Lemma match_run_at_digits (s d : string) :
  match_run_at s = Some d -> exists c d', d = String c d' /\ digit_string d.
Proof.
  unfold match_run_at. destruct (String.prefix "run-" s); [|done].
  pose proof (take_digits_digits (String.substring 4 (String.length s) s)) as Hd.
  destruct (take_digits _) as [digits rest]. simpl in Hd.
  destruct digits as [|c d']; [done|].
  destruct (_ && _); [|done]. intros [= <-]. eauto.
Qed.

Lemma run_report_match_digits (f d : string) :
  run_report_match f = Some d -> exists c d', d = String c d' /\ digit_string d.
Proof.
  induction f as [|x f IH]; cbn [run_report_match].
  - destruct (match_run_at "") eqn:E; [|done]. intros [= <-]. by eapply match_run_at_digits.
  - destruct (match_run_at (String x f)) eqn:E; [|exact IH].
    intros [= <-]. by eapply match_run_at_digits.
Qed.

Lemma digits_from_acc (radix a : Z) (s : string) : is_Some (Js.digits radix (Some a) s).
Proof.
  revert a. induction s as [|c s IH]; intros a; [by eexists|].
  cbn [Js.digits]. destruct (Js.digit_of radix c); [apply IH | by eexists].
Qed.

(** The argument of [parseInt] in the comparison of the sort is the
    digits that the pattern captured, or ['0']: the value is a number. *)
Lemma timestamp_is_a_number (f : string) :
  is_Some (Js.parseInt (Js.or_string (run_report_match f) "0")).
Proof.
  destruct (run_report_match f) as [d|] eqn:E; [|by eexists].
  destruct (run_report_match_digits f d E) as (c & d' & -> & Hd).
  cbn [Js.or_string String.eqb]. rewrite parseInt_digit_string by done.
  inversion Hd as [|? ? Hc _]; subst. cbn [Js.digits].
  assert (Hdigit : is_Some (Js.digit_of 10 c)).
  { unfold Js.digit_of.
    assert (H1 : (48 <=? Z.of_nat (nat_of_ascii c)) = true) by (apply Z.leb_le; lia).
    assert (H2 : (Z.of_nat (nat_of_ascii c) <=? 57) = true) by (apply Z.leb_le; lia).
    rewrite H1, H2. cbn [andb].
    assert (H3 : (Z.of_nat (nat_of_ascii c) - 48 <? 10) = true) by (apply Z.ltb_lt; lia).
    rewrite H3. by eexists. }
  destruct Hdigit as [v ->]. apply digits_from_acc.
Qed.

End ReportTimestamps.

(** ** The choice of the report file *)

Section ReportChoice.

Import ReportSelection.

Lemma head_insert_report (f : string) (sorted : list string) :
  head (insert_report f sorted) =
  Some match head sorted with
       | Some g => if timestamp_of f <? timestamp_of g then g else f
       | None => f
       end.
Proof. destruct sorted as [|g rest]; [done|]. simpl. by destruct (_ <? _). Qed.

(** The head of the sorted array: the first of the newest files. *)
Lemma sort_reports_head (reportFiles : list string) :
  match head (sort_reports reportFiles) with
  | None => reportFiles = []
  | Some f =>
      exists i : nat,
        reportFiles !! i = Some f /\
        forall (j : nat) g, reportFiles !! j = Some g ->
          timestamp_of g <= timestamp_of f /\ ((j < i)%nat -> timestamp_of g < timestamp_of f)
  end.
Proof.
  induction reportFiles as [|x l IH]; [done|].
  cbn [sort_reports foldr]. fold (sort_reports l). rewrite head_insert_report.
  destruct (head (sort_reports l)) as [g|].
  - destruct IH as (i & Hi & Hmax).
    destruct (Z.ltb_spec (timestamp_of x) (timestamp_of g)) as [Hlt|Hge].
    + exists (S i). split; [done|]. intros [|j] g' Hj; simpl in Hj.
      * injection Hj as <-. split; [lia | intros _; lia].
      * destruct (Hmax j g' Hj) as [H1 H2]. split; [done | intros ?; apply H2; lia].
    + exists 0%nat. split; [done|]. intros [|j] g' Hj; simpl in Hj.
      * injection Hj as <-. split; [lia | lia].
      * destruct (Hmax j g' Hj) as [H1 _]. split; [lia | lia].
  - subst l. exists 0%nat. split; [done|]. intros [|j] g' Hj; [|done].
    injection Hj as <-. split; lia.
Qed.

(** X15. When there is no [last-run-report.xml], the report that is read is
    the newest of the files of the reports directory whose names start
    with [run-] and end with [-report.xml], and among several of the
    same timestamp the one that the directory lists first; no report is
    read exactly when the directory holds no such file.  The timestamps
    are taken below 2^53, where a number holds them exactly. *)
Theorem newest_report_is_chosen (fs : ReportsDirectory) (workspacePath : string)
    (files : list string) :
  let reportFiles := filter (fun f => is_report_file f = true) files in
  last_run_accessible fs = false ->
  readdir fs = Returned files ->
  (forall f, f ∈ reportFiles -> timestamp_of f < 2 ^ 53) ->
  match reportPath fs workspacePath with
  | None => reportFiles = []
  | Some path =>
      exists (i : nat) f,
        path = (workspacePath ++ "/.teapie/reports") ++ "/" ++ f /\
        reportFiles !! i = Some f /\
        forall (j : nat) g, reportFiles !! j = Some g ->
          timestamp_of g <= timestamp_of f /\ ((j < i)%nat -> timestamp_of g < timestamp_of f)
  end.
Proof.
  intros reportFiles Hlast Hdir _. unfold reportPath. rewrite Hlast, Hdir.
  fold reportFiles. pose proof (sort_reports_head reportFiles) as Hhead.
  destruct reportFiles as [|f0 rest] eqn:E; [done|].
  cbn [length Nat.eqb]. rewrite <- E in *.
  destruct (sort_reports reportFiles) as [|first sorted]; [by rewrite Hhead in E|].
  cbn [head] in Hhead. destruct Hhead as (i & Hi & Hmax).
  by exists i, first.
Qed.

End ReportChoice.

(** ** The report of the run among the reports *)

Section OwnReport.

Import ReportSelection.

Lemma number_digit_string (z : Z) :
  0 <= z < 2 ^ 53 ->
  exists c s, Js.string_of_number z = String c s /\ digit_string (String c s).
Proof.
  intros Hz. rewrite string_of_number_exact by lia.
  unfold Js.decimal. destruct z as [|p|p]; [| |lia].
  - exists "0"%char, EmptyString. split; [done|].
    apply digit_string_cons; [split; apply Nat.leb_le; reflexivity | apply digit_string_nil].
  - simpl. rewrite string_of_pos.
    destruct (uint_string_cons _ (DecimalPos.Unsigned.to_uint_nonnil p)) as (c & s & E).
    exists c, s. split; [done|]. rewrite <- E. apply string_of_uint_digits.
Qed.

Lemma is_digit_bounds (c : ascii) : (48 <= nat_of_ascii c <= 57)%nat -> is_digit c = true.
Proof.
  intros [H1 H2]. unfold is_digit. apply andb_true_iff. split; by apply Nat.leb_le.
Qed.

Lemma take_digits_app (d : string) :
  digit_string d -> take_digits (d ++ "-report.xml") = (d, "-report.xml").
Proof.
  induction 1 as [|c s Hc Hs IH]; [done|].
  change (String c s ++ "-report.xml") with (String c (s ++ "-report.xml")).
  cbn [take_digits]. by rewrite (is_digit_bounds c Hc), IH.
Qed.

Lemma substring_all (s : string) (n : nat) :
  (String.length s <= n)%nat -> String.substring 0 n s = s.
Proof.
  revert n. induction s as [|c s IH]; intros n Hn; [by destruct n|].
  destruct n as [|n]; simpl in Hn; [lia|]. simpl. rewrite IH; [done | lia].
Qed.

Lemma substring_suffix (a suffix : string) :
  String.substring (String.length a) (String.length suffix) (a ++ suffix) = suffix.
Proof.
  induction a as [|c a IH]; [by apply substring_all | exact IH].
Qed.

Lemma length_append (a b : string) :
  String.length (a ++ b) = (String.length a + String.length b)%nat.
Proof. induction a as [|c a IH]; [done|]. simpl. by rewrite IH. Qed.

Lemma ends_with_app (a suffix : string) : ends_with (a ++ suffix) suffix = true.
Proof.
  unfold ends_with. rewrite length_append. apply andb_true_iff. split.
  - apply Nat.leb_le. lia.
  - replace (String.length a + String.length suffix - String.length suffix)%nat
      with (String.length a) by lia.
    rewrite substring_suffix. apply String.eqb_refl.
Qed.

Lemma append_assoc (a b c : string) : (a ++ b) ++ c = a ++ b ++ c.
Proof.
  induction a as [|x a IH]; [done|].
  change ((String x a ++ b) ++ c) with (String x ((a ++ b) ++ c)).
  change (String x a ++ b ++ c) with (String x (a ++ b ++ c)).
  f_equal. exact IH.
Qed.

Lemma prefix_append (a b : string) : String.prefix a (a ++ b) = true.
Proof.
  induction a as [|x a IH]; [by destruct b|].
  simpl. by destruct (ascii_dec x x).
Qed.

Lemma report_name_is_report_file (timestamp : Z) : is_report_file (report_name timestamp) = true.
Proof.
  unfold is_report_file, report_name. apply andb_true_iff. split; [apply prefix_append|].
  rewrite <- append_assoc. apply ends_with_app.
Qed.

(** The timestamp that [run-${timestamp}-report.xml] was named with is the
    one that the sort reads in the name. *)
Lemma timestamp_of_report_name (timestamp : Z) :
  0 <= timestamp < 2 ^ 53 -> timestamp_of (report_name timestamp) = timestamp.
Proof.
  intros Hz. destruct (number_digit_string timestamp Hz) as (c & s & E & Hd).
  assert (Hmatch : run_report_match (report_name timestamp) = Some (String c s)).
  { unfold report_name. rewrite E.
    change ("run-" ++ String c s ++ "-report.xml")
      with (String "r" (String "u" (String "n" (String "-" (String c s ++ "-report.xml"))))).
    cbn [run_report_match]. unfold match_run_at at 1.
    cbn [String.prefix String.length String.substring]. cbn.
    rewrite substring_all by (rewrite length_append; simpl; lia).
    change (String c (s ++ "-report.xml")) with (String c s ++ "-report.xml").
    by rewrite (take_digits_app _ Hd). }
  unfold timestamp_of. rewrite Hmatch. cbn [Js.or_string String.eqb].
  rewrite <- E, parseInt_string_of_number; [done | lia].
Qed.

Lemma append_inj_l (a b c : string) : a ++ b = a ++ c -> b = c.
Proof. induction a as [|x a IH]; [done|]. simpl. intros [= H]. by apply IH. Qed.

(** X16. The report that [executeTeaPie] asked the runner to write, and waited
    for, is the one that is parsed when the reports directory lists it,
    no other report file there has a timestamp as new as its own, and
    there is no [last-run-report.xml]. *)
Theorem own_report_is_read (fs : ReportsDirectory) (workspacePath : string)
    (files : list string) (timestamp : Z) :
  last_run_accessible fs = false ->
  readdir fs = Returned files ->
  0 <= timestamp < 2 ^ 53 ->
  report_name timestamp ∈ files ->
  (forall g, g ∈ files -> is_report_file g = true -> g <> report_name timestamp ->
             timestamp_of g < timestamp) ->
  reportPath fs workspacePath =
  Some ((workspacePath ++ "/.teapie/reports") ++ "/" ++ report_name timestamp).
Proof.
  intros Hlast Hdir Hz Hin Hold. unfold reportPath. rewrite Hlast, Hdir.
  set (reportFiles := filter (fun f => is_report_file f = true) files).
  assert (Hown : report_name timestamp ∈ reportFiles).
  { apply list_elem_of_filter. split; [apply report_name_is_report_file | done]. }
  pose proof (sort_reports_head reportFiles) as Hhead.
  destruct reportFiles as [|f0 rest] eqn:E; [by apply elem_of_nil in Hown|].
  cbn [length Nat.eqb]. rewrite <- E in *.
  destruct (sort_reports reportFiles) as [|first sorted];
    [rewrite Hhead in Hown; by apply elem_of_nil in Hown|].
  cbn [head] in Hhead. destruct Hhead as (i & Hi & Hmax).
  destruct (decide (first = report_name timestamp)) as [->|Hne]; [done|].
  exfalso.
  apply list_elem_of_lookup_2 in Hi. apply list_elem_of_filter in Hi as [Hrep Hfirst].
  pose proof (Hold first Hfirst Hrep Hne) as Hlt.
  apply list_elem_of_lookup_1 in Hown as [j Hj].
  destruct (Hmax j _ Hj) as [Hle _]. rewrite timestamp_of_report_name in Hle by done. lia.
Qed.

(** X17. When [last-run-report.xml] can be accessed, it is the report that
    is parsed, whatever the reports directory lists, and it is not the
    report that [executeTeaPie] named and waited for. *)
Theorem last_run_report_comes_first (fs : ReportsDirectory) (workspacePath : string)
    (timestamp : Z) :
  last_run_accessible fs = true ->
  reportPath fs workspacePath =
    Some ((workspacePath ++ "/.teapie/reports") ++ "/last-run-report.xml") /\
  reportPath fs workspacePath <>
    Some ((workspacePath ++ "/.teapie/reports") ++ "/" ++ report_name timestamp).
Proof.
  intros Hlast. unfold reportPath. rewrite Hlast. split; [done|].
  intros [= H]. apply append_inj_l in H. discriminate.
Qed.

End OwnReport.

(** ** The results view *)

Section ResultsView.

Import HttpRequestRunner.

Lemma all_chars_app (P : ascii -> Prop) (s t : string) :
  all_chars P s -> all_chars P t -> all_chars P (s ++ t).
Proof.
  induction s as [|c s IH]; [done|].
  change (String c s ++ t) with (String c (s ++ t)). cbn [all_chars].
  intros [Hc Hs] Ht. split; [done | by apply IH].
Qed.

(** The cases of [escape_char]: one for each of the six characters, and
    one for the others. *)
Ltac escape_cases c :=
  unfold escape_char;
  repeat (match goal with
          | |- context [Ascii.eqb c ?x] => destruct (Ascii.eqb_spec c x) as [->|?]
          end).

Lemma escape_char_markup_free (c : ascii) : markup_free (escape_char c).
Proof.
  unfold markup_free. escape_cases c; cbn [all_chars]; split_and!; try done;
    unfold opens_markup; intros [H|[H|[H|[H|H]]]]; try discriminate; done.
Qed.

Lemma escape_char_head (c : ascii) :
  exists x rest, escape_char c = String x rest.
Proof. escape_cases c; by eexists _, _. Qed.

Lemma escape_chars_inj (a b : string) : escape_chars a = escape_chars b -> a = b.
Proof.
  revert b. induction a as [|c a IH]; intros [|d b]; cbn [escape_chars].
  - done.
  - destruct (escape_char_head d) as (x & rest & ->). done.
  - destruct (escape_char_head c) as (x & rest & ->). done.
  - intros H.
    assert (Hcd : c = d /\ escape_chars a = escape_chars b).
    { revert H. escape_cases c; escape_cases d; cbn [append]; intros [= ?]; subst; done. }
    destruct Hcd as [-> Hrest]. f_equal. by apply IH.
Qed.

(** X18. The text that [escapeHtml] returns holds none of [<], [>], ['], the
    double quote and the back quote, so that it opens no tag and closes
    no attribute of the page in which it is put; and the text that was
    escaped can be told from the result: two texts that differ are shown
    differently. *)
Theorem escaped_text_is_inert (str : option string) :
  markup_free (escapeHtml str) /\
  (forall other, escapeHtml (Some other) = escapeHtml str ->
                 Some other = str \/ (other = "" /\ str = None)).
Proof.
  split.
  - unfold escapeHtml. destruct (negb (Js.truthy_string str)); [done|].
    induction (default "" str) as [|c s IH]; [done|].
    cbn [escape_chars]. apply all_chars_app; [apply escape_char_markup_free | exact IH].
  - intros other H.
    assert (Hsome : forall s, escapeHtml (Some s) = escape_chars s).
    { intros [|c s]; reflexivity. }
    rewrite Hsome in H. destruct str as [s|].
    + rewrite Hsome in H. left. f_equal. by apply escape_chars_inj.
    + right. split; [|done]. by apply (escape_chars_inj other "").
Qed.

(** X19. The head of the block of the other tests never reads [Success]: the
    aggregator gives the pseudo-request of the global bucket the status
    [PASSED] or [FAILED], the view compares it with [Passed], and so the
    block reads [Fail] also when every test of the bucket passed. *)
Theorem other_tests_block_reads_Fail (tests : gmap string (list HttpTestResult))
    (request : HttpRequestResult) :
  request ∈ TeaPieExecutor.custom_request tests ->
  is_custom_block request = true /\
  custom_block_statusText request = "Fail" /\
  (Status request = "PASSED" <->
   forall t, t ∈ default [] (Tests request) -> Passed t = true).
Proof.
  unfold TeaPieExecutor.custom_request.
  destruct (tests !! XmlTestParser.CUSTOM_CSX_TESTS) as [customCsxTests|];
    [|intros H; by apply elem_of_nil in H].
  destruct (0 <? length customCsxTests)%nat; [|intros H; by apply elem_of_nil in H].
  intros H. apply list_elem_of_singleton in H as ->.
  split; [done|]. cbn [Status Tests default from_option id].
  destruct (forallb Passed customCsxTests) eqn:Hall.
  - split; [done|]. split; [|done]. intros _ t Ht.
    rewrite forallb_forall in Hall. by apply Hall, list_elem_of_In.
  - split; [done|]. split; [done|]. intros Hpass.
    assert (forallb Passed customCsxTests = true); [|congruence].
    apply forallb_forall. intros t Ht. by apply Hpass, list_elem_of_In.
Qed.

End ResultsView.

(** ** The global bucket over the suites of a report *)

Section GlobalBucket.

Import XmlTestParser.

Variable testSuiteRegex_matches : string -> list (string * string).
Variable testCaseRegex_matches : string -> list (string * option string).
Variable failureRegex_exec : string -> option string.
Variable decodeXmlEntities : string -> string.
Variable httpFileRequests : list HttpFileRequest.

Local Abbreviation parse :=
  (parseTestResultsFromXml testSuiteRegex_matches testCaseRegex_matches
     failureRegex_exec decodeXmlEntities httpFileRequests).
Local Abbreviation step :=
  (suite_step testCaseRegex_matches failureRegex_exec decodeXmlEntities httpFileRequests).
Local Abbreviation tests_of :=
  (fun testSuiteMatch : string * string =>
     map (testResult_of failureRegex_exec decodeXmlEntities)
       (testCaseRegex_matches testSuiteMatch.2)).

Lemma attribute_suite_bucket (suiteName : string) (allTests : list HttpTestResult) (m : Maps) :
  suiteName <> CUSTOM_CSX_TESTS ->
  CUSTOM_CSX_TESTS ∉ requestName_of <$> httpFileRequests ->
  let m' := attribute_suite httpFileRequests suiteName allTests m in
  allTestsByRequest m' !! CUSTOM_CSX_TESTS =
    match bucket_share httpFileRequests suiteName allTests with
    | [] => allTestsByRequest m !! CUSTOM_CSX_TESTS
    | share => Some (bucket_of (allTestsByRequest m) ++ share)%list
    end /\
  testResults m' !! CUSTOM_CSX_TESTS = testResults m !! CUSTOM_CSX_TESTS.
Proof.
  intros Hname Hreqs. cbv zeta. unfold attribute_suite, bucket_share, bucket_of.
  destruct (decide (allTests = [])) as [->|Hne].
  { cbn [length Nat.ltb Nat.leb]. rewrite drop_nil, fmap_nil.
    destruct (Js.includes suiteName "Custom CSX Tests"); [done|].
    by destruct (existsb _ httpFileRequests). }
  destruct allTests as [|t0 ts] eqn:E; [done|]. clear Hne.
  rewrite <- E. assert (Hlen : (0 <? length allTests)%nat = true) by (by rewrite E).
  rewrite Hlen. clear Hlen.
  destruct (Js.includes suiteName "Custom CSX Tests").
  { cbn [allTestsByRequest testResults]. rewrite append_custom_lookup.
    split; [by rewrite E | done]. }
  destruct (existsb _ httpFileRequests).
  - rewrite slice_to_end.
    destruct (drop (totalInlineTests httpFileRequests) allTests) as [|c cs] eqn:Hdrop.
    + cbn [length Nat.ltb Nat.leb allTestsByRequest testResults]. rewrite fmap_nil.
      split; [by apply distribute_other | by rewrite lookup_insert_ne].
    + cbn [length Nat.ltb Nat.leb allTestsByRequest testResults]. rewrite fmap_cons.
      rewrite append_custom_lookup, distribute_other by done.
      split; [done | by rewrite lookup_insert_ne].
  - cbn [allTestsByRequest testResults]. rewrite append_custom_lookup.
    split; [by rewrite E | by rewrite lookup_insert_ne].
Qed.

Lemma suite_step_bucket (testSuiteMatch : string * string) (m : Maps) :
  decodeXmlEntities testSuiteMatch.1 <> CUSTOM_CSX_TESTS ->
  CUSTOM_CSX_TESTS ∉ requestName_of <$> httpFileRequests ->
  allTestsByRequest (step m testSuiteMatch) !! CUSTOM_CSX_TESTS =
    match bucket_share httpFileRequests (decodeXmlEntities testSuiteMatch.1)
            (tests_of testSuiteMatch) with
    | [] => allTestsByRequest m !! CUSTOM_CSX_TESTS
    | share => Some (bucket_of (allTestsByRequest m) ++ share)%list
    end /\
  testResults (step m testSuiteMatch) !! CUSTOM_CSX_TESTS = testResults m !! CUSTOM_CSX_TESTS.
Proof. intros Hname Hreqs. by apply attribute_suite_bucket. Qed.

Lemma fold_suites_bucket (suites : list (string * string)) (m : Maps) :
  (forall testSuiteMatch, testSuiteMatch ∈ suites ->
     decodeXmlEntities testSuiteMatch.1 <> CUSTOM_CSX_TESTS) ->
  CUSTOM_CSX_TESTS ∉ requestName_of <$> httpFileRequests ->
  let m' := fold_left step suites m in
  let shares :=
    concat (map (fun testSuiteMatch =>
                   bucket_share httpFileRequests (decodeXmlEntities testSuiteMatch.1)
                     (tests_of testSuiteMatch)) suites) in
  allTestsByRequest m' !! CUSTOM_CSX_TESTS =
    match shares with
    | [] => allTestsByRequest m !! CUSTOM_CSX_TESTS
    | x :: rest => Some (bucket_of (allTestsByRequest m) ++ x :: rest)%list
    end /\
  testResults m' !! CUSTOM_CSX_TESTS = testResults m !! CUSTOM_CSX_TESTS.
Proof.
  intros Hsuites Hreqs. cbv zeta. revert m.
  induction suites as [|s suites IH]; intros m; [done|].
  cbn [fold_left map concat].
  destruct (IH (fun x Hx => Hsuites x (list_elem_of_further _ _ _ Hx)) (step m s))
    as [IHa IHt].
  destruct (suite_step_bucket s m (Hsuites s (list_elem_of_here _ _)) Hreqs) as [Ha Ht].
  rewrite IHa, IHt. split; [|exact Ht].
  unfold bucket_of in *. rewrite Ha.
  destruct (bucket_share httpFileRequests (decodeXmlEntities s.1) (tests_of s))
    as [|x share] eqn:Hshare.
  - done.
  - cbn [default from_option id app].
    destruct (concat _) as [|y rest]; [by rewrite app_nil_r|].
    by rewrite <- app_assoc.
Qed.

(** X20. The bucket of the other tests, in the map that the parser returns,
    holds what the suites of the report add to it, suite after suite in
    the order of the report: every test of a suite whose name holds
    [Custom CSX Tests], every test of a suite when no request of the file
    declares test directives, and otherwise the tests of the suite past
    the inline tests, tagged [csx].  The key is not set when the suites
    add nothing.  No request and no suite carries the name of the key. *)
Theorem global_bucket_gathers_suites (xmlContent : string) :
  CUSTOM_CSX_TESTS ∉ requestName_of <$> httpFileRequests ->
  (forall testSuiteMatch, testSuiteMatch ∈ testSuiteRegex_matches xmlContent ->
     decodeXmlEntities testSuiteMatch.1 <> CUSTOM_CSX_TESTS) ->
  parse (Some xmlContent) !! CUSTOM_CSX_TESTS =
  match concat (map (fun testSuiteMatch =>
                       bucket_share httpFileRequests (decodeXmlEntities testSuiteMatch.1)
                         (tests_of testSuiteMatch))
                  (testSuiteRegex_matches xmlContent)) with
  | [] => None
  | shares => Some shares
  end.
Proof.
  intros Hreqs Hsuites. unfold parseTestResultsFromXml.
  destruct (fold_suites_bucket (testSuiteRegex_matches xmlContent) (mkMaps ∅ ∅)
              Hsuites Hreqs) as [Ha Ht].
  cbn [allTestsByRequest testResults] in Ha, Ht. rewrite lookup_empty in Ht.
  rewrite lookup_union, Ha, Ht. unfold bucket_of. rewrite lookup_empty.
  by destruct (concat _).
Qed.

End GlobalBucket.

(** ** Further theorems at sample inputs *)

Section FurtherWitnesses.

Import StructuredJsonParser XmlTestParser TeaPieExecutor.

Lemma retry_chain_summary_witness :
  exists r request,
    parseStructuredJsonRequests Samples.JSON_parse (Content LogSamples.success_then_failure)
      = Returned r /\
    filter (fun q => name q = Some "login") (requests r) = [request] /\
    responseStatus request = Some 500 /\
    (actualAttempts <$> retryInfo request) = Some 2 /\
    (wasRetried <$> retryInfo request) = Some true /\
    duration request = Some "13ms".
Proof.
  destruct (retry_chain_summary Samples.JSON_parse LogSamples.success_then_failure "login")
    as (r & request & info & lastEntry & Hparse & Hfilter & Hinfo & Hcount & Hretried & _
        & _ & Hlast & Hstatus & _ & _ & _ & Hduration & _).
  { vm_compute. discriminate. }
  exists r, request. split; [exact Hparse|]. split; [exact Hfilter|].
  vm_compute in Hlast. injection Hlast as <-.
  split; [exact Hstatus|].
  rewrite Hinfo. simpl. split; [by rewrite Hcount|].
  split; [f_equal; apply Hretried; vm_compute; lia|].
  apply (Hduration (25 # 2)%Q 13); [reflexivity | split; by vm_compute | by vm_compute].
Defined.

Lemma connection_error_short_circuit_witness :
  parseOutput Samples.basename_noext Samples.JSON_parse "demo.http" ∅
    (Content LogSamples.refused_but_200)
  = createFailedResult Samples.basename_noext "demo.http" Samples.refused.
Proof.
  assert (Hparse : exists r,
            parseStructuredJsonRequests Samples.JSON_parse
              (Content LogSamples.refused_but_200) = Returned r /\
            connectionError r = Some Samples.refused /\ requests r <> []).
  { eexists. split; [vm_compute; reflexivity|]. split; [reflexivity | discriminate]. }
  destruct Hparse as (r & Hparse & Hce & Hne).
  destruct (connection_error_short_circuit Samples.basename_noext Samples.JSON_parse
              (Content LogSamples.refused_but_200) r Samples.refused "demo.http" ∅
              Hparse Hce) as [H _].
  destruct (H Hne) as (_ & _ & Hresult & _). exact Hresult.
Defined.

Lemma malformed_line_is_skipped_witness :
  fails_to_parse Samples.JSON_parse "not json" /\
  exists r,
    parseStructuredJsonRequests Samples.JSON_parse (Content "login-200
not json
orders-200") = Returned r /\
    foldr Z.add 0 (attempt_count <$> requests r) = 2 /\
    foundHttpRequest r = true /\
    parseStructuredJsonRequests Samples.JSON_parse (Content "login-200
orders-200") = Returned r.
Proof.
  assert (Hbad : fails_to_parse Samples.JSON_parse "not json")
    by (exists "SyntaxError: Unexpected token"; reflexivity).
  split; [exact Hbad|].
  destruct (malformed_line_is_skipped Samples.JSON_parse "login-200
not json
orders-200" ["login-200"] ["orders-200"] "not json")
    as (r & Hparse & _ & Hsum & Hfound & Hsame).
  { vm_compute. reflexivity. }
  { left. exact Hbad. }
  exists r. split; [exact Hparse|]. split; [exact Hsum|]. split.
  - apply Hfound. exists "login-200", (Samples.entry "login" 200 []).
    split; [left | reflexivity].
  - apply Hsame; [vm_compute; reflexivity | discriminate].
Defined.

Lemma entry_error_hides_requests_witness :
  exists r,
    parseStructuredJsonRequests Samples.JSON_parse (Content LogSamples.errors_in_two_groups)
      = Returned r /\
    connectionError r = Some "socket reset" /\
    name <$> requests r = [Some "login"; Some "orders"] /\
    parseOutput Samples.basename_noext Samples.JSON_parse "demo.http" ∅
      (Content LogSamples.errors_in_two_groups)
      = createFailedResult Samples.basename_noext "demo.http" "socket reset".
Proof.
  destruct (entry_error_hides_requests Samples.basename_noext Samples.JSON_parse
              LogSamples.errors_in_two_groups)
    as (r & e & Hparse & Hhead & Hce & Hnames & Hout).
  { exists (Samples.entry "login" 200 [""; "socket reset"]), "socket reset".
    split_and!.
    - vm_compute. right. right. left.
    - right. left.
    - discriminate. }
  vm_compute in Hhead. injection Hhead as <-.
  exists r. split_and!; [exact Hparse | exact Hce | exact Hnames |].
  apply (Hout "demo.http" ∅).
Defined.

Lemma found_iff_requests_witness :
  exists r,
    parseStructuredJsonRequests Samples.JSON_parse (Content LogSamples.success_then_failure)
      = Returned r /\
    (foundHttpRequest r = true <-> requests r <> []).
Proof.
  eexists. split; [vm_compute; reflexivity|].
  apply (found_iff_requests Samples.JSON_parse (Content LogSamples.success_then_failure)).
  vm_compute. reflexivity.
Defined.

Lemma connection_error_iff_entry_error_witness :
  jsonl_lines LogSamples.refused_but_200 <> [] /\
  exists r,
    parseStructuredJsonRequests Samples.JSON_parse (Content LogSamples.refused_but_200)
      = Returned r /\
    (connectionError r = None <->
     Forall error_free
       (valid_entries Samples.JSON_parse (jsonl_lines LogSamples.refused_but_200))) /\
    (connectionError r = None <->
     Forall (fun q => ErrorMessage q = None) (requests r)).
Proof.
  assert (H : jsonl_lines LogSamples.refused_but_200 <> []) by (vm_compute; discriminate).
  split; [exact H|].
  exact (connection_error_iff_entry_error Samples.JSON_parse LogSamples.refused_but_200 H).
Defined.

Lemma static_fields_from_first_attempt_witness :
  chain "login"
    (valid_entries Samples.JSON_parse (jsonl_lines LogSamples.success_then_failure)) <> [] /\
  exists r request,
    parseStructuredJsonRequests Samples.JSON_parse (Content LogSamples.success_then_failure)
      = Returned r /\
    filter (fun q => name q = Some "login") (requests r) = [request] /\
    url request = "http://localhost:5000/login" /\
    uniqueKey request = Some "id-login" /\
    ErrorMessage request = None.
Proof.
  assert (H : chain "login"
                (valid_entries Samples.JSON_parse
                   (jsonl_lines LogSamples.success_then_failure)) <> [])
    by (vm_compute; discriminate).
  split; [exact H|].
  destruct (static_fields_from_first_attempt Samples.JSON_parse
              LogSamples.success_then_failure "login" H)
    as (r & request & info & firstEntry & firstRequest & Hparse & Hfilter & Hhead & Hfirst
        & _ & Hurl & _ & _ & _ & Hkey & _ & _ & _ & _ & Herr).
  vm_compute in Hhead. injection Hhead as <-.
  vm_compute in Hfirst. injection Hfirst as <-.
  exists r, request. split_and!; [exact Hparse | exact Hfilter | exact Hurl | exact Hkey |].
  rewrite Herr. vm_compute. reflexivity.
Defined.

Lemma group_duration_sums_final_attempts_witness :
  exists g,
    RequestGroup (parseOutput Samples.basename_noext Samples.JSON_parse "demo.http" ∅
                    (Content LogSamples.success_then_failure)) = [g] /\
    Group_Duration g = "13ms".
Proof.
  destruct (group_duration_sums_final_attempts Samples.basename_noext Samples.JSON_parse
              LogSamples.success_then_failure "demo.http" ∅) as (g & Hg & Hd).
  - vm_compute. discriminate.
  - vm_compute. repeat constructor; intros err H; inversion H.
  - vm_compute. repeat constructor; eexists; reflexivity.
  - vm_compute. reflexivity.
  - exists g. split; [exact Hg|]. rewrite Hd. vm_compute. reflexivity.
Defined.

Lemma results_follow_the_log_witness :
  exists g,
    RequestGroup (parseOutput Samples.basename_noext Samples.JSON_parse "demo.http" ∅
                    (Content LogSamples.success_then_failure)) = [g] /\
    Name <$> Group_Requests g = ["login"].
Proof.
  destruct (results_follow_the_log Samples.basename_noext Samples.JSON_parse
              LogSamples.success_then_failure "demo.http" ∅) as (g & Hg & Hn).
  - vm_compute. discriminate.
  - vm_compute. repeat constructor; intros err H; inversion H.
  - exists g. split; [exact Hg|]. rewrite Hn, lookup_empty. vm_compute. reflexivity.
Defined.

Lemma written_lines_are_read_back_witness :
  jsonl_lines "login-200
login-500
" = ["login-200"; "login-500"].
Proof.
  apply (written_lines_are_read_back ["login-200"; "login-500"] "
").
  - repeat constructor; try discriminate.
  - simpl. split; reflexivity.
Defined.

Lemma waiter_sees_update_witness :
  exists w',
    waitForXmlReportUpdate (RunSamples.stat_mtime_written_at 1250) (fun t => t) Z.add
      251 0 10000 (mkWorld 1000 []) = (Returned (Some tt), w') /\
    now w' < 1400 /\ channel w' = [].
Proof.
  apply (waiter_sees_update (RunSamples.stat_mtime_written_at 1250) 0 10000 1250
           (mkWorld 1000 [])).
  - intros t Ht. exists 1250. unfold RunSamples.stat_mtime_written_at.
    destruct (Z.ltb_spec t 1250); [lia|]. split; [reflexivity | lia].
  - simpl. lia.
  - simpl. lia.
Defined.

Lemma waiter_times_out_witness :
  exists w',
    waitForXmlReportUpdate ReportSamples.stat_mtime (fun t => t) Z.add
      301 0 300 (mkWorld 1000 []) = (Returned (Some tt), w') /\
    300 <= now w' - 1000 < 400 /\
    channel w' = [wait_warning 300].
Proof.
  apply (waiter_times_out ReportSamples.stat_mtime 0 300 (mkWorld 1000 [])).
  - intros t m H. discriminate.
  - lia.
Defined.

Lemma newest_report_is_chosen_witness :
  let reportFiles :=
    filter (fun f => ReportSelection.is_report_file f = true) RunSamples.files in
  ReportSelection.reportPath (RunSamples.directory false) "/work" =
    Some "/work/.teapie/reports/run-1700000005000-report.xml" /\
  match ReportSelection.reportPath (RunSamples.directory false) "/work" with
  | None => reportFiles = []
  | Some path =>
      exists (i : nat) f,
        path = ("/work" ++ "/.teapie/reports") ++ "/" ++ f /\
        reportFiles !! i = Some f /\
        forall (j : nat) g, reportFiles !! j = Some g ->
          ReportSelection.timestamp_of g <= ReportSelection.timestamp_of f /\
          ((j < i)%nat -> ReportSelection.timestamp_of g < ReportSelection.timestamp_of f)
  end.
Proof.
  split; [vm_compute; reflexivity|].
  apply (newest_report_is_chosen (RunSamples.directory false) "/work" RunSamples.files).
  - reflexivity.
  - reflexivity.
  - intros f Hf. apply list_elem_of_filter in Hf as [_ Hf].
    unfold RunSamples.files in Hf.
    repeat (apply elem_of_cons in Hf as [->|Hf]; [vm_compute; reflexivity|]).
    by apply elem_of_nil in Hf.
Defined.

Lemma own_report_is_read_witness :
  ReportSelection.reportPath (RunSamples.directory false) "/work" =
  Some (("/work" ++ "/.teapie/reports") ++ "/" ++ ReportSelection.report_name 1700000005000).
Proof.
  apply (own_report_is_read (RunSamples.directory false) "/work" RunSamples.files).
  - reflexivity.
  - reflexivity.
  - lia.
  - apply (list_elem_of_lookup_2 _ 2%nat). vm_compute. reflexivity.
  - intros g Hg Hrep Hne. unfold RunSamples.files in Hg.
    repeat (apply elem_of_cons in Hg as [->|Hg];
            [first [ by vm_compute
                   | by vm_compute in Hrep
                   | exfalso; apply Hne; vm_compute; reflexivity ]|]).
    by apply elem_of_nil in Hg.
Defined.

Lemma last_run_report_comes_first_witness :
  ReportSelection.reportPath (RunSamples.directory true) "/work" =
    Some "/work/.teapie/reports/last-run-report.xml" /\
  ReportSelection.reportPath (RunSamples.directory true) "/work" <>
    Some (("/work" ++ "/.teapie/reports") ++ "/" ++ ReportSelection.report_name 1700000005000).
Proof.
  apply (last_run_report_comes_first (RunSamples.directory true) "/work" 1700000005000).
  reflexivity.
Defined.

Lemma failed_run_reports_extracted_error_witness :
  ExecutionFailure.onExecError RunSamples.match_nothing RunSamples.match_nothing
    RunSamples.match_refused RunSamples.match_nothing RunSamples.match_nothing
    RunSamples.execError "Error: Command failed" =
  Thrown "Reason: Application Error
Details: No connection could be made because the target machine actively refused it. (localhost:5000)".
Proof.
  destruct (failed_run_reports_extracted_error RunSamples.match_nothing
              RunSamples.match_nothing RunSamples.match_refused RunSamples.match_nothing
              RunSamples.match_nothing RunSamples.execError "Error: Command failed")
    as [_ H].
  rewrite H; [vm_compute; reflexivity | vm_compute; discriminate].
Defined.

Lemma other_tests_block_reads_Fail_witness :
  exists request,
    request ∈ custom_request
                {[ CUSTOM_CSX_TESTS := [Samples.test "header is set" true csx] ]} /\
    Status request = "PASSED" /\
    HttpRequestRunner.custom_block_statusText request = "Fail".
Proof.
  assert (Hin : {| Name := "Custom CSX Tests"; Status := "PASSED"; Duration := "0ms";
                   Request := None; Response := None; Result_ErrorMessage := None;
                   Tests := Some [Samples.test "header is set" true csx];
                   Result_RetryInfo := None |}
                ∈ custom_request
                    {[ CUSTOM_CSX_TESTS := [Samples.test "header is set" true csx] ]}).
  { unfold custom_request. rewrite lookup_singleton_eq. simpl. left. }
  eexists. split; [exact Hin|]. split; [reflexivity|].
  apply (other_tests_block_reads_Fail _ _ Hin).
Defined.

Lemma global_bucket_gathers_suites_witness :
  parseTestResultsFromXml ReportSamples.testSuiteRegex_matches
    ReportSamples.testCaseRegex_matches ReportSamples.failureRegex_exec
    ReportSamples.decodeXmlEntities [Samples.fileRequest "login" 1]
    (Some "plain-report") !! CUSTOM_CSX_TESTS =
  Some (replicate 3 (Samples.test "case" true csx)).
Proof.
  rewrite (global_bucket_gathers_suites ReportSamples.testSuiteRegex_matches
             ReportSamples.testCaseRegex_matches ReportSamples.failureRegex_exec
             ReportSamples.decodeXmlEntities [Samples.fileRequest "login" 1] "plain-report").
  - vm_compute. reflexivity.
  - intros H. apply list_elem_of_fmap in H as (req & Hn & Hreq).
    apply list_elem_of_singleton in Hreq as ->. vm_compute in Hn. discriminate.
  - intros testSuiteMatch H.
    change (ReportSamples.testSuiteRegex_matches "plain-report") with [("demo", "pppp")] in H.
    apply list_elem_of_singleton in H as ->. discriminate.
Defined.

End FurtherWitnesses.
